(** * invest-portal: the financials reconciler and the recommendation scoring engine

    Shallow embedding of
      - [src/app/api/financials/route.ts]  (module [Financials]) and
      - the recommendation route          (module [Recommendation]).

    A JavaScript [number] is an IEEE-754 binary64 value.  It is modelled by
    the Standard Library's [spec_float] with [prec = 53] and [emax = 1024],
    so every arithmetic operation below rounds exactly as the engine's does
    (round to nearest, ties to even). *)

From Stdlib Require Import ZArith Lia Bool String.
From Stdlib Require Import Floats.SpecFloat.
From stdpp Require Import base option list gmap strings sorting pretty.

Local Open Scope Z_scope.

(** ** JavaScript numbers *)

Module Num.

Definition prec : Z := 53.
Definition emax : Z := 1024.

Definition number : Type := spec_float.

Definition NaN : number := S754_nan.

(** An integer literal (exact below 2^53). *)
Definition ofZ (z : Z) : number := binary_normalize prec emax z 0 false.

Definition add : number -> number -> number := SFadd prec emax.
Definition sub : number -> number -> number := SFsub prec emax.
Definition mul : number -> number -> number := SFmul prec emax.
Definition div : number -> number -> number := SFdiv prec emax.
Definition neg : number -> number := SFopp.

(** [ratio n d] is the double nearest to the rational [n/d] ([0 < d]):
    the value of a decimal literal such as [0.7 = ratio 7 10]. *)
Definition ratio (n : Z) (d : positive) : number :=
  match n with
  | Z0 => S754_zero false
  | Zpos p => div (S754_finite false p 0) (S754_finite false d 0)
  | Zneg p => div (S754_finite true p 0) (S754_finite false d 0)
  end.

(** Comparison operators: every comparison with NaN is false,
    [+0] and [-0] are equal. *)
Definition ltb (x y : number) : bool := SFltb x y.
Definition leb (x y : number) : bool := SFleb x y.
Definition gtb (x y : number) : bool := SFltb y x.
Definition geb (x y : number) : bool := SFleb y x.
(** [x === y] and [x !== y] on numbers. *)
Definition eqb (x y : number) : bool := SFeqb x y.
Definition neqb (x y : number) : bool := negb (SFeqb x y).

(** [Number.isFinite] *)
Definition isFinite (x : number) : bool :=
  match x with
  | S754_zero _ | S754_finite _ _ _ => true
  | S754_infinity _ | S754_nan => false
  end.

Definition Math_abs : number -> number := SFabs.

(** [Math.min]/[Math.max] of two arguments: NaN if either is NaN, and
    [-0] is smaller than [+0]. *)
Definition Math_min (a b : number) : number :=
  match SFcompare a b with
  | None => NaN
  | Some Lt => a
  | Some Gt => b
  | Some Eq => match a with S754_zero true => a | _ => b end
  end.

Definition Math_max (a b : number) : number :=
  match SFcompare a b with
  | None => NaN
  | Some Lt => b
  | Some Gt => a
  | Some Eq => match a with S754_zero false => a | _ => b end
  end.

(** [Math.round]: the integer nearest to [x], ties towards +infinity,
    that is [floor (x + 1/2)] computed exactly; a result of zero keeps the
    sign of [x]. *)
Definition Math_round (x : number) : number :=
  match x with
  | S754_finite s m e =>
      if 0 <=? e then x
      else
        let n := (cond_Zopp s (2 * Zpos m) + 2 ^ (- e)) / 2 ^ (- e + 1) in
        if n =? 0 then S754_zero s else ofZ n
  | _ => x
  end.

(** [Number(x.toFixed(2))].  [toFixed] picks the integer [n] with
    [n / 100] nearest to [|x|] (the larger one on a tie) and prints it with
    two decimals; [Number] reads the decimal back as the nearest double.
    From 1e21 on [toFixed] prints like [String], which [Number] inverts. *)
Definition toFixed2 (x : number) : number :=
  match x with
  | S754_finite s m e =>
      if 10 ^ 21 <=? (if 0 <=? e then Zpos m * 2 ^ e else Zpos m / 2 ^ (- e))
      then x
      else
        let n := if 0 <=? e then 100 * Zpos m * 2 ^ e
                 else (200 * Zpos m + 2 ^ (- e)) / 2 ^ (- e + 1) in
        let r := ratio n 100 in
        if s then neg r else r
  | S754_zero _ => S754_zero false
  | _ => x
  end.

Arguments ofZ : simpl never.
Arguments ratio : simpl never.
Arguments add : simpl never.
Arguments sub : simpl never.
Arguments mul : simpl never.
Arguments div : simpl never.
Arguments Math_round : simpl never.
Arguments toFixed2 : simpl never.

End Num.

Import Num.

(** ** Payload shared by the two routes *)

Record Meta := {
  revenue_source : string;
  opIncome_source : string;
  fcf_source : string;
}.

(** [type Row]: a field is [number | null]; [meta] is optional. *)
Record Row := {
  year : Z;
  revenue : option number;
  opIncome : option number;
  fcf : option number;
  meta : option Meta;
}.

Record Multiples := {
  pe : option number;
  ps : option number;
}.

(** [type FinancialsPayload] (the timestamp [generated_at_utc] is left out). *)
Record FinancialsPayload := {
  ticker : string;
  source_note : option string;
  rows : list Row;
  multiples : option Multiples;
}.

(** What a route handler hands to [NextResponse.json]. *)
Inductive HttpResponse (A : Type) : Type :=
  | Json (status : Z) (body : A)
  | JsonError (status : Z) (error : string) (message : option string).
Arguments Json {A} status body.
Arguments JsonError {A} status error message.

Definition status_of {A : Type} (r : HttpResponse A) : Z :=
  match r with
  | Json status _ => status
  | JsonError status _ _ => status
  end.

(** [function isNum(x: any): x is number], on a [number | null | undefined]
    field. *)
Definition isNum (x : option number) : bool :=
  match x with
  | Some v => isFinite v
  | None => false
  end.

(** The narrowing that [isNum(x)] performs: the number itself when the guard
    holds. *)
Definition asNum (x : option number) : option number :=
  match x with
  | Some v => if isFinite v then Some v else None
  | None => None
  end.

(** [Array.prototype.sort((a, b) => a - b)] on integer keys: a stable sort,
    written as insertion sort. *)
Section Sort.
Context {A : Type} (key : A -> Z).

Fixpoint insert_sorted (x : A) (l : list A) : list A :=
  match l with
  | [] => [x]
  | y :: l' => if key x <=? key y then x :: l else y :: insert_sorted x l'
  end.

Definition sort_by (l : list A) : list A := foldr insert_sorted [] l.
End Sort.

(** [xs.slice(-3)] *)
Definition slice_last3 {A : Type} (l : list A) : list A :=
  drop (length l - 3)%nat l.

(** ** The recommendation route: the scoring engine *)

Module Recommendation.

Inductive Signal := BUY | WATCH | HOLD | AVOID.
Inductive Trend := UP | DOWN | FLAT | NA.
Inductive Confidence := HIGH | MED | LOW.

Global Instance Signal_eq_dec : EqDecision Signal.
Proof. solve_decision. Defined.

(** [function clamp(x, lo, hi)] *)
Definition clamp (x lo hi : number) : number :=
  Math_max lo (Math_min hi x).

(** [function trend(a, b)] *)
Definition trend (a b : number) : Trend :=
  let chg := sub (div b a) (ofZ 1) in
  if gtb chg (ratio 5 100) then UP
  else if ltb chg (neg (ratio 5 100)) then DOWN
  else FLAT.

(** [function scaleLinear(x, x0, x1)]: x0 -> 0, x1 -> 1 *)
Definition scaleLinear (x x0 x1 : number) : number :=
  clamp (div (sub x x0) (sub x1 x0)) (ofZ 0) (ofZ 1).

(** [function scaleInverse(x, best, worst)]: best -> 1, worst -> 0 *)
Definition scaleInverse (x best worst : number) : number :=
  clamp (div (sub worst x) (sub worst best)) (ofZ 0) (ofZ 1).

Record Sanitized := {
  s_pe : option number;
  s_ps : option number;
  notes : list string;
}.

(** [function sanitizeMultiples(pe, ps)] *)
Definition sanitizeMultiples (pe ps : option number) : Sanitized :=
  let out := {| s_pe := pe; s_ps := ps; notes := [] |} in
  let out :=
    match asNum (s_ps out) with
    | Some v =>
        if gtb v (ofZ 40)
        then {| s_pe := s_pe out; s_ps := None;
                notes := notes out ++
                  ["P/S is extremely high; skipped from scoring (not comparable)."%string] |}
        else out
    | None => out
    end in
  match asNum (s_pe out) with
  | Some v =>
      if gtb v (ofZ 80)
      then {| s_pe := None; s_ps := s_ps out;
              notes := notes out ++
                ["P/E is extremely high; skipped from scoring (not comparable)."%string] |}
      else out
  | None => out
  end.

(** [function pickConfidence(coverage)] *)
Definition pickConfidence (coverage : number) : Confidence :=
  if geb coverage (ratio 7 10) then HIGH
  else if geb coverage (ratio 35 100) then MED
  else LOW.

Record Used := { growth : bool; margin : bool; value : bool }.

(** [const WEIGHTS = { growth: 35, margin: 35, value: 30 }] *)
Definition WEIGHTS_growth : number := ofZ 35.
Definition WEIGHTS_margin : number := ofZ 35.
Definition WEIGHTS_value : number := ofZ 30.

(** The local variables of [GET] once the scoring has run. *)
Record Scoring := {
  revCagr : option number;
  opMargin : option number;
  fcfMargin : option number;
  fcfTrend : Trend;
  pe0 : option number;
  ps0 : option number;
  mult : Sanitized;
  used : Used;
  growthScore : number;
  marginScore : number;
  valueScore : number;
  usedTotalWeight : number;
  scoreNorm : number;
  coverage : number;
  penaltyFactor : number;
  scoreFinal : number;
  baseSignal : Signal;
  lowConf : bool;
  warnings : list string;
  signal : Signal;
  confidence : Confidence;
}.

(** The body of the JSON answer; the fields [ticker], [generated_at_utc],
    [source], [summary.auto] and [explain] (a copy of the fields below) are
    left out. *)
Record Response := {
  r_signal : Signal;
  r_score : number;
  r_confidence : Confidence;
  diagnostics_score_norm : number;
  diagnostics_coverage : number;
  diagnostics_penalty_factor : number;
  diagnostics_low_conf : bool;
  diagnostics_base_signal : Signal;
  diagnostics_note : string;
  used_growth : bool;
  used_margin : bool;
  used_value : bool;
  used_used_total_weight : number;
  breakdown_growth : number;
  breakdown_margin : number;
  breakdown_value : number;
  breakdown_raw_total : number;
  summary_revenue_cagr : option number;
  summary_op_margin : option number;
  summary_fcf_margin : option number;
  summary_fcf_trend : Trend;
  summary_pe : option number;
  summary_ps : option number;
  explain_value_pe_scored : option number;
  explain_value_ps_scored : option number;
  r_warnings : list string;
}.

(** What [fetch] of the financials route gave: a rejected promise, or an
    answer, read as the [HttpResponse] the route built (an error answer has
    neither [rows] nor [multiples] in its body). *)
Inductive Fetched :=
  | Rejected (message : string)
  | Answered (response : HttpResponse FinancialsPayload).

Section Engine.
(** [Math.pow] is left to the engine by the language standard (an
    implementation-approximated function), so the model takes it as a
    parameter. *)
Variable Math_pow : number -> number -> number.

(** [function cagr(first, last, years)] *)
Definition cagr (first last years : number) : option number :=
  if leb first (ofZ 0) || leb last (ofZ 0) || leb years (ofZ 0) then None
  else Some (sub (Math_pow (div last first) (div (ofZ 1) years)) (ofZ 1)).

(** Growth: the CAGR over all the years when there are three rows,
    else year over year. *)
Definition compute_revCagr (rows : list Row) : option number :=
  let latest := last rows in
  let prev := if decide (2 <= length rows)%nat then rows !! (length rows - 2)%nat else None in
  let oldest := head rows in
  match (o ← oldest; l ← latest; a ← asNum (revenue o); b ← asNum (revenue l);
         if decide (3 <= length rows)%nat then Some (a, b) else None) with
  | Some (a, b) => cagr a b (ofZ (Z.of_nat (length rows) - 1))
  | None =>
      match (p ← prev; l ← latest; a ← asNum (revenue p); b ← asNum (revenue l);
             if neqb a (ofZ 0) then Some (a, b) else None) with
      | Some (a, b) => Some (sub (div b a) (ofZ 1))
      | None => None
      end
  end.

(** [opMargin] and [fcfMargin]: a field of the latest row over its
    revenue. *)
Definition compute_margin (field : Row -> option number) (rows : list Row)
  : option number :=
  l ← last rows; x ← asNum (field l); r ← asNum (revenue l);
  if neqb r (ofZ 0) then Some (div x r) else None.

Definition compute_fcfTrend (rows : list Row) : Trend :=
  let latest := last rows in
  let prev := if decide (2 <= length rows)%nat then rows !! (length rows - 2)%nat else None in
  match (p ← prev; l ← latest; a ← asNum (fcf p); b ← asNum (fcf l);
         if neqb a (ofZ 0) then Some (a, b) else None) with
  | Some (a, b) => trend (Math_abs a) (Math_abs b)
  | None => NA
  end.

Definition signal_of (scoreFinal : number) : Signal :=
  if geb scoreFinal (ofZ 70) then BUY
  else if geb scoreFinal (ofZ 55) then WATCH
  else if geb scoreFinal (ofZ 40) then HOLD
  else AVOID.

(** The scoring part of [GET], from the parsed payload [fin] on.  Each
    [...Step] pair is a [used] flag with the running sub-score. *)
Definition score (fin : FinancialsPayload) : Scoring :=
  let rows := sort_by year (rows fin) in
(* Feature engineering *)
let revCagr := compute_revCagr rows in
let opMargin := compute_margin opIncome rows in
let fcfMargin := compute_margin fcf rows in
let fcfTrend := compute_fcfTrend rows in
let pe0 := m ← multiples fin; pe m in
let ps0 := m ← multiples fin; ps m in
let mult := sanitizeMultiples pe0 ps0 in
let pe := s_pe mult in
let ps := s_ps mult in
(* Scoring: a missing input is skipped, not scored 0 *)
let growthStep :=
  match asNum revCagr with
  | Some v =>
      (true, mul (scaleLinear v (neg (ratio 2 10)) (ratio 3 10)) WEIGHTS_growth)
  | None => (false, ofZ 0)
  end in
let growthScore := growthStep.2 in
let marginStep := (false, ofZ 0) in
let marginStep :=
  match asNum opMargin with
  | Some v =>
      (true, add marginStep.2 (mul (scaleLinear v (ofZ 0) (ratio 25 100)) (ofZ 20)))
  | None => marginStep
  end in
let marginStep :=
  match asNum fcfMargin with
  | Some v =>
      (true, add marginStep.2 (mul (scaleLinear v (ofZ 0) (ratio 2 10)) (ofZ 15)))
  | None => marginStep
  end in
let marginScore := marginStep.2 in
let valueStep := (false, ofZ 0) in
let valueStep :=
  match asNum pe with
  | Some v =>
      (true, add valueStep.2 (mul (scaleInverse v (ofZ 10) (ofZ 40)) (ofZ 18)))
  | None => valueStep
  end in
let valueStep :=
  match asNum ps with
  | Some v =>
      (true, add valueStep.2 (mul (scaleInverse v (ofZ 1) (ofZ 12)) (ofZ 12)))
  | None => valueStep
  end in
let valueScore := valueStep.2 in
let used :=
  {| growth := growthStep.1; margin := marginStep.1; value := valueStep.1 |} in
let usedTotalWeight :=
  add (add (if growth used then WEIGHTS_growth else ofZ 0)
           (if margin used then WEIGHTS_margin else ofZ 0))
      (if value used then WEIGHTS_value else ofZ 0) in
(* Normalize (0~100): neutral 50 when nothing was usable *)
let scoreNorm :=
  if eqb usedTotalWeight (ofZ 0) then ofZ 50
  else
    let raw := add (add growthScore marginScore) valueScore in
    clamp (Math_round (mul (div raw usedTotalWeight) (ofZ 100))) (ofZ 0) (ofZ 100) in
(* Coverage penalty: 0% -> 70%, 100% -> 100% *)
let coverage := div usedTotalWeight (ofZ 100) in
let penaltyFactor := add (ratio 7 10) (mul (ratio 3 10) coverage) in
let scoreFinal := clamp (Math_round (mul scoreNorm penaltyFactor)) (ofZ 0) (ofZ 100) in
(* Signal *)
let signal := signal_of scoreFinal in
(* Low confidence adjustment *)
let lowConf := ltb coverage (ratio 6 10) in
let baseSignal := signal in
let warnings := notes mult in
let warnings :=
  if eqb coverage (ofZ 0)
  then warnings ++ ["No usable financial/value signals; neutral score used."%string]
  else if ltb coverage (ratio 35 100)
  then warnings ++ ["Very low coverage; treat as WATCH (not a strong call)."%string]
  else if ltb coverage (ratio 6 10)
  then warnings ++ ["Low coverage; treat as WATCH (not a strong call)."%string]
  else warnings in
let signal :=
  if lowConf && negb (bool_decide (signal = WATCH)) then WATCH else signal in
{| revCagr := revCagr; opMargin := opMargin; fcfMargin := fcfMargin;
   fcfTrend := fcfTrend; pe0 := pe0; ps0 := ps0; mult := mult; used := used;
   growthScore := growthScore; marginScore := marginScore;
   valueScore := valueScore; usedTotalWeight := usedTotalWeight;
   scoreNorm := scoreNorm; coverage := coverage;
   penaltyFactor := penaltyFactor; scoreFinal := scoreFinal;
   baseSignal := baseSignal; lowConf := lowConf; warnings := warnings;
   signal := signal; confidence := pickConfidence coverage |}.

(** The object given to [NextResponse.json]. *)
Definition respond (fin : FinancialsPayload) (s : Scoring) : Response :=
  {| r_signal := signal s;
     r_score := scoreFinal s;
     r_confidence := confidence s;
     diagnostics_score_norm := scoreNorm s;
     diagnostics_coverage := toFixed2 (coverage s);
     diagnostics_penalty_factor := toFixed2 (penaltyFactor s);
     diagnostics_low_conf := lowConf s;
     diagnostics_base_signal := baseSignal s;
     diagnostics_note := default EmptyString (source_note fin);
     used_growth := growth (used s);
     used_margin := margin (used s);
     used_value := value (used s);
     used_used_total_weight := usedTotalWeight s;
     breakdown_growth := Math_round (growthScore s);
     breakdown_margin := Math_round (marginScore s);
     breakdown_value := Math_round (valueScore s);
     breakdown_raw_total :=
       Math_round (add (add (growthScore s) (marginScore s)) (valueScore s));
     summary_revenue_cagr := revCagr s;
     summary_op_margin := opMargin s;
     summary_fcf_margin := fcfMargin s;
     summary_fcf_trend := fcfTrend s;
     summary_pe := pe0 s;
     summary_ps := ps0 s;
     explain_value_pe_scored := s_pe (mult s);
     explain_value_ps_scored := s_ps (mult s);
     r_warnings := warnings s |}.

(** The answer's body as a [FinancialsPayload]: [fin.rows || []],
    [fin.multiples], [fin.source_note]. *)
Definition payload_of (response : HttpResponse FinancialsPayload) : FinancialsPayload :=
  match response with
  | Json _ fin => fin
  | JsonError _ _ _ =>
      {| ticker := EmptyString; source_note := None; rows := []; multiples := None |}
  end.

(** [finRes.ok]: the status is in the range 200-299. *)
Definition ok (response : HttpResponse FinancialsPayload) : bool :=
  (200 <=? status_of response) && (status_of response <=? 299).

(** [export async function GET(req)].  [tickerRaw] is the query parameter
    and [finRes] what the fetch of [/api/financials?ticker=...] gave. *)
Definition GET (tickerRaw : option string) (finRes : Fetched)
  : HttpResponse Response :=
  match tickerRaw with
  | None | Some EmptyString => JsonError 400 "ticker missing" None
  | Some _ =>
      match finRes with
      | Rejected message => JsonError 500 "recommendation failed" (Some message)
      | Answered response =>
          if negb (ok response)
          then JsonError 500 ("financials HTTP " +:+ pretty (status_of response)) None
          else
            let fin := payload_of response in
            Json 200 (respond fin (score fin))
      end
  end.
End Engine.

End Recommendation.

(** ** The financials route: reconciling the two providers *)

Module Financials.

(** The value of [byYear]: [{ fh?: Row; sec?: Row }]. *)
Record Pair := { p_fh : option Row; p_sec : option Row }.

Definition no_pair : Pair := {| p_fh := None; p_sec := None |}.

(** [byYear.set(r.year, { ...(byYear.get(r.year) || {}), fh: r })] *)
Definition set_fh (byYear : gmap Z Pair) (r : Row) : gmap Z Pair :=
  <[year r := {| p_fh := Some r; p_sec := p_sec (default no_pair (byYear !! year r)) |}]> byYear.

Definition set_sec (byYear : gmap Z Pair) (r : Row) : gmap Z Pair :=
  <[year r := {| p_fh := p_fh (default no_pair (byYear !! year r)); p_sec := Some r |}]> byYear.

(** [a?.revenue] and its like *)
Definition opt_field (f : Row -> option number) (a : option Row) : option number :=
  r ← a; f r.

(** [isNum(a?.f) ? a!.f : (isNum(b?.f) ? b!.f : null)] *)
Definition prefer (f : Row -> option number) (a b : option Row) : option number :=
  match asNum (opt_field f a) with
  | Some v => Some v
  | None => asNum (opt_field f b)
  end.

(** [isNum(a?.f) ? "finnhub" : (isNum(b?.f) ? "sec" : "none")] *)
Definition source_of (f : Row -> option number) (a b : option Row) : string :=
  if isNum (opt_field f a) then "finnhub"
  else if isNum (opt_field f b) then "sec"
  else "none".

Definition merge_year (byYear : gmap Z Pair) (y : Z) : Row :=
  let pair := default no_pair (byYear !! y) in
  let a := p_fh pair in
  let b := p_sec pair in
  {| year := y;
     revenue := prefer revenue a b;
     opIncome := prefer opIncome a b;
     fcf := prefer fcf a b;
     meta := Some {| revenue_source := source_of revenue a b;
                     opIncome_source := source_of opIncome a b;
                     fcf_source := source_of fcf a b |} |}.

(** The map [byYear] after the two loops. *)
Definition collect (fh sec : list Row) : gmap Z Pair :=
  foldl set_sec (foldl set_fh ∅ fh) sec.

(** [Array.from(byYear.keys()).sort((a, b) => a - b).slice(-3)] *)
Definition merged_years (byYear : gmap Z Pair) : list Z :=
  slice_last3 (sort_by id (fst <$> map_to_list byYear)).

(** [function mergeRowsPreferFinnhub(fh, sec)] *)
Definition mergeRowsPreferFinnhub (fh sec : list Row) : list Row :=
  let byYear := collect fh sec in
  merge_year byYear <$> merged_years byYear.

(** The result of an awaited call: it resolved, or it threw. *)
Inductive Outcome (A : Type) : Type :=
  | Resolved (a : A)
  | Threw (message : string).
Arguments Resolved {A} a.
Arguments Threw {A} message.

Definition nonempty (s : string) : bool :=
  match s with EmptyString => false | _ => true end.

Section Handler.
(** The raw provider documents are untyped JSON; [GET] only hands them to
    the two extractors and passes their rows on, so the documents are
    abstract and the extractors are parameters.  The awaited fetches
    (network and process-wide caches) are parameters as well, and so is
    [toUpperTicker] (decode, trim, upper-case). *)
Context {SecCompanyFacts FinnhubFinancialsResponse : Type}.
Variable toUpperTicker : string -> string.
Variable buildRowsFromSEC : SecCompanyFacts -> list Row.
Variable parseFinnhubAnnualFY : FinnhubFinancialsResponse -> list Row.
Variable SEC_USER_AGENT FINNHUB_API_KEY : string.
Variable fetchSecTickerMap : string -> Outcome (gmap string string).
Variable fetchSecCompanyFacts : string -> string -> Outcome SecCompanyFacts.
Variable fetchFinnhubFinancials : string -> string -> Outcome FinnhubFinancialsResponse.
Variable fetchFinnhubMultiples : string -> string -> Outcome Multiples.

Definition no_multiples : Multiples := {| pe := None; ps := None |}.

(** [export async function GET(req)] *)
Definition GET (tickerRaw : option string) : HttpResponse FinancialsPayload :=
  match tickerRaw with
  | None | Some EmptyString => JsonError 400 "ticker missing" None
  | Some raw =>
      let ticker := toUpperTicker raw in
      let SEC_UA := SEC_USER_AGENT in
      if negb (nonempty SEC_UA)
      then JsonError 500 "SEC_USER_AGENT missing in .env.local" None
      else
        let FINNHUB_KEY := FINNHUB_API_KEY in
        match fetchSecTickerMap SEC_UA with
        | Threw message => JsonError 500 "financials failed" (Some message)
        | Resolved map =>
            match map !! ticker with
            | None | Some EmptyString =>
                Json 200
                  {| ticker := ticker;
                     source_note := Some "SEC has no CIK mapping for this ticker."%string;
                     rows := [];
                     multiples := Some no_multiples |}
            | Some cik10 =>
                match fetchSecCompanyFacts cik10 SEC_UA with
                | Threw message => JsonError 500 "financials failed" (Some message)
                | Resolved facts =>
                    let secParsed := buildRowsFromSEC facts in
                    let '(fhRows, finnhubOk) :=
                      if nonempty FINNHUB_KEY then
                        match fetchFinnhubFinancials ticker FINNHUB_KEY with
                        | Resolved fh => (parseFinnhubAnnualFY fh, true)
                        | Threw _ => ([], false)
                        end
                      else ([], false) in
                    let multiples :=
                      if nonempty FINNHUB_KEY then
                        match fetchFinnhubMultiples ticker FINNHUB_KEY with
                        | Resolved m => m
                        | Threw _ => no_multiples
                        end
                      else no_multiples in
                    let rows := mergeRowsPreferFinnhub fhRows secParsed in
                    let noteParts :=
                      [ (if finnhubOk
                         then "Income/CF: Finnhub preferred, SEC used as fallback."
                         else "Income/CF: SEC source (Finnhub unavailable).")%string;
                        "FCF is computed as CFO - abs(Capex)."%string;
                        "Some fields may be unavailable depending on filing / tags."%string ] in
                    Json 200
                      {| ticker := ticker;
                         source_note := Some (String.concat " " noteParts);
                         rows := rows;
                         multiples := Some multiples |}
                end
            end
        end
  end.
End Handler.

End Financials.

(** ** The two routes together

    The recommendation route fetches [/api/financials?ticker=...] from its own
    origin, so what it gets is the answer of the financials route. *)

Module Pipeline.

Definition recommend (Math_pow : number -> number -> number)
    (financials_GET : option string -> HttpResponse FinancialsPayload)
    (toUpperTicker : string -> string)
    (tickerRaw : option string) : HttpResponse Recommendation.Response :=
  let ticker := toUpperTicker (default EmptyString tickerRaw) in
  Recommendation.GET Math_pow tickerRaw
    (Recommendation.Answered (financials_GET (Some ticker))).

End Pipeline.
(** ** The providers behind the financials route

    The rest of [src/app/api/financials/route.ts]: the SEC EDGAR and Finnhub
    fetchers with their process-wide caches, and the two extractors that
    [Financials.GET] takes as parameters.

    The provider documents are untyped JSON.  Each record below is what the
    code reads of such a document: an [option] field is [None] when the
    property is missing or has another type than the one the code tests for,
    and a fiscal year is an integer, as in [Row]. *)

(** An awaited call that threw is an error; [x ← m; f] is sequencing with
    [await]. *)
#[export] Instance Outcome_bind : MBind Financials.Outcome := fun A B f m =>
  match m with
  | Financials.Resolved a => f a
  | Financials.Threw message => Financials.Threw message
  end.

(** [coverage: { revenue, opIncome, fcf }] *)
Record Coverage := {
  has_revenue : bool;
  has_opIncome : bool;
  has_fcf : bool;
}.

(** What the two extractors return: [{ rows, coverage }]. *)
Record Parsed := {
  parsed_rows : list Row;
  parsed_coverage : Coverage;
}.

(** [rows.some((r) => isNum(r.f))] for each of the three fields *)
Definition coverage_of (rows : list Row) : Coverage :=
  {| has_revenue := existsb (fun r => isNum (revenue r)) rows;
     has_opIncome := existsb (fun r => isNum (opIncome r)) rows;
     has_fcf := existsb (fun r => isNum (fcf r)) rows |}.

(** [Array.prototype.sort(compareFn)]: a stable sort, written as insertion
    sort.  [compareFn a b <= 0] keeps [a] before [b]. *)
Section SortWith.
Context {A : Type} (compareFn : A -> A -> Z).

Fixpoint insert_with (x : A) (l : list A) : list A :=
  match l with
  | [] => [x]
  | y :: l' => if compareFn x y <=? 0 then x :: l else y :: insert_with x l'
  end.

Definition sort_with (l : list A) : list A := foldr insert_with [] l.
End SortWith.

Module Http.
Import Financials.

(** What [await fetch(url, init)] resolves to, as far as the callers look at
    it: [res.status], and what [await res.json()] gives (it throws on a body
    that is not the JSON the caller reads). *)
Record Reply (A : Type) := { status : Z; json : Outcome A }.
Arguments status {A} _.
Arguments json {A} _.

(** [res.ok]: the status is in the range 200-299. *)
Definition ok {A : Type} (res : Reply A) : bool :=
  (200 <=? status res) && (status res <=? 299).

End Http.

(** *** SEC EDGAR *)

Module Sec.
Import Stdlib.Strings.Ascii Financials.

(** [\d]: one of the characters 0 to 9. *)
Definition is_digit (c : ascii) : bool :=
  match Ascii.is_nat c with
  | Some _ => true
  | None => false
  end.

(** [s.replace(/\D/g, '')]: every character that is not a digit is removed. *)
Fixpoint digits_only (s : string) : string :=
  match s with
  | EmptyString => EmptyString
  | String c s' => if is_digit c then String c (digits_only s') else digits_only s'
  end.

(** [s.padStart(targetLength, "0")] *)
Definition padStart0 (targetLength : nat) (s : string) : string :=
  string_of_list_ascii (replicate (targetLength - String.length s) "0"%char) +:+ s.

(** [cik: number | string]; a CIK number is an integer. *)
Inductive Cik :=
  | CikNumber (n : Z)
  | CikString (s : string).

(** [String(cik)]: an integer (below 10^21 in size) prints in decimal. *)
Definition String_of_cik (cik : Cik) : string :=
  match cik with
  | CikNumber n => pretty n
  | CikString s => s
  end.

(** [function padCik10(cik)] *)
Definition padCik10 (cik : Cik) : string :=
  let s := digits_only (String_of_cik cik) in
  padStart0 10 s.

(** [type SecTickerRow], as [fetchSecTickerMap] reads it: [ticker] is
    [None] when missing, [cik_str] when missing or null. *)
Record SecTickerRow := {
  cik_str : option Cik;
  ticker : option string;
}.

(** [type FactPoint], as [extractAnnualByFY] reads it. *)
Record FactPoint := {
  fy : option Z;
  fp : option string;
  filed : option string;
  val : option number;
}.

(** [type SecCompanyFacts = any]: for each concept, the array
    [facts?.facts?.["us-gaap"]?.[concept]?.units?.USD] when there is one. *)
Definition SecCompanyFacts : Type := gmap string (list FactPoint).

(** [mem.__sec_cache__] *)
Record SecCache := {
  tickerMap : option (gmap string string);
  tickerMapFetchedAt : Z;
  companyFacts : gmap string (Z * SecCompanyFacts);
}.

(** The cache of a fresh process. *)
Definition no_cache : SecCache :=
  {| tickerMap := None; tickerMapFetchedAt := 0; companyFacts := ∅ |}.

Section TickerMap.
(** [String.prototype.toUpperCase] *)
Variable toUpperCase : string -> string.
(** The network: the reply to the request for [SEC_TICKER_MAP_URL] sent with
    the given [User-Agent], the body read as [Record<string, SecTickerRow>]
    (its values, in the order of [Object.keys]). *)
Variable fetch_ticker_map : string -> Outcome (Http.Reply (list SecTickerRow)).

(** One turn of the loop over [Object.keys(j)]. *)
Definition set_ticker (map : gmap string string) (row : SecTickerRow)
  : gmap string string :=
  match ticker row, cik_str row with
  | Some t, Some cik =>
      if nonempty t then <[toUpperCase t := padCik10 cik]> map else map
  | _, _ => map
  end.

(** [async function fetchSecTickerMap(userAgent)], at time [now]
    ([Date.now()], in milliseconds) on the cache [mem]: the result and the
    cache it leaves. *)
Definition fetchSecTickerMap (now : Z) (userAgent : string) (mem : SecCache)
  : Outcome (gmap string string) * SecCache :=
  let refetch :=
    match fetch_ticker_map userAgent with
    | Threw message => (Threw message, mem)
    | Resolved res =>
        if negb (Http.ok res)
        then (Threw ("SEC ticker map HTTP " +:+ pretty (Http.status res)), mem)
        else
          match Http.json res with
          | Threw message => (Threw message, mem)
          | Resolved j =>
              let map := foldl set_ticker ∅ j in
              (Resolved map,
               {| tickerMap := Some map; tickerMapFetchedAt := now;
                  companyFacts := companyFacts mem |})
          end
    end in
  match tickerMap mem with
  | Some cached =>
      if now - tickerMapFetchedAt mem <? 7 * 24 * 3600 * 1000
      then (Resolved cached, mem)
      else refetch
  | None => refetch
  end.
End TickerMap.

Section CompanyFacts.
(** The network: the reply to the request for the company facts of a CIK,
    sent with the given [User-Agent]. *)
Variable fetch_company_facts : string -> string -> Outcome (Http.Reply SecCompanyFacts).

(** [async function fetchSecCompanyFacts(cik10, userAgent)] *)
Definition fetchSecCompanyFacts (now : Z) (cik10 userAgent : string) (mem : SecCache)
  : Outcome SecCompanyFacts * SecCache :=
  let refetch :=
    match fetch_company_facts cik10 userAgent with
    | Threw message => (Threw message, mem)
    | Resolved res =>
        if negb (Http.ok res)
        then (Threw ("SEC companyfacts HTTP " +:+ pretty (Http.status res)), mem)
        else
          match Http.json res with
          | Threw message => (Threw message, mem)
          | Resolved data =>
              (Resolved data,
               {| tickerMap := tickerMap mem;
                  tickerMapFetchedAt := tickerMapFetchedAt mem;
                  companyFacts := <[cik10 := (now, data)]> (companyFacts mem) |})
          end
    end in
  match companyFacts mem !! cik10 with
  | Some hit =>
      if now - hit.1 <? 6 * 3600 * 1000 then (Resolved hit.2, mem) else refetch
  | None => refetch
  end.
End CompanyFacts.

Section Extract.
(** [String.prototype.localeCompare]: negative, zero or positive. *)
Variable localeCompare : string -> string -> Z.

(** [p && p.fp === "FY" && isNum(p.val) && Number.isFinite(p.fy || NaN)]:
    a fiscal year of 0 is falsy, so it is turned into NaN and dropped. *)
Definition annual_point (p : FactPoint) : bool :=
  bool_decide (fp p = Some "FY"%string) && isNum (val p) &&
  match fy p with
  | Some y => negb (y =? 0)
  | None => false
  end.

(** The comparator of [annual.sort]: [localeCompare] on the two [filed]
    strings, a missing one counting as the empty string. *)
Definition by_filed (a b : FactPoint) : Z :=
  localeCompare (default EmptyString (filed a)) (default EmptyString (filed b)).

(** [out.set(year, Number(p.val))], for a point that passed the filter. *)
Definition set_point (out : gmap Z number) (p : FactPoint) : gmap Z number :=
  match fy p, asNum (val p) with
  | Some year, Some v => <[year := v]> out
  | _, _ => out
  end.

(** [function extractAnnualByFY(facts, concept)] *)
Definition extractAnnualByFY (facts : SecCompanyFacts) (concept : string)
  : gmap Z number :=
  let pts := default [] (facts !! concept) in
  let annual := filter (fun p => annual_point p = true) pts in
  let annual := sort_with by_filed annual in
  foldl set_point ∅ annual.

(** The row of [buildRowsFromSEC] for the year [y]. *)
Definition sec_row (rev op cfo capex : gmap Z number) (y : Z) : Row :=
  let revenue := rev !! y in
  let opIncome := op !! y in
  let cfoVal := cfo !! y in
  let capexVal := capex !! y in
  let fcf :=
    match asNum cfoVal, asNum capexVal with
    | Some a, Some b => Some (sub a (Math_abs b))
    | _, _ => None
    end in
  {| year := y;
     revenue := asNum revenue;
     opIncome := asNum opIncome;
     fcf := asNum fcf;
     meta := Some {| revenue_source := if isNum revenue then "sec" else "none";
                     opIncome_source := if isNum opIncome then "sec" else "none";
                     fcf_source := if isNum fcf then "sec" else "none" |} |}.

(** [function buildRowsFromSEC(facts)] *)
Definition buildRowsFromSEC (facts : SecCompanyFacts) : Parsed :=
  let rev := extractAnnualByFY facts "Revenues" in
  let op := extractAnnualByFY facts "OperatingIncomeLoss" in
  let cfo := extractAnnualByFY facts "NetCashProvidedByUsedInOperatingActivities" in
  let capex := extractAnnualByFY facts "PaymentsToAcquirePropertyPlantAndEquipment" in
  let years :=
    slice_last3 (sort_by id (elements (dom rev ∪ dom op ∪ dom cfo ∪ dom capex))) in
  let rows := sec_row rev op cfo capex <$> years in
  {| parsed_rows := rows; parsed_coverage := coverage_of rows |}.
End Extract.

End Sec.

(** *** Finnhub *)

Module Finnhub.
Import Financials.

(** An entry of a statement array ([report.ic], [report.cf]):
    [{concept, label, value, unit, ...}]. *)
Record Item := {
  concept : option string;
  value : option number;
}.

(** An entry of [data.data]: [Number(r?.year)] when that is finite,
    [String(r?.period)] (empty when there is none), and the two statement arrays, empty when
    [r?.report?.ic] (or [cf]) is not an array. *)
Record Report := {
  r_year : option Z;
  period : string;
  ic : list Item;
  cf : list Item;
}.

(** [type FinnhubFinancialsResponse = any]: the array [data?.data], empty
    when there is none. *)
Definition FinnhubFinancialsResponse : Type := list Report.

(** The body of the metric endpoint: [j?.metric?.peTTM] and [psTTM]. *)
Record Metric := {
  peTTM : option number;
  psTTM : option number;
}.

Section Fetch.
(** The network: the replies to the two requests, for a symbol and a token. *)
Variable fetch_financials : string -> string -> Outcome (Http.Reply FinnhubFinancialsResponse).
Variable fetch_metric : string -> string -> Outcome (Http.Reply Metric).

(** [async function fetchFinnhubFinancials(ticker, apiKey)] *)
Definition fetchFinnhubFinancials (ticker apiKey : string)
  : Outcome FinnhubFinancialsResponse :=
  res ← fetch_financials ticker apiKey;
  if negb (Http.ok res)
  then Threw ("Finnhub financials HTTP " +:+ pretty (Http.status res))
  else Http.json res.

(** [async function fetchFinnhubMultiples(ticker, apiKey)] *)
Definition fetchFinnhubMultiples (ticker apiKey : string) : Outcome Multiples :=
  res ← fetch_metric ticker apiKey;
  if negb (Http.ok res)
  then Threw ("Finnhub metric HTTP " +:+ pretty (Http.status res))
  else
    j ← Http.json res;
    let pe := peTTM j in
    let ps := psTTM j in
    Resolved {| pe := asNum pe; ps := asNum ps |}.
End Fetch.

(** One turn of the loop that fills [byYear]. *)
Definition group (byYear : gmap Z (list Report)) (r : Report) : gmap Z (list Report) :=
  match r_year r with
  | None => byYear
  | Some year =>
      if negb (String.eqb (period r) "FY") then byYear
      else <[year := default [] (byYear !! year) ++ [r]]> byYear
  end.

(** [const pickValue = (arr, conceptName) => ...] *)
Definition pickValue (arr : list Item) (conceptName : string) : option number :=
  let hit := List.find (fun x => bool_decide (concept x = Some conceptName)) arr in
  let v := x ← hit; value x in
  asNum v.

(** The row pushed for the year [y]. *)
Definition finnhub_row (byYear : gmap Z (list Report)) (y : Z) : Row :=
  let r := l ← byYear !! y; head l in
  let isArr := default [] (ic <$> r) in
  let cfArr := default [] (cf <$> r) in
  let revenue := pickValue isArr "us-gaap_Revenues" in
  let opIncome := pickValue isArr "us-gaap_OperatingIncomeLoss" in
  let cfo := pickValue cfArr "us-gaap_NetCashProvidedByUsedInOperatingActivities" in
  let capex := pickValue cfArr "us-gaap_PaymentsToAcquirePropertyPlantAndEquipment" in
  let fcf :=
    match asNum cfo, asNum capex with
    | Some a, Some b => Some (sub a (Math_abs b))
    | _, _ => None
    end in
  {| year := y;
     revenue := revenue;
     opIncome := opIncome;
     fcf := fcf;
     meta := Some {| revenue_source := if isNum revenue then "finnhub" else "none";
                     opIncome_source := if isNum opIncome then "finnhub" else "none";
                     fcf_source := if isNum fcf then "finnhub" else "none" |} |}.

(** [function parseFinnhubAnnualFY(data)] *)
Definition parseFinnhubAnnualFY (data : FinnhubFinancialsResponse) : Parsed :=
  let reports := data in
  let byYear := foldl group ∅ reports in
  let years := sort_by id (fst <$> map_to_list byYear) in
  let rows := finnhub_row byYear <$> slice_last3 years in
  {| parsed_rows := rows; parsed_coverage := coverage_of rows |}.

End Finnhub.

(** *** The route with its providers in place *)

Module Route.
Import Financials.

Section Assembled.
Variable toUpperTicker : string -> string.
Variable toUpperCase : string -> string.
Variable localeCompare : string -> string -> Z.
Variable SEC_USER_AGENT FINNHUB_API_KEY : string.
Variable fetch_ticker_map : string -> Outcome (Http.Reply (list Sec.SecTickerRow)).
Variable fetch_company_facts :
  string -> string -> Outcome (Http.Reply Sec.SecCompanyFacts).
Variable fetch_financials :
  string -> string -> Outcome (Http.Reply Finnhub.FinnhubFinancialsResponse).
Variable fetch_metric : string -> string -> Outcome (Http.Reply Finnhub.Metric).

(** [GET] of the financials route, calling its own fetchers and extractors,
    in a process whose SEC cache is [mem]: [now] is the time at which
    [fetchSecTickerMap] reads the clock and [now'] the time at which
    [fetchSecCompanyFacts] does; the company facts are looked up in the
    cache the ticker map call left. *)
Definition financials (now now' : Z) (mem : Sec.SecCache) (tickerRaw : option string)
  : HttpResponse FinancialsPayload :=
  let map_call userAgent :=
    Sec.fetchSecTickerMap toUpperCase fetch_ticker_map now userAgent mem in
  Financials.GET toUpperTicker
    (fun facts => parsed_rows (Sec.buildRowsFromSEC localeCompare facts))
    (fun data => parsed_rows (Finnhub.parseFinnhubAnnualFY data))
    SEC_USER_AGENT FINNHUB_API_KEY
    (fun userAgent => (map_call userAgent).1)
    (fun cik10 userAgent =>
       (Sec.fetchSecCompanyFacts fetch_company_facts now' cik10 userAgent
          (map_call userAgent).2).1)
    (Finnhub.fetchFinnhubFinancials fetch_financials)
    (Finnhub.fetchFinnhubMultiples fetch_metric)
    tickerRaw.
End Assembled.

End Route.

(** ** The banner route: recommendations for a list of tickers

    [src/app/api/banner-recos/route.ts] asks the recommendation route for
    each ticker of a comma-separated list. *)

Module BannerRecos.
Import Stdlib.Strings.Ascii Financials.

(** [function uniq(arr)]: [Array.from(new Set(arr))], the elements in the
    order of their first occurrence. *)
Definition uniq (arr : list string) : list string :=
  foldl (fun seen x => if bool_decide (x ∈ seen) then seen else seen ++ [x]) [] arr.

(** [s.split(",")] *)
Fixpoint split_comma (s : string) : list string :=
  match s with
  | EmptyString => [EmptyString]
  | String c s' =>
      if Ascii.eqb c ","%char then EmptyString :: split_comma s'
      else
        match split_comma s' with
        | [] => [String c EmptyString]
        | piece :: pieces => String c piece :: pieces
        end
  end.

(** The body of the answer: [{ generated_at_utc, count, items }], without
    the time stamp.  An item is the body of a reply of the recommendation
    route, kept as the reply it came with. *)
Record Banner := {
  count : nat;
  items : list (HttpResponse Recommendation.Response);
}.

(** [r.ok] *)
Definition reply_ok (r : HttpResponse Recommendation.Response) : bool :=
  (200 <=? status_of r) && (status_of r <=? 299).

Section Handler.
(** [(s) => decodeURIComponent(s).trim().toUpperCase()], as for
    [toUpperTicker] of the financials route. *)
Variable normalize : string -> string.
(** The network: the reply of the recommendation route for a ticker, or a
    rejected fetch (or a body that is not JSON). *)
Variable fetch_recommendation : string -> Outcome (HttpResponse Recommendation.Response).

(** The callback of [limited.map]: [null] for a failure. *)
Definition recommend_one (t : string) : option (HttpResponse Recommendation.Response) :=
  match fetch_recommendation t with
  | Threw _ => None
  | Resolved r => if negb (reply_ok r) then None else Some r
  end.

(** [export async function GET(req)] *)
Definition GET (tickersParam : option string) : HttpResponse Banner :=
  let tickersParam := default EmptyString tickersParam in
  let tickers :=
    uniq (filter (fun s => nonempty s = true) (normalize <$> split_comma tickersParam)) in
  if decide (length tickers = 0%nat) then JsonError 400 "tickers missing" None
  else
    let limited := take 50 tickers in
    let results := recommend_one <$> limited in
    let ok := omap id results in
    Json 200 {| count := length ok; items := ok |}.
End Handler.

End BannerRecos.

(** ** Vocabulary of the statements

    Predicates on doubles, the reference definitions the reconciler is
    compared with, and the concrete inputs of the examples. *)

(** Order of two elements by their sort key. *)
Definition key_le {A : Type} (key : A -> Z) (a b : A) : Prop := key a <= key b.

Module Range.

(** [lo <= x <= hi], with the comparisons of the language. *)
Definition within (lo hi x : number) : Prop :=
  leb lo x = true /\ leb x hi = true.

Definition not_nan (x : number) : Prop := x <> S754_nan.

Definition sign_bit (x : number) : bool :=
  match x with
  | S754_zero s | S754_infinity s | S754_finite s _ _ => s
  | S754_nan => false
  end.

(** A result that is not NaN, has sign [s], and is a valid double. *)
Definition signed_valid (s : bool) (x : number) : Prop :=
  x = S754_zero s \/ x = S754_infinity s \/
  exists m e, x = S754_finite s m e /\ bounded prec emax m e = true.

(** A non-negative valid double whose value [m * 2^e] is at most the
    integer [N]. *)
Definition in_range (N : Z) (x : number) : Prop :=
  x = S754_zero false \/
  exists m e, x = S754_finite false m e /\ bounded prec emax m e = true /\
              e <= 0 /\ Z.pos m <= N * 2 ^ (- e).

(** [c = mc * 2^ec] is a normal double that holds the integer [N]. *)
Definition holds_int (N : Z) (c : number) : Prop :=
  exists mc ec, c = S754_finite false mc ec /\ Zdigits2 (Z.pos mc) = 53 /\
                -1074 <= ec <= 0 /\ Z.pos mc = N * 2 ^ (- ec).

Definition is_exact (l : location) : bool :=
  match l with loc_Exact => true | _ => false end.

(** After [k] right shifts of the mantissa [M]: the record holds [M / 2^k],
    and, when the shifts started from an exact value, a flag is set only if
    a non-zero bit was shifted out. *)
Definition shr_inv (exact : bool) (M : Z) (k : Z) (mrs : shr_record) : Prop :=
  shr_m mrs = M / 2 ^ k /\
  (exact = true -> shr_r mrs || shr_s mrs = true -> M mod 2 ^ k <> 0).

(** The weight a component brings when it is used. *)
Definition weight (used : bool) (w : Z) : Z := if used then w else 0.

Definition usedWeight (s : Recommendation.Scoring) : Z :=
  weight (Recommendation.growth (Recommendation.used s)) 35 +
  weight (Recommendation.margin (Recommendation.used s)) 35 +
  weight (Recommendation.value (Recommendation.used s)) 30.

Ltac holds_int_tac :=
  eexists _, _; split; [vm_compute; reflexivity|];
  split; [reflexivity|]; split; [lia|reflexivity].

Ltac finite_const := eexists _, _, _; vm_compute; reflexivity.

End Range.

Module Reference.

(** Every field of the row is null. *)
Definition absent_fields (r : Row) : Prop :=
  revenue r = None /\ opIncome r = None /\ fcf r = None.

(** The scoring fields that do not hold the multiples themselves. *)
Definition scoring_core (s : Recommendation.Scoring) :=
  (Recommendation.revCagr s, Recommendation.opMargin s, Recommendation.fcfMargin s,
   Recommendation.fcfTrend s, Recommendation.used s,
   Recommendation.growthScore s, Recommendation.marginScore s,
   Recommendation.valueScore s, Recommendation.usedTotalWeight s,
   Recommendation.scoreNorm s, Recommendation.coverage s,
   Recommendation.penaltyFactor s, Recommendation.scoreFinal s,
   Recommendation.baseSignal s, Recommendation.lowConf s,
   Recommendation.signal s, Recommendation.confidence s).

Definition with_multiples (fin : FinancialsPayload) (m : Multiples) : FinancialsPayload :=
  {| ticker := ticker fin; source_note := source_note fin; rows := rows fin;
     multiples := Some m |}.

(** The row a provider's series holds for year [y]: the last one, should the
    year be repeated. *)
Definition row_of (l : list Row) (y : Z) : option Row :=
  last (filter (fun r => year r = y) l).

(** The three-way resolution of one field as the specification words it:
    the preferred provider's value when present and finite, else the
    fallback provider's, else unknown; with the provenance. *)
Definition resolve (preferred fallback : option number) : option number * string :=
  match asNum preferred, asNum fallback with
  | Some v, _ => (Some v, "finnhub"%string)
  | None, Some v => (Some v, "sec"%string)
  | None, None => (None, "none"%string)
  end.

Definition no_mapping_note : string := "SEC has no CIK mapping for this ticker.".

(** The payload of the soft-degradation path. *)
Definition empty_series (ticker : string) : FinancialsPayload :=
  {| ticker := ticker; source_note := Some no_mapping_note; rows := [];
     multiples := Some {| pe := None; ps := None |} |}.

(** The answer of the scoring engine when no input is usable. *)
Definition neutral_response (note : string) : Recommendation.Response :=
  {| Recommendation.r_signal := Recommendation.WATCH;
     Recommendation.r_score := ofZ 35;
     Recommendation.r_confidence := Recommendation.LOW;
     Recommendation.diagnostics_score_norm := ofZ 50;
     Recommendation.diagnostics_coverage := ofZ 0;
     Recommendation.diagnostics_penalty_factor := ratio 7 10;
     Recommendation.diagnostics_low_conf := true;
     Recommendation.diagnostics_base_signal := Recommendation.AVOID;
     Recommendation.diagnostics_note := note;
     Recommendation.used_growth := false;
     Recommendation.used_margin := false;
     Recommendation.used_value := false;
     Recommendation.used_used_total_weight := ofZ 0;
     Recommendation.breakdown_growth := ofZ 0;
     Recommendation.breakdown_margin := ofZ 0;
     Recommendation.breakdown_value := ofZ 0;
     Recommendation.breakdown_raw_total := ofZ 0;
     Recommendation.summary_revenue_cagr := None;
     Recommendation.summary_op_margin := None;
     Recommendation.summary_fcf_margin := None;
     Recommendation.summary_fcf_trend := Recommendation.NA;
     Recommendation.summary_pe := None;
     Recommendation.summary_ps := None;
     Recommendation.explain_value_pe_scored := None;
     Recommendation.explain_value_ps_scored := None;
     Recommendation.r_warnings :=
       ["No usable financial/value signals; neutral score used."%string] |}.

End Reference.

Module Samples.

(** An instance of [Math.pow] for the examples: exact for the exponent
    [1/2] of a three-row series, and never called on shorter ones. *)
Definition sqrt_pow (x y : number) : number := SFsqrt prec emax x.

Definition row (y : Z) (r o f : option number) : Row :=
  {| year := y; revenue := r; opIncome := o; fcf := f; meta := None |}.

Definition payload (rs : list Row) (m : option Multiples) : FinancialsPayload :=
  {| ticker := "ACME"; source_note := None; rows := rs; multiples := m |}.

(** Two rows without a single figure, no multiples. *)
Definition no_data : FinancialsPayload :=
  payload [row 2022 None None None; row 2023 None None None] None.

(** No rows, a price/earnings multiple only. *)
Definition value_only : FinancialsPayload :=
  payload [] (Some {| pe := Some (ofZ 18); ps := None |}).

(** Revenue -100 then 50: the earlier endpoint is negative. *)
Definition yoy_negative : FinancialsPayload :=
  payload [row 2023 (Some (ofZ 50)) None None; row 2022 (Some (ofZ (-100))) None None] None.

(** The series of the specification's end-to-end example. *)
Definition three_years : list Row :=
  [row 2021 (Some (ofZ 100)) (Some (ofZ 10)) (Some (ofZ 5));
   row 2022 (Some (ofZ 120)) (Some (ofZ 15)) (Some (ofZ 8));
   row 2023 (Some (ofZ 150)) (Some (ofZ 22)) (Some (ofZ 12))].

Definition end_to_end : FinancialsPayload :=
  payload three_years (Some {| pe := Some (ofZ 18); ps := Some (ofZ 4) |}).

(** The same series with a price/sales multiple of 45. *)
Definition high_ps : FinancialsPayload :=
  payload three_years (Some {| pe := Some (ofZ 18); ps := Some (ofZ 45) |}).

(** Preferred provider: 2023 without revenue; fallback: revenue 100. *)
Definition preferred_rows : list Row :=
  [row 2022 (Some (ofZ 90)) None None; row 2023 None (Some (ofZ 20)) None].

Definition fallback_rows : list Row :=
  [row 2023 (Some (ofZ 100)) (Some (ofZ 21)) None].

Definition merged_2023 : Row :=
  {| year := 2023; revenue := Some (ofZ 100); opIncome := Some (ofZ 20); fcf := None;
     meta := Some {| revenue_source := "sec"; opIncome_source := "finnhub";
                     fcf_source := "none" |} |}.

(** A directory that knows one ticker. *)
Definition ticker_map : gmap string string := {[ "AAPL"%string := "0000320193"%string ]}.

Definition sample_agent : string := "invest-portal (ops@example.org)".

End Samples.
(** ** Vocabulary of the provider statements *)

Module Decimal.
Import Stdlib.Strings.Ascii.

(** The characters of a string. *)
Definition chars (s : string) : list ascii := list_ascii_of_string s.

(** The number a string of decimal digits denotes, read from the left. *)
Fixpoint read_digits (acc : Z) (s : string) : Z :=
  match s with
  | EmptyString => acc
  | String c s' =>
      read_digits (10 * acc + Z.of_nat (default 0%nat (Ascii.is_nat c))) s'
  end.

Definition read_decimal (s : string) : Z := read_digits 0 s.

End Decimal.

(** A comparator that orders its arguments: the sign flips with the
    arguments and [compareFn a b <= 0] is transitive.  The result of
    [Array.prototype.sort] is specified for such comparators only. *)
Definition consistent {A : Type} (compareFn : A -> A -> Z) : Prop :=
  (forall a b, compareFn a b < 0 <-> 0 < compareFn b a) /\
  (forall a b c, compareFn a b <= 0 -> compareFn b c <= 0 -> compareFn a c <= 0).

(** [a] is kept before [b] by the comparator. *)
Definition ordered_by {A : Type} (compareFn : A -> A -> Z) (a b : A) : Prop :=
  compareFn a b <= 0.

Module SecReference.
Import Sec.

(** The array of a concept, empty when the document has none. *)
Definition series (facts : SecCompanyFacts) (concept : string) : list FactPoint :=
  default [] (facts !! concept).

(** An annual figure for the fiscal year [y]: [fp] is ["FY"], the value is a
    finite number and the year is not 0. *)
Definition annual_for (y : Z) (p : FactPoint) : Prop :=
  fp p = Some "FY"%string /\ isNum (val p) = true /\ fy p = Some y /\ y <> 0.

(** The last point of a list with the fiscal year [y]: the one whose value
    the loop of [extractAnnualByFY] leaves in the map. *)
Definition last_for (l : list FactPoint) (y : Z) : option FactPoint :=
  last (filter (fun p => fy p = Some y) l).

(** The points that passed the filter, in the order of the loop. *)
Definition annual (localeCompare : string -> string -> Z)
    (facts : SecCompanyFacts) (concept : string) : list FactPoint :=
  sort_with (by_filed localeCompare)
    (filter (fun p => annual_point p = true) (series facts concept)).

(** The four concepts [buildRowsFromSEC] reads. *)
Definition sec_concepts : list string :=
  [ "Revenues"; "OperatingIncomeLoss";
    "NetCashProvidedByUsedInOperatingActivities";
    "PaymentsToAcquirePropertyPlantAndEquipment" ]%string.

(** The document has an annual figure of some concept for the year [y]. *)
Definition reported (facts : SecCompanyFacts) (y : Z) : Prop :=
  exists concept p,
    concept ∈ sec_concepts /\ p ∈ series facts concept /\ annual_for y p.

(** The provenance tag of a field of an SEC row. *)
Definition sec_tag (x : option number) : string :=
  if isNum x then "sec" else "none".

(** A field is a finite number or null. *)
Definition finite_or_null (x : option number) : Prop :=
  match x with
  | Some v => isFinite v = true
  | None => True
  end.

End SecReference.

Module FinnhubReference.
Import Finnhub.

(** The annual reports of the fiscal year [y], in the order of the
    document: [period] is ["FY"] and the year is [y]. *)
Definition annual_reports (data : list Report) (y : Z) : list Report :=
  filter (fun r => r_year r = Some y /\ period r = "FY"%string) data.

(** The provenance tag of a field of a Finnhub row. *)
Definition finnhub_tag (x : option number) : string :=
  if isNum x then "finnhub" else "none".

End FinnhubReference.

Module CacheReference.
Import Financials Sec.

(** Whether a row of the directory sets the key [k]: it has a CIK and a
    non-empty ticker that upper-cases to [k]. *)
Definition sets_key (toUpperCase : string -> string) (k : string) (row : SecTickerRow)
  : bool :=
  match ticker row, cik_str row with
  | Some t, Some _ => nonempty t && bool_decide (toUpperCase t = k)
  | _, _ => false
  end.

(** The row of the directory that decides the entry of the key [k]: the last
    one, in the order of the document, that sets it. *)
Definition listing (toUpperCase : string -> string) (j : list SecTickerRow) (k : string)
  : option SecTickerRow :=
  last (filter (fun row => sets_key toUpperCase k row = true) j).

(** The time the cache holds the company facts of a CIK from. *)
Definition facts_stamp (mem : SecCache) (cik10 : string) : option Z :=
  fst <$> companyFacts mem !! cik10.

End CacheReference.

Module RouteReference.
Import SecReference.

(** Every figure of the row is a finite number or null. *)
Definition finite_row (r : Row) : Prop :=
  finite_or_null (revenue r) /\ finite_or_null (opIncome r) /\ finite_or_null (fcf r).

Definition finite_multiples (m : Multiples) : Prop :=
  finite_or_null (pe m) /\ finite_or_null (ps m).

(** The row names a provenance for each field, ["none"] exactly for the
    fields that are null. *)
Definition sourced_row (r : Row) : Prop :=
  exists mt, meta r = Some mt /\
    (revenue_source mt = "none"%string <-> revenue r = None) /\
    (opIncome_source mt = "none"%string <-> opIncome r = None) /\
    (fcf_source mt = "none"%string <-> fcf r = None).

(** A row as [buildRowsFromSEC] makes them: finite or null figures, each
    tagged ["sec"] or ["none"]. *)
Definition sec_normal (r : Row) : Prop :=
  finite_row r /\
  meta r = Some {| revenue_source := sec_tag (revenue r);
                   opIncome_source := sec_tag (opIncome r);
                   fcf_source := sec_tag (fcf r) |}.

(** The note of an answer made of SEC figures only. *)
Definition sec_only_note : string :=
  "Income/CF: SEC source (Finnhub unavailable). FCF is computed as CFO - abs(Capex). Some fields may be unavailable depending on filing / tags.".


End RouteReference.

Module EngineReference.
Import Recommendation.

#[global] Instance number_eq_dec : EqDecision number.
Proof. solve_decision. Defined.

#[global] Instance Confidence_eq_dec : EqDecision Confidence.
Proof. solve_decision. Defined.

(** The used total weights that can occur. *)
Definition weights : list Z := [0; 30; 35; 65; 70; 100].

(** [n * (0.7 + 0.3 * w / 100)] rounded to the nearest integer, halves
    up, in exact arithmetic. *)
Definition exact_final (n w : Z) : Z := (n * (700 + 3 * w) + 500) / 1000.

(** The pairs (normalized score, used weight) for which the exact product
    ends in one half while the product of the doubles falls just below. *)
Definition half_cases : list (Z * Z) := [(45, 0); (85, 0); (50, 30); (50, 70)].

(** The final score for a normalized score [n] and a used weight [w]. *)
Definition final_of (n w : Z) : Z :=
  exact_final n w - (if bool_decide ((n, w) ∈ half_cases) then 1 else 0).

(** The signal of an integer score. *)
Definition band (k : Z) : Signal :=
  if 70 <=? k then BUY else if 55 <=? k then WATCH else if 40 <=? k then HOLD else AVOID.

(** The penalty factor for the used weight [w]. *)
Definition penalty_of (w : Z) : number :=
  add (ratio 7 10) (mul (ratio 3 10) (div (ofZ w) (ofZ 100))).

(** The warning about the coverage, by used weight. *)
Definition coverage_warning (w : Z) : list string :=
  if w =? 0 then ["No usable financial/value signals; neutral score used."%string]
  else if w <? 35 then ["Very low coverage; treat as WATCH (not a strong call)."%string]
  else if w <? 60 then ["Low coverage; treat as WATCH (not a strong call)."%string]
  else [].

End EngineReference.

Module PipelineReference.

(** The payload with its rows replaced. *)
Definition with_rows (fin : FinancialsPayload) (rows' : list Row) : FinancialsPayload :=
  {| ticker := ticker fin; source_note := source_note fin; rows := rows';
     multiples := multiples fin |}.

(** Rows in strictly increasing order of year. *)
Definition year_lt (a b : Row) : Prop := year a < year b.

(** An absent value, or one that is not above 0. *)
Definition at_most_zero (x : option number) : Prop :=
  match x with
  | Some v => leb v (ofZ 0) = true
  | None => True
  end.

End PipelineReference.

Module TrendReference.

(** Two rows of the same year whose free cash flows have the same
    magnitude. *)
Definition same_magnitude (r r' : Row) : Prop :=
  year r' = year r /\ Math_abs <$> fcf r' = Math_abs <$> fcf r.

(** The row before the last one. *)
Definition previous (rows : list Row) : option Row :=
  if decide (2 <= length rows)%nat then rows !! (length rows - 2)%nat else None.

(** The pair of magnitudes [trend] is called with, read off the free cash
    flows of the previous and of the latest row. *)
Definition magnitudes (x y : option number) : option (number * number) :=
  a ← asNum x; b ← asNum y;
  if neqb a (ofZ 0) then Some (Math_abs a, Math_abs b) else None.

End TrendReference.

Module ProviderSamples.
Import Stdlib.Strings.Ascii Financials Sec Finnhub.

(** The order of the code units, which is how [localeCompare] orders
    dates written as year-month-day. *)
Definition code_unit_compare (a b : string) : Z :=
  match String.compare a b with
  | Lt => -1
  | Eq => 0
  | Gt => 1
  end.

(** Upper-casing of the letters a to z. *)
Definition upper_char (c : ascii) : ascii :=
  let n := nat_of_ascii c in
  if (97 <=? n)%nat && (n <=? 122)%nat then ascii_of_nat (n - 32) else c.

Fixpoint ascii_upper (s : string) : string :=
  match s with
  | EmptyString => EmptyString
  | String c s' => String (upper_char c) (ascii_upper s')
  end.

Definition point (y : Z) (period filed_on : string) (v : Z) : FactPoint :=
  {| fy := Some y; fp := Some period; filed := Some filed_on; val := Some (ofZ v) |}.

(** A company-facts document: the revenue of 2022 was filed twice (100,
    then restated to 110), with one quarterly point; cash flow and capital
    expenditure are reported for 2023 only. *)
Definition sample_facts : SecCompanyFacts :=
  {[ "Revenues"%string :=
       [ point 2022 "FY" "2024-02-01" 110; point 2022 "FY" "2023-02-01" 100;
         point 2022 "Q1" "2022-05-01" 25; point 2023 "FY" "2024-02-01" 130 ];
     "NetCashProvidedByUsedInOperatingActivities"%string :=
       [ point 2023 "FY" "2024-02-01" 40 ];
     "PaymentsToAcquirePropertyPlantAndEquipment"%string :=
       [ point 2023 "FY" "2024-02-01" (-15) ] ]}.

(** The rows [buildRowsFromSEC] makes of it. *)
Definition sample_sec_rows : list Row :=
  [ {| year := 2022; revenue := Some (ofZ 110); opIncome := None; fcf := None;
       meta := Some {| revenue_source := "sec"; opIncome_source := "none";
                       fcf_source := "none" |} |};
    {| year := 2023; revenue := Some (ofZ 130); opIncome := None;
       fcf := Some (ofZ 25);
       meta := Some {| revenue_source := "sec"; opIncome_source := "none";
                       fcf_source := "sec" |} |} ].

(** A ticker directory of two rows, the second without a CIK. *)
Definition sample_directory : list SecTickerRow :=
  [ {| cik_str := Some (CikNumber 320193); ticker := Some "aapl"%string |};
    {| cik_str := None; ticker := Some "NOCIK"%string |} ].

Definition sample_map : gmap string string :=
  {[ "AAPL"%string := "0000320193"%string ]}.

(** A reply with status 200 and the given body, and a failed request. *)
Definition online {A : Type} (body : A) : Outcome (Http.Reply A) :=
  Resolved {| Http.status := 200; Http.json := Resolved body |}.

Definition offline {A : Type} : Outcome (Http.Reply A) := Threw "fetch failed".

(** Three days and eight days, in milliseconds. *)
Definition three_days : Z := 3 * 24 * 3600 * 1000.
Definition two_hours : Z := 2 * 3600 * 1000.

(** A Finnhub document with two annual reports for 2023 and one quarterly
    report. *)
Definition item (name : string) (v : Z) : Item :=
  {| concept := Some name; value := Some (ofZ v) |}.

Definition sample_reports : FinnhubFinancialsResponse :=
  [ {| r_year := Some 2023; period := "FY";
       ic := [item "us-gaap_Revenues" 131; item "us-gaap_OperatingIncomeLoss" 30];
       cf := [] |};
    {| r_year := Some 2023; period := "FY";
       ic := [item "us-gaap_Revenues" 999]; cf := [] |};
    {| r_year := Some 2023; period := "Q2";
       ic := [item "us-gaap_Revenues" 33]; cf := [] |} ].

(** Two loss-making years. *)
Definition losses : FinancialsPayload :=
  Samples.payload
    [ Samples.row 2022 (Some (ofZ 100)) (Some (ofZ (-5))) (Some (ofZ (-2)));
      Samples.row 2023 (Some (ofZ 120)) (Some (ofZ (-10))) (Some (ofZ (-3))) ]
    None.

(** The free cash flow goes from 8 to -8. *)
Definition swing : FinancialsPayload :=
  Samples.payload
    [ Samples.row 2022 (Some (ofZ 100)) None (Some (ofZ 8));
      Samples.row 2023 (Some (ofZ 120)) None (Some (ofZ (-8))) ]
    None.

End ProviderSamples.

(** * Proofs *)

(** ** The stable sort *)

Module SortFacts.
Section Facts.
Context {A : Type} (key : A -> Z).

Lemma insert_sorted_perm x l : insert_sorted key x l ≡ₚ x :: l.
Proof.
  induction l as [|y l IH]; cbn; [reflexivity|].
  destruct (key x <=? key y); [reflexivity|].
  rewrite IH. apply Permutation_swap.
Qed.

Lemma sort_by_perm l : sort_by key l ≡ₚ l.
Proof.
  induction l as [|x l IH]; cbn; [reflexivity|].
  rewrite insert_sorted_perm. rewrite IH. reflexivity.
Qed.

Lemma sort_by_length l : length (sort_by key l) = length l.
Proof. apply Permutation_length, sort_by_perm. Qed.

Lemma sort_by_Forall (P : A -> Prop) l : Forall P l -> Forall P (sort_by key l).
Proof. intros H. rewrite sort_by_perm. exact H. Qed.

Lemma insert_sorted_sorted x l :
  StronglySorted (key_le key) l -> StronglySorted (key_le key) (insert_sorted key x l).
Proof.
  induction 1 as [|y l Hs IH Hall]; cbn.
  - repeat constructor.
  - destruct (Z.leb_spec (key x) (key y)) as [Hle|Hgt].
    + constructor; [constructor; assumption|].
      constructor; [exact Hle|].
      eapply Forall_impl; [exact Hall|]. unfold key_le. intros z Hz. lia.
    + constructor; [exact IH|].
      rewrite insert_sorted_perm. constructor; [unfold key_le; lia|exact Hall].
Qed.

Lemma sort_by_sorted l : StronglySorted (key_le key) (sort_by key l).
Proof.
  induction l as [|x l IH]; cbn; [constructor|].
  apply insert_sorted_sorted. exact IH.
Qed.
End Facts.
End SortFacts.

(** ** Facts about binary64 arithmetic

    What the proofs below need of [SpecFloat]'s rounding: its results are
    valid doubles, rounding is monotone against small integers, and the
    comparisons agree with the values. *)

Module Binary64.
Import Range.

Lemma fexp_eq e : fexp prec emax e = Z.max (e - 53) (-1074).
Proof. reflexivity. Qed.

Lemma digits2_pos_log2 (p : positive) : Z.pos (digits2_pos p) = Z.log2 (Z.pos p) + 1.
Proof.
  induction p as [p IH|p IH|]; cbn [digits2_pos]; try reflexivity.
  - rewrite Pos2Z.inj_succ, IH. change (Z.pos p~1) with (2 * Z.pos p + 1).
    rewrite Z.log2_succ_double by lia. lia.
  - rewrite Pos2Z.inj_succ, IH. change (Z.pos p~0) with (2 * Z.pos p).
    rewrite Z.log2_double by lia. lia.
Qed.

Lemma Zdigits2_log2 m : 0 < m -> Zdigits2 m = Z.log2 m + 1.
Proof. destruct m as [|p|p]; try lia. intros _. apply digits2_pos_log2. Qed.

Lemma Zdigits2_nonneg m : 0 <= Zdigits2 m.
Proof. destruct m; cbn; lia. Qed.

Lemma Zdigits2_bounds m : 0 < m -> 2 ^ (Zdigits2 m - 1) <= m < 2 ^ Zdigits2 m.
Proof.
  intros Hm. rewrite Zdigits2_log2 by assumption.
  replace (Z.log2 m + 1 - 1) with (Z.log2 m) by lia.
  apply Z.log2_spec; assumption.
Qed.

Lemma Zdigits2_le a b : 0 <= a <= b -> Zdigits2 a <= Zdigits2 b.
Proof.
  intros [Ha Hab]. destruct (Z.eq_dec a 0) as [->|Hne].
  - apply Zdigits2_nonneg.
  - rewrite !Zdigits2_log2 by lia. pose proof (Z.log2_le_mono a b Hab). lia.
Qed.

Lemma Zdigits2_lt_pow m k : 0 <= k -> 0 <= m < 2 ^ k -> Zdigits2 m <= k.
Proof.
  intros Hk [Hm Hlt]. destruct (Z.eq_dec m 0) as [->|Hne]; [cbn; lia|].
  rewrite Zdigits2_log2 by lia.
  assert (Z.log2 m < k) by (apply Z.log2_lt_pow2; lia). lia.
Qed.

Lemma Zdigits2_ge_pow m k : 0 <= k -> 2 ^ k <= m -> k + 1 <= Zdigits2 m.
Proof.
  intros Hk Hle. assert (0 < m) by (pose proof (Z.pow_pos_nonneg 2 k); lia).
  rewrite Zdigits2_log2 by lia.
  assert (k <= Z.log2 m) by (apply Z.log2_le_pow2; lia). lia.
Qed.

(** Digits of a truncated mantissa. *)
Lemma Zdigits2_div_pow2 m n :
  0 < m -> 0 <= n -> 0 < m / 2 ^ n -> Zdigits2 (m / 2 ^ n) = Zdigits2 m - n.
Proof.
  intros Hm Hn Hq. rewrite !Zdigits2_log2 by lia.
  rewrite <- Z.shiftr_div_pow2 in * by lia.
  rewrite Z.log2_shiftr by lia.
  destruct (Z.le_gt_cases n (Z.log2 m)) as [Hle|Hgt]; [lia|].
  rewrite Z.shiftr_eq_0 in Hq by lia. lia.
Qed.

(** [iter_pos] keeps an invariant that is indexed by the number of steps. *)
Lemma iter_pos_ind {A} (f : A -> A) (P : Z -> A -> Prop) :
  (forall k x, 0 <= k -> P k x -> P (k + 1) (f x)) ->
  forall n k x, 0 <= k -> P k x -> P (k + Z.pos n) (SpecFloat.iter_pos f n x).
Proof.
  intros Hstep. induction n as [n IH|n IH|]; intros k x Hk HP; cbn [SpecFloat.iter_pos].
  - replace (k + Z.pos n~1) with (k + 1 + Z.pos n + Z.pos n) by lia.
    apply IH; [lia|]. apply IH; [lia|]. apply Hstep; assumption.
  - replace (k + Z.pos n~0) with (k + Z.pos n + Z.pos n) by lia.
    apply IH; [lia|]. apply IH; assumption.
  - apply Hstep; assumption.
Qed.

Lemma shr_1_halves mrs : 0 <= shr_m mrs -> shr_m (shr_1 mrs) = shr_m mrs / 2.
Proof.
  destruct mrs as [m r s]. cbn [shr_m]. intros Hm.
  destruct m as [|[p|p|]|p]; try lia; cbn [shr_1 shr_m]; try reflexivity.
  - change (Z.pos p~1) with (2 * Z.pos p + 1).
    apply Z.div_unique with 1; lia.
  - change (Z.pos p~0) with (2 * Z.pos p).
    apply Z.div_unique with 0; lia.
Qed.

Lemma shr_1_flag mrs :
  0 <= shr_m mrs ->
  shr_r (shr_1 mrs) || shr_s (shr_1 mrs) = true ->
  shr_m mrs mod 2 <> 0 \/ shr_r mrs || shr_s mrs = true.
Proof.
  destruct mrs as [m r s]. cbn [shr_m shr_r shr_s]. intros Hm.
  destruct m as [|[p|p|]|p]; try lia; cbn [shr_1 shr_r shr_s]; intros H.
  - right. exact H.
  - left. change (Z.pos p~1) with (2 * Z.pos p + 1).
    rewrite Z.add_comm, Z.mul_comm, Z.mod_add by lia. discriminate.
  - right. exact H.
  - left. discriminate.
Qed.

Lemma shr_inv_step exact M k mrs :
  0 <= M -> 0 <= k -> shr_inv exact M k mrs -> shr_inv exact M (k + 1) (shr_1 mrs).
Proof.
  intros HM Hk [Hm Hf].
  assert (H2k : 0 < 2 ^ k) by (apply Z.pow_pos_nonneg; lia).
  assert (Hm0 : 0 <= shr_m mrs) by (rewrite Hm; apply Z.div_pos; lia).
  assert (Hpow : 2 ^ (k + 1) = 2 ^ k * 2) by (rewrite Z.pow_add_r by lia; reflexivity).
  split.
  - rewrite shr_1_halves by assumption. rewrite Hm, Hpow.
    rewrite Z.div_div by lia. reflexivity.
  - intros Hex Hflag. apply shr_1_flag in Hflag; [|assumption].
    rewrite Hpow. rewrite Z.rem_mul_r by lia.
    destruct Hflag as [Hodd|Hold].
    + rewrite Hm in Hodd.
      pose proof (Z.mod_pos_bound M (2 ^ k) H2k).
      pose proof (Z.mod_pos_bound (M / 2 ^ k) 2 ltac:(lia)). nia.
    + specialize (Hf Hex Hold).
      pose proof (Z.mod_pos_bound M (2 ^ k) H2k).
      pose proof (Z.mod_pos_bound (M / 2 ^ k) 2 ltac:(lia)). nia.
Qed.

Lemma shr_inv_iter exact M n mrs :
  0 <= M -> shr_inv exact M 0 mrs ->
  shr_inv exact M (Z.pos n) (SpecFloat.iter_pos shr_1 n mrs).
Proof.
  intros HM H0. change (Z.pos n) with (0 + Z.pos n).
  apply (iter_pos_ind shr_1 (shr_inv exact M)); [|lia|assumption].
  intros k x Hk. apply shr_inv_step; assumption.
Qed.

Lemma shr_spec m l e n :
  0 <= m -> 0 <= n ->
  snd (shr (shr_record_of_loc m l) e n) = e + n /\
  shr_inv (is_exact l) m n (fst (shr (shr_record_of_loc m l) e n)).
Proof.
  intros Hm Hn.
  assert (H0 : shr_inv (is_exact l) m 0 (shr_record_of_loc m l)).
  { split.
    - rewrite Z.div_1_r. destruct l as [|[]]; reflexivity.
    - destruct l as [|[]]; cbn; congruence. }
  destruct n as [|p|p]; [| |lia]; cbn [shr fst snd].
  - split; [lia|exact H0].
  - split; [reflexivity|]. apply shr_inv_iter; assumption.
Qed.

(** The first conjuncts describe the truncation, the last two say that the
    truncated mantissa is canonical at the new exponent. *)
Lemma shr_fexp_spec m e l :
  0 <= m -> e <= fexp prec emax (Zdigits2 m + e) ->
  let r := shr_fexp prec emax m e l in
  snd r = fexp prec emax (Zdigits2 m + e) /\
  shr_inv (is_exact l) m (snd r - e) (fst r) /\
  (0 < shr_m (fst r) -> fexp prec emax (Zdigits2 (shr_m (fst r)) + snd r) = snd r) /\
  (shr_m (fst r) = 0 -> snd r = -1074).
Proof.
  intros Hm He r. subst r. unfold shr_fexp.
  set (n := fexp prec emax (Zdigits2 m + e) - e).
  assert (Hn : 0 <= n) by (unfold n; lia).
  destruct (shr_spec m l e n Hm Hn) as [He' Hinv].
  set (r := shr (shr_record_of_loc m l) e n) in *.
  assert (Hsnd : snd r = fexp prec emax (Zdigits2 m + e)) by (rewrite He'; unfold n; lia).
  replace (snd r - e) with n by lia.
  split; [exact Hsnd|]. split; [exact Hinv|].
  destruct Hinv as [Hq _].
  assert (H2n : 0 < 2 ^ n) by (apply Z.pow_pos_nonneg; lia).
  split.
  - intros Hpos. rewrite Hq in *.
    assert (0 < m).
    { destruct (Z.eq_dec m 0) as [->|]; [|lia]. rewrite Z.div_0_l in Hpos by lia. lia. }
    rewrite Zdigits2_div_pow2 by lia. rewrite Hsnd.
    f_equal. unfold n. lia.
  - intros Hz. rewrite Hq in Hz.
    assert (Hlt : m < 2 ^ n).
    { apply Z.div_small_iff in Hz; lia. }
    pose proof (Zdigits2_lt_pow m n Hn ltac:(lia)) as Hd.
    rewrite Hsnd. rewrite fexp_eq in *. unfold n in Hd. rewrite fexp_eq in Hd. lia.
Qed.

Lemma round_nearest_even_bounds m l :
  m <= round_nearest_even m l <= m + 1.
Proof. destruct l as [|[]]; cbn; try lia. destruct (Z.even m); lia. Qed.

Lemma round_nearest_even_up mrs :
  round_nearest_even (shr_m mrs) (loc_of_shr_record mrs) <> shr_m mrs ->
  shr_r mrs || shr_s mrs = true.
Proof. destruct mrs as [m [] []]; cbn; congruence. Qed.

(** What [binary_round_aux] computes: truncate to [m1] at exponent [e1],
    round to [m2], and renormalize to [m3] at [e3] if rounding carried. *)
Lemma binary_round_aux_spec s m e l :
  0 <= m -> e <= fexp prec emax (Zdigits2 m + e) ->
  exists m2 m3 e1 e3,
    binary_round_aux prec emax s m e l =
      match m3 with
      | Z0 => S754_zero s
      | Zpos p => if e3 <=? 971 then S754_finite s p e3 else S754_infinity s
      | Zneg _ => S754_nan
      end /\
    e1 = fexp prec emax (Zdigits2 m + e) /\
    m / 2 ^ (e1 - e) <= m2 <= m / 2 ^ (e1 - e) + 1 /\
    (l = loc_Exact -> m2 <> m / 2 ^ (e1 - e) -> m mod 2 ^ (e1 - e) <> 0) /\
    e3 = fexp prec emax (Zdigits2 m2 + e1) /\
    e1 <= e3 /\
    m3 = m2 / 2 ^ (e3 - e1) /\
    (0 < m3 -> fexp prec emax (Zdigits2 m3 + e3) = e3).
Proof.
  intros Hm He. unfold binary_round_aux.
  pose proof (shr_fexp_spec m e l Hm He) as H1. cbv zeta in H1.
  destruct (shr_fexp prec emax m e l) as [mrs1 e1]. cbn [fst snd] in H1.
  destruct H1 as (He1 & [Hm1 Hfl1] & Hcan1 & Hz1).
  set (m2 := round_nearest_even (shr_m mrs1) (loc_of_shr_record mrs1)).
  pose proof (round_nearest_even_bounds (shr_m mrs1) (loc_of_shr_record mrs1)) as Hb2.
  fold m2 in Hb2.
  assert (H2n : 0 < 2 ^ (e1 - e)) by (apply Z.pow_pos_nonneg; lia).
  assert (Hm1pos : 0 <= shr_m mrs1) by (rewrite Hm1; apply Z.div_pos; lia).
  assert (Hm2 : 0 <= m2) by lia.
  assert (He2 : e1 <= fexp prec emax (Zdigits2 m2 + e1)).
  { destruct (Z.eq_dec (shr_m mrs1) 0) as [Hz|Hnz].
    - rewrite (Hz1 Hz). rewrite fexp_eq. lia.
    - rewrite <- (Hcan1 ltac:(lia)) at 1.
      pose proof (Zdigits2_le (shr_m mrs1) m2 ltac:(lia)).
      rewrite !fexp_eq. lia. }
  pose proof (shr_fexp_spec m2 e1 loc_Exact Hm2 He2) as H2. cbv zeta in H2.
  destruct (shr_fexp prec emax m2 e1 loc_Exact) as [mrs3 e3]. cbn [fst snd] in H2.
  destruct H2 as (He3 & [Hm3 _] & Hcan3 & _).
  exists m2, (shr_m mrs3), e1, e3.
  split; [reflexivity|].
  split; [exact He1|].
  split; [rewrite <- Hm1; exact Hb2|].
  split.
  { intros -> Hne. apply Hfl1; [reflexivity|].
    apply round_nearest_even_up. fold m2. rewrite Hm1. exact Hne. }
  split; [exact He3|].
  split; [lia|].
  split; [exact Hm3|exact Hcan3].
Qed.

Lemma bounded_intro (m : positive) e :
  fexp prec emax (Zdigits2 (Z.pos m) + e) = e -> e <= 971 ->
  bounded prec emax m e = true.
Proof.
  intros Hc He. unfold bounded, canonical_mantissa.
  apply andb_true_intro. split.
  - apply Z.eqb_eq. exact Hc.
  - apply Z.leb_le. exact He.
Qed.

Lemma bounded_elim (m : positive) e :
  bounded prec emax m e = true ->
  fexp prec emax (Zdigits2 (Z.pos m) + e) = e /\ e <= 971.
Proof.
  unfold bounded, canonical_mantissa. intros H.
  apply andb_prop in H. destruct H as [Hc He].
  apply Z.eqb_eq in Hc. apply Z.leb_le in He. split; [exact Hc|exact He].
Qed.

Lemma binary_round_aux_valid s m e l :
  0 <= m -> e <= fexp prec emax (Zdigits2 m + e) ->
  signed_valid s (binary_round_aux prec emax s m e l).
Proof.
  intros Hm He.
  destruct (binary_round_aux_spec s m e l Hm He)
    as (m2 & m3 & e1 & e3 & -> & He1 & Hm2 & _ & He3 & Hle & Hm3 & Hcan).
  assert (0 < 2 ^ (e1 - e)) by (apply Z.pow_pos_nonneg; lia).
  assert (0 <= m / 2 ^ (e1 - e)) by (apply Z.div_pos; lia).
  assert (0 < 2 ^ (e3 - e1)) by (apply Z.pow_pos_nonneg; lia).
  assert (0 <= m3) by (rewrite Hm3; apply Z.div_pos; lia).
  destruct m3 as [|p|p]; [left; reflexivity| |lia].
  destruct (Z.leb_spec e3 971); [|right; left; reflexivity].
  right; right. exists p, e3. split; [reflexivity|].
  apply bounded_intro; [apply Hcan; lia|assumption].
Qed.

(** Rounding is monotone: an exact value below a small integer is rounded
    to a double below that integer. *)
Lemma binary_round_aux_bound N m e :
  0 < N < 2 ^ 53 -> 0 <= m -> e <= 0 ->
  e <= fexp prec emax (Zdigits2 m + e) ->
  m <= N * 2 ^ (- e) ->
  in_range N (binary_round_aux prec emax false m e loc_Exact).
Proof.
  intros HN Hm He0 He Hb.
  destruct (binary_round_aux_spec false m e loc_Exact Hm He)
    as (m2 & m3 & e1 & e3 & -> & He1 & Hm2 & Hex & He3 & Hle & Hm3 & Hcan).
  specialize (Hex eq_refl).
  assert (Hpe : 0 < 2 ^ (- e)) by (apply Z.pow_pos_nonneg; lia).
(* the first exponent is not positive *)
assert (Hd : Zdigits2 m <= 53 - e).
{ apply Zdigits2_lt_pow; [lia|]. split; [lia|].
  replace (53 - e) with (53 + - e) by lia. rewrite Z.pow_add_r by lia. nia. }
assert (He1' : e <= e1 <= 0) by (rewrite He1, fexp_eq in *; lia).
set (n1 := e1 - e) in *.
assert (Hn1 : 0 < 2 ^ n1) by (apply Z.pow_pos_nonneg; lia).
assert (Hpe1 : 0 < 2 ^ (- e1)) by (apply Z.pow_pos_nonneg; lia).
assert (Hsplit : 2 ^ (- e) = 2 ^ (- e1) * 2 ^ n1).
{ rewrite <- Z.pow_add_r by lia. f_equal. lia. }
(* the rounded mantissa stays below the bound *)
assert (Hb2 : m2 <= N * 2 ^ (- e1)).
{ pose proof (Z.div_mod m (2 ^ n1) ltac:(lia)) as Hdm.
  pose proof (Z.mod_pos_bound m (2 ^ n1) Hn1) as Hmod.
  destruct (Z.eq_dec m2 (m / 2 ^ n1)) as [->|Hne].
  - rewrite Hsplit in Hb. nia.
  - specialize (Hex Hne). rewrite Hsplit in Hb.
    assert (m2 = m / 2 ^ n1 + 1) by lia. subst m2. nia. }
assert (Hm2pos : 0 <= m2).
{ assert (0 <= m / 2 ^ n1) by (apply Z.div_pos; lia). lia. }
assert (Hd2 : Zdigits2 m2 <= 53 - e1).
{ apply Zdigits2_lt_pow; [lia|]. split; [lia|].
  replace (53 - e1) with (53 + - e1) by lia. rewrite Z.pow_add_r by lia. nia. }
assert (He3' : e1 <= e3 <= 0) by (rewrite He3, fexp_eq in *; lia).
set (n2 := e3 - e1) in *.
assert (Hn2 : 0 < 2 ^ n2) by (apply Z.pow_pos_nonneg; lia).
assert (Hpe3 : 0 < 2 ^ (- e3)) by (apply Z.pow_pos_nonneg; lia).
assert (Hsplit3 : 2 ^ (- e1) = 2 ^ (- e3) * 2 ^ n2).
{ rewrite <- Z.pow_add_r by lia. f_equal. lia. }
assert (Hb3 : m3 <= N * 2 ^ (- e3)).
{ pose proof (Z.div_mod m2 (2 ^ n2) ltac:(lia)) as Hdm.
  pose proof (Z.mod_pos_bound m2 (2 ^ n2) Hn2) as Hmod.
  rewrite Hsplit3 in Hb2. rewrite Hm3. nia. }
assert (Hm3pos : 0 <= m3) by (rewrite Hm3; apply Z.div_pos; lia).
destruct m3 as [|p|p]; [left; reflexivity| |lia].
destruct (Z.leb_spec e3 971); [|lia].
right. exists p, e3. split; [reflexivity|].
split; [apply bounded_intro; [apply Hcan; lia|lia]|].
split; [lia|exact Hb3].
Qed.

Lemma in_range_mono N N' x : N <= N' -> in_range N x -> in_range N' x.
Proof.
  intros HN [->|(m & e & -> & Hb & He & Hle)]; [left; reflexivity|].
  right. exists m, e. repeat split; try assumption.
  assert (0 < 2 ^ (- e)) by (apply Z.pow_pos_nonneg; lia). nia.
Qed.

Lemma in_range_0 x : in_range 0 x -> x = S754_zero false.
Proof. intros [->|(m & e & _ & _ & _ & Hle)]; [reflexivity|lia]. Qed.

Lemma shl_align_spec mx ex ex' :
  snd (shl_align mx ex ex') = Z.min ex ex' /\
  Z.pos (fst (shl_align mx ex ex')) = Z.pos mx * 2 ^ (ex - Z.min ex ex').
Proof.
  unfold shl_align. destruct (ex' - ex) as [|d|d] eqn:Hd; cbn [fst snd].
  - replace (Z.min ex ex') with ex by lia. rewrite Z.sub_diag. cbn. lia.
  - replace (Z.min ex ex') with ex by lia. rewrite Z.sub_diag. cbn. lia.
  - replace (Z.min ex ex') with ex' by lia. split; [reflexivity|].
    replace (ex - ex') with (Z.pos d) by lia.
    change (Pos.iter xO mx d) with (shift_pos d mx).
    rewrite shift_pos_correct. change (Z.pow_pos 2 d) with (2 ^ Z.pos d). lia.
Qed.

Lemma Zdigits2_mul_pow2 m k : 0 < m -> 0 <= k -> Zdigits2 (m * 2 ^ k) = Zdigits2 m + k.
Proof.
  intros Hm Hk. assert (0 < 2 ^ k) by (apply Z.pow_pos_nonneg; lia).
  rewrite !Zdigits2_log2 by nia. rewrite Z.log2_mul_pow2 by lia. lia.
Qed.

(** [binary_round] first aligns the mantissa so that rounding can only
    truncate. *)
Lemma binary_round_aligned s (m : positive) e :
  exists (mz : positive) ez,
    binary_round prec emax s m e = binary_round_aux prec emax s (Z.pos mz) ez loc_Exact /\
    ez <= e /\ Z.pos mz = Z.pos m * 2 ^ (e - ez) /\
    ez <= fexp prec emax (Zdigits2 (Z.pos mz) + ez).
Proof.
  unfold binary_round.
  pose proof (shl_align_spec m e (fexp prec emax (Z.pos (digits2_pos m) + e))) as [H1 H2].
  destruct (shl_align m e _) as [mz ez]. cbn [fst snd] in *.
  rewrite <- H1 in H2.
  exists mz, ez. split; [reflexivity|]. split; [lia|]. split; [exact H2|].
  rewrite H2, Zdigits2_mul_pow2 by lia.
  change (Zdigits2 (Z.pos m)) with (Z.pos (digits2_pos m)).
  replace (Z.pos (digits2_pos m) + (e - ez) + ez) with (Z.pos (digits2_pos m) + e) by lia.
  lia.
Qed.

Lemma binary_round_valid s m e : signed_valid s (binary_round prec emax s m e).
Proof.
  destruct (binary_round_aligned s m e) as (mz & ez & -> & _ & _ & Hpre).
  apply binary_round_aux_valid; [lia|exact Hpre].
Qed.

Lemma binary_round_bound N m e :
  0 < N < 2 ^ 53 -> e <= 0 -> Z.pos m <= N * 2 ^ (- e) ->
  in_range N (binary_round prec emax false m e).
Proof.
  intros HN He Hb.
  destruct (binary_round_aligned false m e) as (mz & ez & -> & Hle & Hmz & Hpre).
  apply binary_round_aux_bound; try assumption; try lia.
  rewrite Hmz. replace (- ez) with (- e + (e - ez)) by lia.
  rewrite Z.pow_add_r by lia.
  assert (0 < 2 ^ (e - ez)) by (apply Z.pow_pos_nonneg; lia). nia.
Qed.

Lemma signed_valid_not_nan s x : signed_valid s x -> not_nan x.
Proof. intros [->|[->|(m & e & -> & _)]]; discriminate. Qed.

Lemma in_range_signed_valid N x : in_range N x -> signed_valid false x.
Proof.
  intros [->|(m & e & -> & Hb & _)]; [left; reflexivity|].
  right; right. exists m, e. split; [reflexivity|exact Hb].
Qed.

(** *** Multiplication by a normal constant *)

Lemma holds_int_pos N c : holds_int N c -> 0 < N < 2 ^ 53.
Proof.
  intros (mc & ec & _ & Hd & He & Hv).
  pose proof (Zdigits2_bounds (Z.pos mc) ltac:(lia)) as Hb. rewrite Hd in Hb.
  assert (0 < 2 ^ (- ec)) by (apply Z.pow_pos_nonneg; lia).
  assert (1 <= 2 ^ (- ec)) by lia.
  split; [nia|]. change (53 - 1) with 52 in Hb. nia.
Qed.

Lemma mul_in_range N x c :
  in_range 1 x -> holds_int N c -> in_range N (mul x c).
Proof.
  intros Hx Hc. pose proof (holds_int_pos N c Hc) as HN.
  destruct Hc as (mc & ec & -> & Hd & Hec & Hv).
  destruct Hx as [->|(m & e & -> & Hb & He & Hle)]; [left; reflexivity|].
  unfold mul, SFmul. cbn [xorb].
  assert (0 < 2 ^ (- e)) by (apply Z.pow_pos_nonneg; lia).
  assert (0 < 2 ^ (- ec)) by (apply Z.pow_pos_nonneg; lia).
  apply binary_round_aux_bound; try assumption; try lia.
  - pose proof (Zdigits2_bounds (Z.pos mc) ltac:(lia)) as Hmc. rewrite Hd in Hmc.
    change (53 - 1) with 52 in Hmc.
    pose proof (Zdigits2_ge_pow (Z.pos (m * mc)) 52 ltac:(lia)) as Hdig.
    rewrite Pos2Z.inj_mul in *. specialize (Hdig ltac:(nia)).
    rewrite fexp_eq. lia.
  - rewrite Pos2Z.inj_mul.
    replace (- (e + ec)) with (- e + - ec) by lia. rewrite Z.pow_add_r by lia. nia.
Qed.

(** *** Addition of non-negative doubles *)

Lemma add_in_range A B a b :
  0 <= A -> 0 <= B -> A + B < 2 ^ 53 ->
  in_range A a -> in_range B b -> in_range (A + B) (add a b).
Proof.
  intros HA HB HAB Ha Hb.
  destruct Ha as [->|(ma & ea & -> & Hba & Hea & Hla)];
    destruct Hb as [->|(mb & eb & -> & Hbb & Heb & Hlb)].
  - left. reflexivity.
  - apply in_range_mono with B; [lia|]. right. exists mb, eb. auto.
  - apply in_range_mono with A; [lia|]. right. exists ma, ea. auto.
  - unfold add, SFadd. cbn [cond_Zopp].
    set (ez := Z.min ea eb).
    pose proof (shl_align_spec ma ea ez) as [_ Ha'].
    pose proof (shl_align_spec mb eb ez) as [_ Hb'].
    replace (Z.min ea ez) with ez in Ha' by (unfold ez; lia).
    replace (Z.min eb ez) with ez in Hb' by (unfold ez; lia).
    assert (0 < 2 ^ (- ea)) by (apply Z.pow_pos_nonneg; lia).
    assert (0 < 2 ^ (- eb)) by (apply Z.pow_pos_nonneg; lia).
    assert (0 < 2 ^ (ea - ez)) by (apply Z.pow_pos_nonneg; unfold ez; lia).
    assert (0 < 2 ^ (eb - ez)) by (apply Z.pow_pos_nonneg; unfold ez; lia).
    assert (Hsa : 2 ^ (- ez) = 2 ^ (- ea) * 2 ^ (ea - ez)).
    { rewrite <- Z.pow_add_r by (unfold ez; lia). f_equal. lia. }
    assert (Hsb : 2 ^ (- ez) = 2 ^ (- eb) * 2 ^ (eb - ez)).
    { rewrite <- Z.pow_add_r by (unfold ez; lia). f_equal. lia. }
    destruct (Z.pos (fst (shl_align ma ea ez)) + Z.pos (fst (shl_align mb eb ez)))
      as [|p|p] eqn:Hsum; try lia.
    cbn [binary_normalize].
    assert (0 < A) by nia.
    apply binary_round_bound; [lia|unfold ez; lia|].
    rewrite <- Hsum, Ha', Hb'.
    rewrite Z.mul_add_distr_r. rewrite Hsa at 1. rewrite Hsb. nia.
Qed.

Lemma add_zero_l N x : in_range N x -> add (ofZ 0) x = x.
Proof. intros [->|(m & e & -> & _)]; reflexivity. Qed.

Lemma add_zero_r N x : in_range N x -> add x (ofZ 0) = x.
Proof. intros [->|(m & e & -> & _)]; reflexivity. Qed.

(** *** Subtraction and division never invent a NaN from finite inputs *)

Lemma binary_normalize_not_nan m e : not_nan (binary_normalize prec emax m e false).
Proof.
  destruct m as [|p|p]; cbn [binary_normalize]; [unfold not_nan; discriminate| |];
    eapply signed_valid_not_nan, binary_round_valid.
Qed.

Lemma sub_not_nan x y : isFinite x = true -> isFinite y = true -> not_nan (sub x y).
Proof.
  destruct x as [sx|sx| |sx mx ex], y as [sy|sy| |sy my ey]; try discriminate; intros _ _;
    unfold sub, SFsub.
  - unfold not_nan. destruct sx, sy; intros H; discriminate H.
  - apply binary_normalize_not_nan.
Qed.

Lemma div_core_spec (m1 m2 : positive) e1 e2 :
  let r := SFdiv_core_binary prec emax (Z.pos m1) e1 (Z.pos m2) e2 in
  0 <= fst (fst r) /\
  snd (fst r) <= fexp prec emax (Zdigits2 (fst (fst r)) + snd (fst r)).
Proof.
  unfold SFdiv_core_binary.
  set (d1 := Zdigits2 (Z.pos m1)). set (d2 := Zdigits2 (Z.pos m2)).
  set (e' := Z.min (fexp prec emax (d1 + e1 - (d2 + e2))) (e1 - e2)).
  set (s := e1 - e2 - e').
  assert (Hs : 0 <= s) by (unfold s, e'; lia).
  set (m' := match s with Z.pos _ => Z.shiftl (Z.pos m1) s | Z0 => Z.pos m1 | Z.neg _ => 0 end).
  assert (Hm' : m' = Z.pos m1 * 2 ^ s).
  { unfold m'. destruct s as [|p|p]; [cbn; lia| |lia].
    rewrite Z.shiftl_mul_pow2 by lia. reflexivity. }
  assert (Hq : fst (Z.div_eucl m' (Z.pos m2)) = m' / Z.pos m2) by reflexivity.
  destruct (Z.div_eucl m' (Z.pos m2)) as [q r]. cbn [fst snd] in *. subst q.
  assert (H2s : 0 < 2 ^ s) by (apply Z.pow_pos_nonneg; lia).
  assert (Hq0 : 0 <= m' / Z.pos m2) by (apply Z.div_pos; nia).
  split; [exact Hq0|].
  pose proof (Zdigits2_nonneg (m' / Z.pos m2)) as Hdq.
  destruct (Z.le_gt_cases e' (-1074)) as [Hlow|Hhigh].
  { rewrite fexp_eq. lia. }
(* a normal quotient has at least 53 + 1 bits of numerator over denominator *)
assert (Hdd : d2 + 52 <= d1 - 1 + s).
{ unfold s, e' in *. rewrite fexp_eq in *. lia. }
pose proof (Zdigits2_bounds (Z.pos m1) ltac:(lia)) as Hb1. fold d1 in Hb1.
pose proof (Zdigits2_bounds (Z.pos m2) ltac:(lia)) as Hb2. fold d2 in Hb2.
assert (Hd1 : 1 <= d1) by (unfold d1; cbn; lia).
assert (Hd2 : 1 <= d2) by (unfold d2; cbn; lia).
set (k := d1 - 1 + s - d2) in *.
assert (Hk : 0 <= k) by lia.
assert (Hge : 2 ^ k <= m' / Z.pos m2).
{ apply Z.div_le_lower_bound; [lia|].
  assert (Hp : 2 ^ (d1 - 1) * 2 ^ s = 2 ^ d2 * 2 ^ k).
  { rewrite <- !Z.pow_add_r by lia. f_equal. unfold k. lia. }
  assert (0 < 2 ^ k) by (apply Z.pow_pos_nonneg; lia).
  rewrite Hm'. nia. }
pose proof (Zdigits2_ge_pow _ k Hk Hge) as Hdig.
assert (He' : e' <= d1 + e1 - (d2 + e2) - 53).
{ unfold e' in *. rewrite fexp_eq in *. lia. }
rewrite fexp_eq. unfold k, s in Hdig. lia.
Qed.

Lemma div_valid x sy my ey :
  not_nan x ->
  signed_valid (xorb (sign_bit x) sy) (div x (S754_finite sy my ey)).
Proof.
  intros Hx. destruct x as [sx|sx| |sx mx ex]; cbn [sign_bit].
  - left. reflexivity.
  - right; left. reflexivity.
  - contradiction Hx; reflexivity.
  - unfold div, SFdiv.
    pose proof (div_core_spec mx my ex ey) as [Hq Hpre]. cbv zeta in Hq, Hpre.
    destruct (SFdiv_core_binary prec emax (Z.pos mx) ex (Z.pos my) ey) as [[q e'] l].
    cbn [fst snd] in *. apply binary_round_aux_valid; assumption.
Qed.

(** *** Comparisons *)

Lemma SFcompare_antisym x y :
  SFcompare y x = option_map CompOpp (SFcompare x y).
Proof.
  destruct x as [sx|sx| |sx mx ex], y as [sy|sy| |sy my ey]; cbn;
    try reflexivity;
    try (destruct sx; reflexivity); try (destruct sy; reflexivity);
    try (destruct sx, sy; reflexivity).
  destruct sx, sy; cbn; try reflexivity;
    rewrite (Z.compare_antisym ey ex);
    destruct (ey ?= ex); cbn; try reflexivity;
    rewrite (Pos.compare_cont_antisym mx my Eq); cbn;
    destruct (Pos.compare_cont Eq mx my); reflexivity.
Qed.

Lemma SFcompare_refl x : not_nan x -> SFcompare x x = Some Eq.
Proof.
  destruct x as [s|s| |s m e]; intros H; cbn; try reflexivity.
  - destruct s; reflexivity.
  - contradiction H; reflexivity.
  - rewrite Z.compare_refl, Pos.compare_cont_refl. destruct s; reflexivity.
Qed.

Lemma SFcompare_total x y :
  not_nan x -> not_nan y -> exists c, SFcompare x y = Some c.
Proof.
  intros Hx Hy.
  destruct x as [sx|sx| |sx mx ex], y as [sy|sy| |sy my ey]; cbn;
    try (contradiction Hx; reflexivity); try (contradiction Hy; reflexivity);
    eexists; reflexivity.
Qed.

(** [clamp x 0 hi] is [0], [hi], or a positive [x] that is at most [hi]. *)
Lemma clamp0_cases x mh eh :
  not_nan x ->
  let hi := S754_finite false mh eh in
  let c := Recommendation.clamp x (S754_zero false) hi in
  c = S754_zero false \/ c = hi \/
  (c = x /\ SFltb (S754_zero false) x = true /\ SFleb x hi = true).
Proof.
  intros Hx hi c. subst c. unfold Recommendation.clamp, Math_min, Math_max.
  assert (Hhi : not_nan hi) by discriminate.
  destruct (SFcompare_total hi x Hhi Hx) as [c Hc]. rewrite Hc.
  assert (Hle : c <> Lt -> SFleb x hi = true).
  { intros Hne. unfold SFleb. rewrite SFcompare_antisym, Hc. destruct c; [reflexivity|congruence|reflexivity]. }
  assert (Hy : forall y, y = hi \/ (y = x /\ SFleb x hi = true) ->
    match SFcompare (S754_zero false) y with
    | Some Eq => S754_zero false | Some Lt => y | Some Gt => S754_zero false | None => NaN
    end = S754_zero false \/
    match SFcompare (S754_zero false) y with
    | Some Eq => S754_zero false | Some Lt => y | Some Gt => S754_zero false | None => NaN
    end = hi \/
    (match SFcompare (S754_zero false) y with
    | Some Eq => S754_zero false | Some Lt => y | Some Gt => S754_zero false | None => NaN
    end = x /\ SFltb (S754_zero false) x = true /\ SFleb x hi = true)).
  { intros y Hy.
    assert (Hyn : not_nan y) by (destruct Hy as [->|[-> _]]; assumption).
    destruct (SFcompare_total (S754_zero false) y ltac:(discriminate) Hyn) as [c' Hc'].
    rewrite Hc'. destruct c'; [left; reflexivity| |left; reflexivity].
    destruct Hy as [->|[-> Hl]]; [right; left; reflexivity|].
    right; right. split; [reflexivity|]. split; [|exact Hl].
    unfold SFltb. rewrite Hc'. reflexivity. }
  destruct c.
  - destruct hi eqn:E; try discriminate. apply Hy. right. split; [reflexivity|].
    apply Hle. discriminate.
  - apply Hy. left. reflexivity.
  - apply Hy. right. split; [reflexivity|]. apply Hle. discriminate.
Qed.

Lemma bounded_digits (m : positive) e :
  bounded prec emax m e = true ->
  Zdigits2 (Z.pos m) <= 53 /\ -1074 <= e /\ (-1074 < e -> Zdigits2 (Z.pos m) = 53).
Proof.
  intros Hb. apply bounded_elim in Hb. destruct Hb as [Hc _].
  rewrite fexp_eq in Hc. lia.
Qed.

Lemma Pos_compare_cont_Eq a b : Pos.compare_cont Eq a b = (Z.pos a ?= Z.pos b).
Proof. reflexivity. Qed.

(** A valid positive double that compares below a constant holding [N] has
    a value of at most [N]. *)
Lemma leb_in_range N hi m e :
  bounded prec emax m e = true -> holds_int N hi ->
  SFleb (S754_finite false m e) hi = true -> in_range N (S754_finite false m e).
Proof.
  intros Hb (mh & eh & -> & Hdh & Heh & Hvh) Hle.
  pose proof (bounded_digits m e Hb) as (Hd & Hemin & _).
  pose proof (Zdigits2_bounds (Z.pos m) ltac:(lia)) as Hbm.
  pose proof (Zdigits2_bounds (Z.pos mh) ltac:(lia)) as Hbh. rewrite Hdh in Hbh.
  change (53 - 1) with 52 in Hbh.
  assert (Hm53 : Z.pos m < 2 ^ 53).
  { eapply Z.lt_le_trans; [apply Hbm|]. apply Z.pow_le_mono_r; lia. }
  unfold SFleb, SFcompare in Hle.
  right. exists m, e. split; [reflexivity|]. split; [exact Hb|].
  destruct (Z.compare_spec e eh) as [Heq|Hlt|Hgt]; [| |discriminate].
  - subst eh. split; [lia|]. rewrite <- Hvh.
    rewrite Pos_compare_cont_Eq in Hle.
    destruct (Z.compare_spec (Z.pos m) (Z.pos mh)); first [lia|discriminate].
  - split; [lia|].
    assert (Hsp : 2 ^ (- e) = 2 ^ (- eh) * 2 ^ (eh - e)).
    { rewrite <- Z.pow_add_r by lia. f_equal. lia. }
    assert (2 ^ 1 <= 2 ^ (eh - e)) by (apply Z.pow_le_mono_r; lia).
    change (2 ^ 1) with 2 in *. change (2 ^ 53) with (2 * 2 ^ 52) in Hm53.
    rewrite Hsp. nia.
Qed.

Lemma in_range_leb N hi x :
  in_range N x -> holds_int N hi -> leb x hi = true.
Proof.
  intros Hx (mh & eh & -> & Hdh & Heh & Hvh).
  destruct Hx as [->|(m & e & -> & Hb & He & Hle)]; [reflexivity|].
  pose proof (bounded_digits m e Hb) as (Hd & Hemin & Hnorm).
  pose proof (Zdigits2_bounds (Z.pos m) ltac:(lia)) as Hbm.
  pose proof (Zdigits2_bounds (Z.pos mh) ltac:(lia)) as Hbh. rewrite Hdh in Hbh.
  unfold leb, SFleb, SFcompare.
  destruct (Z.compare_spec e eh) as [Heq|Hlt|Hgt]; [|reflexivity|].
  - subst eh. rewrite Pos_compare_cont_Eq.
    destruct (Z.compare_spec (Z.pos m) (Z.pos mh)); first [reflexivity|lia].
  - exfalso. rewrite (Hnorm ltac:(lia)) in Hbm. change (53 - 1) with 52 in Hbm.
    assert (Hsp : 2 ^ (- eh) = 2 ^ (- e) * 2 ^ (e - eh)).
    { rewrite <- Z.pow_add_r by lia. f_equal. lia. }
    assert (2 ^ 1 <= 2 ^ (e - eh)) by (apply Z.pow_le_mono_r; lia).
    change (2 ^ 1) with 2 in *. change (2 ^ 53) with (2 * 2 ^ 52) in Hbh.
    assert (0 < 2 ^ (- e)) by (apply Z.pow_pos_nonneg; lia).
    rewrite Hsp in Hvh. nia.
Qed.

Lemma in_range_nonneg N x : in_range N x -> leb (S754_zero false) x = true.
Proof. intros [->|(m & e & -> & _)]; reflexivity. Qed.

Lemma holds_1 : holds_int 1 (ofZ 1). Proof. holds_int_tac. Qed.
Lemma holds_12 : holds_int 12 (ofZ 12). Proof. holds_int_tac. Qed.
Lemma holds_15 : holds_int 15 (ofZ 15). Proof. holds_int_tac. Qed.
Lemma holds_18 : holds_int 18 (ofZ 18). Proof. holds_int_tac. Qed.
Lemma holds_20 : holds_int 20 (ofZ 20). Proof. holds_int_tac. Qed.
Lemma holds_30 : holds_int 30 (ofZ 30). Proof. holds_int_tac. Qed.
Lemma holds_35 : holds_int 35 (ofZ 35). Proof. holds_int_tac. Qed.
Lemma holds_65 : holds_int 65 (ofZ 65). Proof. holds_int_tac. Qed.
Lemma holds_70 : holds_int 70 (ofZ 70). Proof. holds_int_tac. Qed.
Lemma holds_100 : holds_int 100 (ofZ 100). Proof. holds_int_tac. Qed.

Lemma holds_int_in_range N c : holds_int N c -> in_range N c.
Proof.
  intros (mc & ec & -> & Hd & He & Hv). right. exists mc, ec.
  split; [reflexivity|]. split; [|lia].
  apply bounded_intro; [rewrite Hd, fexp_eq; lia|lia].
Qed.

(** Clamping to [[0, hi]] lands in the range of [hi]. *)
Lemma clamp0_in_range N hi s x :
  signed_valid s x -> holds_int N hi ->
  in_range N (Recommendation.clamp x (ofZ 0) hi).
Proof.
  intros Hx Hhi. pose proof Hhi as (mh & eh & Ehi & _).
  pose proof (clamp0_cases x mh eh (signed_valid_not_nan s x Hx)) as Hc.
  cbv zeta in Hc. rewrite <- Ehi in Hc. change (ofZ 0) with (S754_zero false).
  destruct Hc as [->|[->|(-> & Hpos & Hle)]].
  - left. reflexivity.
  - apply holds_int_in_range. exact Hhi.
  - destruct Hx as [->|[->|(m & e & -> & Hb)]].
    + discriminate Hpos.
    + rewrite Ehi in Hle. destruct s; discriminate.
    + destruct s; [discriminate Hpos|].
      apply leb_in_range with hi; assumption.
Qed.

Lemma clamp0_bounds N hi s x :
  signed_valid s x -> holds_int N hi ->
  leb (ofZ 0) (Recommendation.clamp x (ofZ 0) hi) = true /\
  leb (Recommendation.clamp x (ofZ 0) hi) hi = true.
Proof.
  intros Hx Hhi. pose proof (clamp0_in_range N hi s x Hx Hhi) as Hr. split.
  - apply in_range_nonneg with N. exact Hr.
  - apply in_range_leb with N; assumption.
Qed.

(** *** Rounding to an integer *)

Lemma Math_round_valid x : signed_valid false x -> signed_valid false (Math_round x).
Proof.
  intros Hx. destruct Hx as [->|[->|(m & e & -> & Hb)]].
  - left. reflexivity.
  - right; left. reflexivity.
  - unfold Math_round. destruct (Z.leb_spec 0 e).
    + right; right. exists m, e. split; [reflexivity|exact Hb].
    + cbn [cond_Zopp].
      set (n := (2 * Z.pos m + 2 ^ (- e)) / 2 ^ (- e + 1)).
      destruct (Z.eqb_spec n 0); [left; reflexivity|].
      assert (0 <= n).
      { unfold n. apply Z.div_pos; [|apply Z.pow_pos_nonneg; lia].
        pose proof (Z.pow_nonneg 2 (- e) ltac:(lia)). lia. }
      destruct n as [|p|p]; try lia.
      unfold ofZ. cbn [binary_normalize]. apply binary_round_valid.
Qed.

(** *** Multiplication of valid non-negative doubles by a normal constant *)

Lemma mul_valid x mc ec :
  signed_valid false x -> Zdigits2 (Z.pos mc) = 53 ->
  signed_valid false (mul x (S754_finite false mc ec)).
Proof.
  intros Hx Hd. destruct Hx as [->|[->|(m & e & -> & Hb)]].
  - left. reflexivity.
  - right; left. reflexivity.
  - unfold mul, SFmul. cbn [xorb].
    apply binary_round_aux_valid; [lia|].
    pose proof (Zdigits2_bounds (Z.pos mc) ltac:(lia)) as Hmc. rewrite Hd in Hmc.
    change (53 - 1) with 52 in Hmc.
    pose proof (Zdigits2_ge_pow (Z.pos (m * mc)) 52 ltac:(lia)) as Hdig.
    rewrite Pos2Z.inj_mul in *. specialize (Hdig ltac:(nia)).
    rewrite fexp_eq. lia.
Qed.

(** *** Positive integer literals *)

Lemma ofZ_positive k : 0 < k -> leb (ofZ k) (ofZ 0) = false.
Proof.
  intros Hk. destruct k as [|p|p]; try lia.
  unfold ofZ. cbn [binary_normalize].
  destruct (binary_round_aligned false p 0) as (mz & ez & -> & Hle & Hmz & Hpre).
  destruct (binary_round_aux_spec false (Z.pos mz) ez loc_Exact ltac:(lia) Hpre)
    as (m2 & m3 & e1 & e3 & -> & He1 & Hm2 & _ & He3 & Hle3 & Hm3 & _).
  assert (Hdz : Zdigits2 (Z.pos mz) + ez = Zdigits2 (Z.pos p)).
  { rewrite Hmz, Zdigits2_mul_pow2 by lia. lia. }
  assert (Hdp : 1 <= Zdigits2 (Z.pos p)) by (cbn; lia).
  pose proof (Zdigits2_bounds (Z.pos mz) ltac:(lia)) as Hbz.
  rewrite fexp_eq in He1, Hpre.
  assert (H1 : 1 <= Z.pos mz / 2 ^ (e1 - ez)).
  { apply Z.div_le_lower_bound; [apply Z.pow_pos_nonneg; lia|].
    rewrite Z.mul_1_r. eapply Z.le_trans; [|apply Hbz].
    apply Z.pow_le_mono_r; lia. }
  assert (Hm2pos : 1 <= m2) by lia.
  pose proof (Zdigits2_bounds m2 ltac:(lia)) as Hb2.
  rewrite fexp_eq in He3.
  assert (H3 : 1 <= m3).
  { rewrite Hm3. apply Z.div_le_lower_bound; [apply Z.pow_pos_nonneg; lia|].
    rewrite Z.mul_1_r. destruct (Z.eq_dec e3 e1) as [->|Hne].
    - rewrite Z.sub_diag. cbn. lia.
    - eapply Z.le_trans; [|apply Hb2]. apply Z.pow_le_mono_r; lia. }
  destruct m3 as [|q|q]; try lia.
  destruct (e3 <=? 971); reflexivity.
Qed.

End Binary64.

(** ** The scoring engine *)

Module ScoringProofs.
Import Recommendation Range Reference Samples Binary64 SortFacts.

Lemma asNum_Some x v : asNum x = Some v -> x = Some v /\ isFinite v = true.
Proof.
  destruct x as [w|]; cbn; [|discriminate].
  destruct (isFinite w) eqn:E; [|discriminate]. intros [= <-]. split; [reflexivity|exact E].
Qed.

Lemma in_range_within N hi x : in_range N x -> holds_int N hi -> within (ofZ 0) hi x.
Proof.
  intros Hx Hhi. split.
  - apply in_range_nonneg with N. exact Hx.
  - apply in_range_leb with N; assumption.
Qed.

Lemma zero_in_range N : in_range N (ofZ 0).
Proof. left. reflexivity. Qed.

Lemma holds_50 : holds_int 50 (ofZ 50). Proof. holds_int_tac. Qed.

Lemma normal_const x :
  (match x with S754_finite false m _ => Zdigits2 (Z.pos m) =? 53 | _ => false end) = true ->
  exists mc ec, x = S754_finite false mc ec /\ Zdigits2 (Z.pos mc) = 53.
Proof.
  destruct x as [| | |[] m e]; try discriminate. intros H. apply Z.eqb_eq in H.
  exists m, e. split; [reflexivity|exact H].
Qed.

(** *** The scaling functions clamp to [[0, 1]] *)

Lemma scaleLinear_in_range x x0 x1 :
  isFinite x = true -> isFinite x0 = true ->
  (exists s m e, sub x1 x0 = S754_finite s m e) ->
  in_range 1 (scaleLinear x x0 x1).
Proof.
  intros Hx Hx0 (s & m & e & Hd). unfold scaleLinear. rewrite Hd.
  eapply clamp0_in_range; [|exact holds_1].
  apply div_valid. apply sub_not_nan; assumption.
Qed.

Lemma scaleInverse_in_range x best worst :
  isFinite x = true -> isFinite worst = true ->
  (exists s m e, sub worst best = S754_finite s m e) ->
  in_range 1 (scaleInverse x best worst).
Proof.
  intros Hx Hw (s & m & e & Hd). unfold scaleInverse. rewrite Hd.
  eapply clamp0_in_range; [|exact holds_1].
  apply div_valid. apply sub_not_nan; assumption.
Qed.

Lemma scaleLinear_unit x x0 x1 :
  isFinite x = true -> isFinite x0 = true ->
  (exists s m e, sub x1 x0 = S754_finite s m e) ->
  within (ofZ 0) (ofZ 1) (scaleLinear x x0 x1).
Proof.
  intros Hx Hx0 Hd. eapply in_range_within; [|exact holds_1].
  apply scaleLinear_in_range; assumption.
Qed.

Lemma scaleInverse_unit x best worst :
  isFinite x = true -> isFinite worst = true ->
  (exists s m e, sub worst best = S754_finite s m e) ->
  within (ofZ 0) (ofZ 1) (scaleInverse x best worst).
Proof.
  intros Hx Hw Hd. eapply in_range_within; [|exact holds_1].
  apply scaleInverse_in_range; assumption.
Qed.

(** *** The points each input brings *)

Lemma growth_points x : isFinite x = true ->
  in_range 35 (mul (scaleLinear x (neg (ratio 2 10)) (ratio 3 10)) WEIGHTS_growth).
Proof.
  intros Hx. apply mul_in_range; [|exact holds_35].
  apply scaleLinear_in_range; [exact Hx|reflexivity|finite_const].
Qed.

Lemma opMargin_points x : isFinite x = true ->
  in_range 20 (mul (scaleLinear x (ofZ 0) (ratio 25 100)) (ofZ 20)).
Proof.
  intros Hx. apply mul_in_range; [|exact holds_20].
  apply scaleLinear_in_range; [exact Hx|reflexivity|finite_const].
Qed.

Lemma fcfMargin_points x : isFinite x = true ->
  in_range 15 (mul (scaleLinear x (ofZ 0) (ratio 2 10)) (ofZ 15)).
Proof.
  intros Hx. apply mul_in_range; [|exact holds_15].
  apply scaleLinear_in_range; [exact Hx|reflexivity|finite_const].
Qed.

Lemma pe_points x : isFinite x = true ->
  in_range 18 (mul (scaleInverse x (ofZ 10) (ofZ 40)) (ofZ 18)).
Proof.
  intros Hx. apply mul_in_range; [|exact holds_18].
  apply scaleInverse_in_range; [exact Hx|reflexivity|finite_const].
Qed.

Lemma ps_points x : isFinite x = true ->
  in_range 12 (mul (scaleInverse x (ofZ 1) (ofZ 12)) (ofZ 12)).
Proof.
  intros Hx. apply mul_in_range; [|exact holds_12].
  apply scaleInverse_in_range; [exact Hx|reflexivity|finite_const].
Qed.

(** At most 20 points from the operating margin, 15 from the FCF margin,
    18 from P/E and 12 from P/S. *)
Lemma component_points_bounded x :
  isFinite x = true ->
  within (ofZ 0) (ofZ 20) (mul (scaleLinear x (ofZ 0) (ratio 25 100)) (ofZ 20)) /\
  within (ofZ 0) (ofZ 15) (mul (scaleLinear x (ofZ 0) (ratio 2 10)) (ofZ 15)) /\
  within (ofZ 0) (ofZ 18) (mul (scaleInverse x (ofZ 10) (ofZ 40)) (ofZ 18)) /\
  within (ofZ 0) (ofZ 12) (mul (scaleInverse x (ofZ 1) (ofZ 12)) (ofZ 12)).
Proof.
  intros Hx. split; [|split; [|split]].
  - exact (in_range_within 20 _ _ (opMargin_points x Hx) holds_20).
  - exact (in_range_within 15 _ _ (fcfMargin_points x Hx) holds_15).
  - exact (in_range_within 18 _ _ (pe_points x Hx) holds_18).
  - exact (in_range_within 12 _ _ (ps_points x Hx) holds_12).
Qed.

Section Scores.
Variable pow : number -> number -> number.
Variable fin : FinancialsPayload.

Lemma growthScore_in_range :
  in_range (weight (growth (used (score pow fin))) 35) (growthScore (score pow fin)).
Proof.
  unfold score. cbn [growthScore used growth].
  destruct (asNum (compute_revCagr _ _)) as [v|] eqn:E; cbn [fst snd weight].
  - apply asNum_Some in E as [_ Hv]. apply growth_points. exact Hv.
  - apply zero_in_range.
Qed.

Lemma marginScore_in_range :
  in_range (weight (margin (used (score pow fin))) 35) (marginScore (score pow fin)).
Proof.
  unfold score. cbn [marginScore used margin].
  destruct (asNum (compute_margin opIncome _)) as [v|] eqn:E1;
    destruct (asNum (compute_margin fcf _)) as [w|] eqn:E2; cbn [fst snd weight];
    try (apply asNum_Some in E1 as [_ Hv]); try (apply asNum_Some in E2 as [_ Hw]).
  - apply (add_in_range 20 15); try lia; [|apply fcfMargin_points; exact Hw].
    apply (add_in_range 0 20); try lia; [apply zero_in_range|apply opMargin_points; exact Hv].
  - apply in_range_mono with (0 + 20); [lia|].
    apply add_in_range; try lia; [apply zero_in_range|apply opMargin_points; exact Hv].
  - apply in_range_mono with (0 + 15); [lia|].
    apply add_in_range; try lia; [apply zero_in_range|apply fcfMargin_points; exact Hw].
  - apply zero_in_range.
Qed.

Lemma valueScore_in_range :
  in_range (weight (value (used (score pow fin))) 30) (valueScore (score pow fin)).
Proof.
  unfold score. cbn [valueScore used value].
  destruct (asNum (s_pe _)) as [v|] eqn:E1;
    destruct (asNum (s_ps _)) as [w|] eqn:E2; cbn [fst snd weight];
    try (apply asNum_Some in E1 as [_ Hv]); try (apply asNum_Some in E2 as [_ Hw]).
  - apply (add_in_range 18 12); try lia; [|apply ps_points; exact Hw].
    apply (add_in_range 0 18); try lia; [apply zero_in_range|apply pe_points; exact Hv].
  - apply in_range_mono with (0 + 18); [lia|].
    apply add_in_range; try lia; [apply zero_in_range|apply pe_points; exact Hv].
  - apply in_range_mono with (0 + 12); [lia|].
    apply add_in_range; try lia; [apply zero_in_range|apply ps_points; exact Hw].
  - apply zero_in_range.
Qed.

(** The margin score is what the operating margin brings plus what the FCF
    margin brings, an absent input bringing nothing. *)
Lemma marginScore_parts :
  exists op fc,
    in_range 20 op /\ in_range 15 fc /\
    marginScore (score pow fin) = add (add (ofZ 0) op) fc.
Proof.
  unfold score. cbn [marginScore].
  destruct (asNum (compute_margin opIncome _)) as [v|] eqn:E1;
    destruct (asNum (compute_margin fcf _)) as [w|] eqn:E2; cbn [fst snd];
    try (apply asNum_Some in E1 as [_ Hv]); try (apply asNum_Some in E2 as [_ Hw]).
  - eexists _, _. split; [apply opMargin_points; exact Hv|].
    split; [apply fcfMargin_points; exact Hw|reflexivity].
  - eexists _, (ofZ 0). split; [apply opMargin_points; exact Hv|].
    split; [apply zero_in_range|].
    rewrite (add_zero_l 20), (add_zero_r 20) by (apply opMargin_points; exact Hv).
    reflexivity.
  - exists (ofZ 0). eexists. split; [apply zero_in_range|].
    split; [apply fcfMargin_points; exact Hw|reflexivity].
  - exists (ofZ 0), (ofZ 0). split; [apply zero_in_range|].
    split; [apply zero_in_range|reflexivity].
Qed.

Lemma valueScore_parts :
  exists p q,
    in_range 18 p /\ in_range 12 q /\
    valueScore (score pow fin) = add (add (ofZ 0) p) q.
Proof.
  unfold score. cbn [valueScore].
  destruct (asNum (s_pe _)) as [v|] eqn:E1;
    destruct (asNum (s_ps _)) as [w|] eqn:E2; cbn [fst snd];
    try (apply asNum_Some in E1 as [_ Hv]); try (apply asNum_Some in E2 as [_ Hw]).
  - eexists _, _. split; [apply pe_points; exact Hv|].
    split; [apply ps_points; exact Hw|reflexivity].
  - eexists _, (ofZ 0). split; [apply pe_points; exact Hv|].
    split; [apply zero_in_range|].
    rewrite (add_zero_l 18), (add_zero_r 18) by (apply pe_points; exact Hv).
    reflexivity.
  - exists (ofZ 0). eexists. split; [apply zero_in_range|].
    split; [apply ps_points; exact Hw|reflexivity].
  - exists (ofZ 0), (ofZ 0). split; [apply zero_in_range|].
    split; [apply zero_in_range|reflexivity].
Qed.

Lemma usedTotalWeight_ofZ :
  usedTotalWeight (score pow fin) = ofZ (usedWeight (score pow fin)).
Proof.
  unfold usedWeight, score. cbn [usedTotalWeight used growth margin value].
  destruct (asNum (compute_revCagr _ _)), (asNum (compute_margin opIncome _)),
    (asNum (compute_margin fcf _)), (asNum (s_pe _)), (asNum (s_ps _));
    cbn [fst snd weight]; vm_compute; reflexivity.
Qed.

Lemma usedWeight_cases : usedWeight (score pow fin) ∈ [0; 30; 35; 65; 70; 100].
Proof.
  unfold usedWeight.
  destruct (growth (used (score pow fin))), (margin (used (score pow fin))),
    (value (used (score pow fin))); cbn; set_solver.
Qed.

Lemma raw_in_range :
  in_range (usedWeight (score pow fin))
    (add (add (growthScore (score pow fin)) (marginScore (score pow fin)))
         (valueScore (score pow fin))).
Proof.
  unfold usedWeight.
  pose proof growthScore_in_range as Hg.
  pose proof marginScore_in_range as Hm.
  pose proof valueScore_in_range as Hv.
  assert (forall b w, 0 <= w <= 35 -> 0 <= weight b w <= 35) as Hw
    by (intros [] w; cbn; lia).
  pose proof (Hw (growth (used (score pow fin))) 35 ltac:(lia)).
  pose proof (Hw (margin (used (score pow fin))) 35 ltac:(lia)).
  pose proof (Hw (value (used (score pow fin))) 30 ltac:(lia)).
  assert (2 ^ 53 = 9007199254740992) by reflexivity.
  apply add_in_range; try lia; [|exact Hv].
  apply add_in_range; try lia; assumption.
Qed.

Lemma holds_usedWeight :
  usedWeight (score pow fin) <> 0 ->
  holds_int (usedWeight (score pow fin)) (ofZ (usedWeight (score pow fin))).
Proof.
  pose proof usedWeight_cases as H. revert H. generalize (usedWeight (score pow fin)). intros W H.
  repeat (apply elem_of_cons in H as [->|H]); try (intros Hne; contradiction Hne; reflexivity);
    intros _.
  - exact holds_30.
  - exact holds_35.
  - exact holds_65.
  - exact holds_70.
  - exact holds_100.
  - apply elem_of_nil in H. contradiction.
Qed.

Lemma scoreNorm_eq :
  scoreNorm (score pow fin) =
    if eqb (usedTotalWeight (score pow fin)) (ofZ 0) then ofZ 50
    else clamp (Math_round (mul (div (add (add (growthScore (score pow fin))
                                               (marginScore (score pow fin)))
                                          (valueScore (score pow fin)))
                                     (usedTotalWeight (score pow fin))) (ofZ 100)))
               (ofZ 0) (ofZ 100).
Proof. reflexivity. Qed.

Lemma coverage_eq : coverage (score pow fin) = div (usedTotalWeight (score pow fin)) (ofZ 100).
Proof. reflexivity. Qed.

Lemma penaltyFactor_eq :
  penaltyFactor (score pow fin) = add (ratio 7 10) (mul (ratio 3 10) (coverage (score pow fin))).
Proof. reflexivity. Qed.

Lemma scoreFinal_eq :
  scoreFinal (score pow fin) =
    clamp (Math_round (mul (scoreNorm (score pow fin)) (penaltyFactor (score pow fin))))
          (ofZ 0) (ofZ 100).
Proof. reflexivity. Qed.

Lemma scoreNorm_in_range : in_range 100 (scoreNorm (score pow fin)).
Proof.
  rewrite scoreNorm_eq. rewrite usedTotalWeight_ofZ.
  destruct (eqb (ofZ (usedWeight (score pow fin))) (ofZ 0)) eqn:E.
  - apply in_range_mono with 50; [lia|]. apply holds_int_in_range. exact holds_50.
  - assert (Hne : usedWeight (score pow fin) <> 0)
      by (intros H0; rewrite H0 in E; discriminate E).
    pose proof (holds_usedWeight Hne) as (mw & ew & Hw & _).
    eapply clamp0_in_range; [|exact holds_100].
    apply Math_round_valid.
    pose proof holds_100 as (mc & ec & Hc & Hd & _). rewrite Hc.
    apply mul_valid; [|exact Hd].
    rewrite Hw.
    pose proof raw_in_range as Hraw.
    set (raw := add (add (growthScore (score pow fin)) (marginScore (score pow fin)))
                    (valueScore (score pow fin))) in *.
    pose proof (div_valid raw false mw ew
      (signed_valid_not_nan _ _ (in_range_signed_valid _ _ Hraw))) as Hdiv.
    replace (sign_bit raw) with false in Hdiv; [exact Hdiv|].
    destruct Hraw as [->|(m & e & -> & _)]; reflexivity.
Qed.

Lemma coverage_cases :
  coverage (score pow fin) ∈ [ofZ 0; ratio 3 10; ratio 35 100; ratio 65 100; ratio 7 10; ofZ 1].
Proof.
  rewrite coverage_eq, usedTotalWeight_ofZ.
  pose proof usedWeight_cases as H. revert H. generalize (usedWeight (score pow fin)). intros W H.
  repeat (apply elem_of_cons in H as [->|H]); [..|apply elem_of_nil in H; contradiction];
    vm_compute; set_solver.
Qed.

Lemma penaltyFactor_normal :
  exists mc ec, penaltyFactor (score pow fin) = S754_finite false mc ec /\ Zdigits2 (Z.pos mc) = 53.
Proof.
  rewrite penaltyFactor_eq.
  pose proof coverage_cases as H. revert H. generalize (coverage (score pow fin)). intros c H.
  repeat (apply elem_of_cons in H as [->|H]); [..|apply elem_of_nil in H; contradiction];
    apply normal_const; vm_compute; reflexivity.
Qed.

(** C1: for every input the final score lies in [[0,100]], the coverage in
    [[0,1]] and the penalty factor in [[0.7,1]], where coverage =
    usedTotalWeight / 100, penaltyFactor = 0.7 + 0.3 * coverage and
    scoreFinal = clamp (round (scoreNorm * penaltyFactor), 0, 100); the
    rounded figures of the answer's [diagnostics] stay in the same ranges. *)
Theorem score_coverage_penalty_bounds :
  within (ofZ 0) (ofZ 100) (scoreFinal (score pow fin)) /\
  within (ofZ 0) (ofZ 1) (coverage (score pow fin)) /\
  within (ratio 7 10) (ofZ 1) (penaltyFactor (score pow fin)) /\
  coverage (score pow fin) = div (usedTotalWeight (score pow fin)) (ofZ 100) /\
  penaltyFactor (score pow fin) =
    add (ratio 7 10) (mul (ratio 3 10) (coverage (score pow fin))) /\
  scoreFinal (score pow fin) =
    clamp (Math_round (mul (scoreNorm (score pow fin)) (penaltyFactor (score pow fin))))
          (ofZ 0) (ofZ 100) /\
  within (ofZ 0) (ofZ 100) (r_score (respond fin (score pow fin))) /\
  within (ofZ 0) (ofZ 1) (diagnostics_coverage (respond fin (score pow fin))) /\
  within (ratio 7 10) (ofZ 1) (diagnostics_penalty_factor (respond fin (score pow fin))).
Proof.
  assert (Hscore : within (ofZ 0) (ofZ 100) (scoreFinal (score pow fin))).
  { rewrite scoreFinal_eq.
    eapply in_range_within; [|exact holds_100].
    eapply clamp0_in_range; [|exact holds_100].
    apply Math_round_valid.
    destruct penaltyFactor_normal as (mc & ec & -> & Hd).
    apply mul_valid; [|exact Hd].
    eapply in_range_signed_valid, scoreNorm_in_range. }
  assert (Hcov : within (ofZ 0) (ofZ 1) (coverage (score pow fin)) /\
                 within (ofZ 0) (ofZ 1) (toFixed2 (coverage (score pow fin))) /\
                 within (ratio 7 10) (ofZ 1) (penaltyFactor (score pow fin)) /\
                 within (ratio 7 10) (ofZ 1) (toFixed2 (penaltyFactor (score pow fin)))).
  { rewrite penaltyFactor_eq. pose proof coverage_cases as H.
    revert H. generalize (coverage (score pow fin)). intros c H.
    repeat (apply elem_of_cons in H as [->|H]); [..|apply elem_of_nil in H; contradiction];
      vm_compute; repeat split; reflexivity. }
  destruct Hcov as (Hc1 & Hc2 & Hp1 & Hp2).
  split; [exact Hscore|]. split; [exact Hc1|]. split; [exact Hp1|].
  split; [reflexivity|]. split; [reflexivity|]. split; [reflexivity|].
  split; [exact Hscore|]. split; [exact Hc2|exact Hp2].
Qed.

(** C10: each sub-score is bounded by its component's maximum: the growth
    score lies in [[0,35]], the margin score in [[0,35]] (at most 20 points
    from the operating margin plus at most 15 from the FCF margin), the value
    score in [[0,30]] (at most 18 from P/E plus at most 12 from P/S), and the
    raw total never exceeds the used total weight.  The bounds rest on the
    scaling functions clamping to [[0,1]] ([scaleLinear_unit],
    [scaleInverse_unit]). *)
Theorem subscores_bounded :
  within (ofZ 0) (ofZ 35) (growthScore (score pow fin)) /\
  within (ofZ 0) (ofZ 35) (marginScore (score pow fin)) /\
  (exists op fc,
     within (ofZ 0) (ofZ 20) op /\ within (ofZ 0) (ofZ 15) fc /\
     marginScore (score pow fin) = add (add (ofZ 0) op) fc) /\
  within (ofZ 0) (ofZ 30) (valueScore (score pow fin)) /\
  (exists p q,
     within (ofZ 0) (ofZ 18) p /\ within (ofZ 0) (ofZ 12) q /\
     valueScore (score pow fin) = add (add (ofZ 0) p) q) /\
  within (ofZ 0) (usedTotalWeight (score pow fin))
    (add (add (growthScore (score pow fin)) (marginScore (score pow fin)))
         (valueScore (score pow fin))).
Proof.
  assert (forall b w, weight b w <= w \/ w < 0) as Hw by (intros [] w; cbn; lia).
  split; [|split; [|split; [|split; [|split]]]].
  - eapply in_range_within; [|exact holds_35].
    eapply in_range_mono; [|exact growthScore_in_range].
    destruct (Hw (growth (used (score pow fin))) 35); lia.
  - eapply in_range_within; [|exact holds_35].
    eapply in_range_mono; [|exact marginScore_in_range].
    destruct (Hw (margin (used (score pow fin))) 35); lia.
  - destruct marginScore_parts as (op & fc & Hop & Hfc & Heq).
    exists op, fc. split; [exact (in_range_within 20 _ _ Hop holds_20)|].
    split; [exact (in_range_within 15 _ _ Hfc holds_15)|exact Heq].
  - eapply in_range_within; [|exact holds_30].
    eapply in_range_mono; [|exact valueScore_in_range].
    destruct (Hw (value (used (score pow fin))) 30); lia.
  - destruct valueScore_parts as (p & q & Hp & Hq & Heq).
    exists p, q. split; [exact (in_range_within 18 _ _ Hp holds_18)|].
    split; [exact (in_range_within 12 _ _ Hq holds_12)|exact Heq].
  - rewrite usedTotalWeight_ofZ. pose proof raw_in_range as Hraw.
    destruct (Z.eq_dec (usedWeight (score pow fin)) 0) as [H0|Hne].
    + rewrite H0 in *. apply in_range_0 in Hraw. rewrite Hraw. split; reflexivity.
    + eapply in_range_within; [exact Hraw|]. apply holds_usedWeight. exact Hne.
Qed.

End Scores.

Section Claims.
Variable pow : number -> number -> number.

(** C2: whenever the computed coverage is below 0.6 the signal is WATCH and
    low_conf is true, whatever the final score, and the signal the score
    alone gives is kept as base_signal. *)
Theorem low_confidence_override (fin : FinancialsPayload) :
  ltb (coverage (score pow fin)) (ratio 6 10) = true ->
  signal (score pow fin) = WATCH /\
  lowConf (score pow fin) = true /\
  baseSignal (score pow fin) = signal_of (scoreFinal (score pow fin)) /\
  r_signal (respond fin (score pow fin)) = WATCH /\
  diagnostics_low_conf (respond fin (score pow fin)) = true /\
  diagnostics_base_signal (respond fin (score pow fin)) =
    signal_of (r_score (respond fin (score pow fin))).
Proof.
  unfold respond. cbn [r_signal diagnostics_low_conf diagnostics_base_signal r_score].
  unfold score; cbn [signal lowConf baseSignal scoreFinal coverage].
  intros Hcov. rewrite Hcov. cbn [andb].
  assert (forall b : Signal, (if negb (bool_decide (b = WATCH)) then WATCH else b) = WATCH) as Hw
    by (intros []; reflexivity).
  rewrite Hw. repeat split; reflexivity.
Qed.

Lemma revCagr_absent (rs : list Row) :
  Forall (fun r => revenue r = None) rs -> compute_revCagr pow rs = None.
Proof.
  intros Hall. rewrite Forall_forall in Hall. unfold compute_revCagr.
  destruct (head rs) as [o|] eqn:Ho; cbn.
  - rewrite (Hall o (head_Some_elem_of _ _ Ho)). cbn.
    destruct (last rs) as [lst|] eqn:Hl; cbn.
    + destruct (decide (2 <= length rs)%nat); [|reflexivity].
      destruct (rs !! (length rs - 2)%nat) as [p|] eqn:Hp; cbn; [|reflexivity].
      rewrite (Hall p (list_elem_of_lookup_2 _ _ _ Hp)). reflexivity.
    + destruct (decide (2 <= length rs)%nat); [|reflexivity].
      destruct (rs !! (length rs - 2)%nat) as [p|]; reflexivity.
  - destruct (decide (2 <= length rs)%nat); [|reflexivity].
    destruct (rs !! (length rs - 2)%nat) as [p|] eqn:Hp; cbn; [|reflexivity].
    destruct (last rs) as [lst|] eqn:Hl; cbn; [|reflexivity].
    rewrite (Hall p (list_elem_of_lookup_2 _ _ _ Hp)). reflexivity.
Qed.

Lemma margin_absent (f : Row -> option number) (rs : list Row) :
  Forall (fun r => f r = None) rs -> compute_margin f rs = None.
Proof.
  intros Hall. rewrite Forall_forall in Hall. unfold compute_margin.
  destruct (last rs) as [lst|] eqn:Hl; cbn; [|reflexivity].
  rewrite (Hall lst (last_Some_elem_of _ _ Hl)). reflexivity.
Qed.

(** C4: when every field of every row is null and no multiple is present,
    the engine gives scoreNorm 50, coverage 0, penalty factor 0.7, final
    score 35, base signal AVOID, final signal WATCH with low_conf, and the
    single warning of the neutral score. *)
Theorem empty_series_neutral (fin : FinancialsPayload) :
  Forall absent_fields (rows fin) ->
  (m ← multiples fin; pe m) = None -> (m ← multiples fin; ps m) = None ->
  scoreNorm (score pow fin) = ofZ 50 /\
  coverage (score pow fin) = ofZ 0 /\
  penaltyFactor (score pow fin) = ratio 7 10 /\
  scoreFinal (score pow fin) = ofZ 35 /\
  baseSignal (score pow fin) = AVOID /\
  signal (score pow fin) = WATCH /\
  lowConf (score pow fin) = true /\
  warnings (score pow fin) = ["No usable financial/value signals; neutral score used."%string] /\
  diagnostics_coverage (respond fin (score pow fin)) = ofZ 0 /\
  diagnostics_penalty_factor (respond fin (score pow fin)) = ratio 7 10.
Proof.
  intros Hrows Hpe Hps.
  assert (Hsorted : Forall absent_fields (sort_by year (rows fin)))
    by (apply sort_by_Forall; exact Hrows).
  assert (H1 : compute_revCagr pow (sort_by year (rows fin)) = None).
  { apply revCagr_absent. eapply Forall_impl; [exact Hsorted|]. intros r Hr; apply Hr. }
  assert (H2 : compute_margin opIncome (sort_by year (rows fin)) = None).
  { apply margin_absent. eapply Forall_impl; [exact Hsorted|]. intros r Hr; apply Hr. }
  assert (H3 : compute_margin fcf (sort_by year (rows fin)) = None).
  { apply margin_absent. eapply Forall_impl; [exact Hsorted|]. intros r Hr; apply Hr. }
  unfold respond. cbn [diagnostics_coverage diagnostics_penalty_factor].
  unfold score.
  cbn [scoreNorm coverage penaltyFactor scoreFinal baseSignal signal lowConf warnings].
  rewrite H1, H2, H3, Hpe, Hps.
  vm_compute. repeat split; reflexivity.
Qed.

(** C5 (amended): a component is used exactly when one of its inputs is a
    finite number; the used total weight is the sum of the weights (growth
    35, margin 35, value 30) of the used components, and takes only the
    values 0, 30, 35, 65, 70 or 100. *)
Theorem used_weight_sum (fin : FinancialsPayload) :
  growth (used (score pow fin)) = isNum (revCagr (score pow fin)) /\
  margin (used (score pow fin)) =
    isNum (opMargin (score pow fin)) || isNum (fcfMargin (score pow fin)) /\
  value (used (score pow fin)) =
    isNum (s_pe (mult (score pow fin))) || isNum (s_ps (mult (score pow fin))) /\
  usedTotalWeight (score pow fin) =
    add (add (if growth (used (score pow fin)) then ofZ 35 else ofZ 0)
             (if margin (used (score pow fin)) then ofZ 35 else ofZ 0))
        (if value (used (score pow fin)) then ofZ 30 else ofZ 0) /\
  usedTotalWeight (score pow fin) ∈ [ofZ 0; ofZ 30; ofZ 35; ofZ 65; ofZ 70; ofZ 100].
Proof.
  unfold score.
  cbn [used growth margin value revCagr opMargin fcfMargin mult usedTotalWeight].
  destruct (compute_revCagr _ _) as [v1|]; cbn [asNum isNum]; [destruct (isFinite v1)|];
  (destruct (compute_margin opIncome _) as [v2|]; cbn [asNum isNum]; [destruct (isFinite v2)|]);
  (destruct (compute_margin fcf _) as [v3|]; cbn [asNum isNum]; [destruct (isFinite v3)|]);
  (destruct (s_pe _) as [v4|]; cbn [asNum isNum]; [destruct (isFinite v4)|]);
  (destruct (s_ps _) as [v5|]; cbn [asNum isNum]; [destruct (isFinite v5)|]);
  cbn [fst snd orb];
  (split; [reflexivity|]); (split; [reflexivity|]); (split; [reflexivity|]);
  (split; [reflexivity|]); vm_compute; set_solver.
Qed.

Lemma compute_revCagr_cagr (rs : list Row) (o l : Row) (a b : number) :
  head rs = Some o -> last rs = Some l ->
  asNum (revenue o) = Some a -> asNum (revenue l) = Some b -> (3 <= length rs)%nat ->
  compute_revCagr pow rs = cagr pow a b (ofZ (Z.of_nat (length rs) - 1)).
Proof.
  intros Ho Hl Ha Hb Hn. unfold compute_revCagr. rewrite Ho, Hl. cbn.
  rewrite Ha, Hb. cbn. destruct (decide (3 <= length rs)%nat); [reflexivity|lia].
Qed.

Lemma compute_revCagr_yoy (rs : list Row) (p l : Row) (a b : number) :
  rs !! (length rs - 2)%nat = Some p -> last rs = Some l ->
  asNum (revenue p) = Some a -> asNum (revenue l) = Some b -> (2 <= length rs)%nat ->
  (length rs < 3)%nat \/ (forall o, head rs = Some o -> asNum (revenue o) = None) ->
  compute_revCagr pow rs = if eqb a (ofZ 0) then None else Some (sub (div b a) (ofZ 1)).
Proof.
  intros Hp Hl Ha Hb Hn Hno. unfold compute_revCagr. rewrite Hl, Hp.
  destruct (decide (2 <= length rs)%nat); [|lia].
  assert (Hfirst : (o ← head rs; l0 ← Some l; a0 ← asNum (revenue o); b0 ← asNum (revenue l0);
                    if decide (3 <= length rs)%nat then Some (a0, b0) else None) = None).
  { destruct (head rs) as [o|] eqn:Ho; cbn; [|reflexivity].
    destruct Hno as [Hlt|Habs].
    - destruct (asNum (revenue o)); cbn; [|reflexivity]. rewrite Hb. cbn.
      destruct (decide (3 <= length rs)%nat); [lia|reflexivity].
    - rewrite (Habs o eq_refl). reflexivity. }
  rewrite Hfirst. cbn. rewrite Ha, Hb. cbn. unfold neqb, eqb.
  destruct (SFeqb a _); reflexivity.
Qed.

Lemma compute_revCagr_none (rs : list Row) :
  (length rs < 2)%nat \/ (forall l, last rs = Some l -> asNum (revenue l) = None) ->
  compute_revCagr pow rs = None.
Proof.
  intros H. unfold compute_revCagr.
  assert (Hfirst : (o ← head rs; l0 ← last rs; a0 ← asNum (revenue o); b0 ← asNum (revenue l0);
                    if decide (3 <= length rs)%nat then Some (a0, b0) else None) = None).
  { destruct (head rs) as [o|]; cbn; [|reflexivity].
    destruct (last rs) as [lst|] eqn:Hl; cbn; [|reflexivity].
    destruct (asNum (revenue o)); cbn; [|reflexivity].
    destruct H as [Hlt|Habs].
    - destruct (asNum (revenue lst)); cbn; [|reflexivity].
      destruct (decide (3 <= length rs)%nat); [lia|reflexivity].
    - rewrite (Habs lst eq_refl). reflexivity. }
  rewrite Hfirst. destruct H as [Hlt|Habs].
  - destruct (decide (2 <= length rs)%nat); [lia|reflexivity].
  - destruct (decide (2 <= length rs)%nat); [|reflexivity].
    destruct (rs !! (length rs - 2)%nat) as [p|]; cbn; [|reflexivity].
    destruct (last rs) as [lst|] eqn:Hl; cbn; [|reflexivity].
    destruct (asNum (revenue p)); cbn; [|reflexivity].
    rewrite (Habs lst eq_refl). reflexivity.
Qed.

(** C6 (amended): on the rows in ascending year order, with [n] rows:
    - with at least three rows and finite revenue at both ends, revenueCagr
      is the compound rate over [n - 1] intervals from the oldest to the
      latest revenue, and null when either of the two is [<= 0];
    - otherwise, when the two most recent revenues are finite, it is the
      simple growth latest / previous - 1, null only when the previous
      revenue is zero (a negative or zero-latest pair still gives a number);
    - with fewer than two rows, or no finite latest revenue, it is null. *)
Theorem revenue_cagr_rule (fin : FinancialsPayload) :
  let rs := sort_by year (rows fin) in
  let n := length rs in
  (forall o l a b,
     head rs = Some o -> last rs = Some l ->
     asNum (revenue o) = Some a -> asNum (revenue l) = Some b -> (3 <= n)%nat ->
     revCagr (score pow fin) =
       if leb a (ofZ 0) || leb b (ofZ 0) then None
       else Some (sub (pow (div b a) (div (ofZ 1) (ofZ (Z.of_nat n - 1)))) (ofZ 1))) /\
  (forall p l a b,
     rs !! (n - 2)%nat = Some p -> last rs = Some l ->
     asNum (revenue p) = Some a -> asNum (revenue l) = Some b -> (2 <= n)%nat ->
     (n < 3)%nat \/ (forall o, head rs = Some o -> asNum (revenue o) = None) ->
     revCagr (score pow fin) =
       if eqb a (ofZ 0) then None else Some (sub (div b a) (ofZ 1))) /\
  ((n < 2)%nat \/ (forall l, last rs = Some l -> asNum (revenue l) = None) ->
   revCagr (score pow fin) = None).
Proof.
  intros rs n.
  change (revCagr (score pow fin)) with (compute_revCagr pow rs).
  split; [|split].
  - intros o l a b Ho Hl Ha Hb Hn.
    rewrite (compute_revCagr_cagr rs o l a b Ho Hl Ha Hb Hn). unfold cagr.
    rewrite (ofZ_positive (Z.of_nat (length rs) - 1)) by (subst n; lia).
    rewrite orb_false_r. reflexivity.
  - intros p l a b Hp Hl Ha Hb Hn Hno. apply (compute_revCagr_yoy rs p l a b); assumption.
  - apply compute_revCagr_none.
Qed.

Lemma scoring_core_ext (fin fin' : FinancialsPayload) :
  rows fin = rows fin' ->
  s_pe (mult (score pow fin)) = s_pe (mult (score pow fin')) ->
  s_ps (mult (score pow fin)) = s_ps (mult (score pow fin')) ->
  scoring_core (score pow fin) = scoring_core (score pow fin').
Proof.
  unfold scoring_core, score.
  cbn [revCagr opMargin fcfMargin fcfTrend used growthScore marginScore valueScore
       usedTotalWeight scoreNorm coverage penaltyFactor scoreFinal baseSignal lowConf
       signal confidence mult].
  intros -> -> ->. reflexivity.
Qed.

Lemma sanitize_high_ps (p : option number) (x : number) :
  isFinite x = true -> gtb x (ofZ 40) = true ->
  s_pe (sanitizeMultiples p (Some x)) = s_pe (sanitizeMultiples p None) /\
  s_ps (sanitizeMultiples p (Some x)) = None /\
  s_ps (sanitizeMultiples p None) = None /\
  "P/S is extremely high; skipped from scoring (not comparable)."%string
    ∈ notes (sanitizeMultiples p (Some x)).
Proof.
  intros Hf Hgt. unfold sanitizeMultiples. cbn [s_ps s_pe notes asNum]. rewrite Hf, Hgt.
  cbn [s_ps s_pe notes].
  destruct (asNum p) as [v|]; [destruct (gtb v (ofZ 80))|]; cbn [s_ps s_pe notes];
    repeat split; set_solver.
Qed.

Lemma sanitize_high_pe (q : option number) (x : number) :
  isFinite x = true -> gtb x (ofZ 80) = true ->
  s_ps (sanitizeMultiples (Some x) q) = s_ps (sanitizeMultiples None q) /\
  s_pe (sanitizeMultiples (Some x) q) = None /\
  s_pe (sanitizeMultiples None q) = None /\
  "P/E is extremely high; skipped from scoring (not comparable)."%string
    ∈ notes (sanitizeMultiples (Some x) q).
Proof.
  intros Hf Hgt. unfold sanitizeMultiples. cbn [s_ps s_pe notes].
  destruct (asNum q) as [v|]; [destruct (gtb v (ofZ 40))|]; cbn [s_ps s_pe notes asNum];
    rewrite Hf, Hgt; cbn [s_ps s_pe notes]; repeat split; set_solver.
Qed.

Lemma warnings_notes (fin : FinancialsPayload) (w : string) :
  w ∈ notes (mult (score pow fin)) -> w ∈ warnings (score pow fin).
Proof.
  unfold score. cbn [warnings mult]. intros Hw.
  repeat match goal with |- context [if ?c then _ else _] => destruct c end;
    set_solver.
Qed.

(** C7: a finite price/sales multiple above 40 (likewise a price/earnings
    multiple above 80) is left out of the value sub-score: every scoring
    field is what it is when that multiple is absent; the matching warning
    is emitted, and the summary still shows the multiple as it came. *)
Theorem high_multiple_excluded (fin : FinancialsPayload) (m : Multiples) (x : number) :
  multiples fin = Some m -> isFinite x = true ->
  (ps m = Some x -> gtb x (ofZ 40) = true ->
   scoring_core (score pow fin) =
     scoring_core (score pow (with_multiples fin {| pe := pe m; ps := None |})) /\
   s_ps (mult (score pow fin)) = None /\
   "P/S is extremely high; skipped from scoring (not comparable)."%string
     ∈ warnings (score pow fin) /\
   summary_ps (respond fin (score pow fin)) = Some x) /\
  (pe m = Some x -> gtb x (ofZ 80) = true ->
   scoring_core (score pow fin) =
     scoring_core (score pow (with_multiples fin {| pe := None; ps := ps m |})) /\
   s_pe (mult (score pow fin)) = None /\
   "P/E is extremely high; skipped from scoring (not comparable)."%string
     ∈ warnings (score pow fin) /\
   summary_pe (respond fin (score pow fin)) = Some x).
Proof.
  intros Hm Hf. split.
  - intros Hps Hgt.
    destruct (sanitize_high_ps (pe m) x Hf Hgt) as (H1 & H2 & H3 & H4).
    assert (Hmult : mult (score pow fin) = sanitizeMultiples (pe m) (Some x)).
    { unfold score. cbn [mult]. rewrite Hm. cbn. rewrite Hps. reflexivity. }
    split; [|split; [|split]].
    + apply scoring_core_ext; [reflexivity| |]; rewrite Hmult.
      * exact H1.
      * rewrite H2. symmetry. exact H3.
    + rewrite Hmult. exact H2.
    + apply warnings_notes. rewrite Hmult. exact H4.
    + unfold respond. cbn [summary_ps]. unfold score. cbn [ps0]. rewrite Hm. cbn. exact Hps.
  - intros Hpe Hgt.
    destruct (sanitize_high_pe (ps m) x Hf Hgt) as (H1 & H2 & H3 & H4).
    assert (Hmult : mult (score pow fin) = sanitizeMultiples (Some x) (ps m)).
    { unfold score. cbn [mult]. rewrite Hm. cbn. rewrite Hpe. reflexivity. }
    split; [|split; [|split]].
    + apply scoring_core_ext; [reflexivity| |]; rewrite Hmult.
      * rewrite H2. symmetry. exact H3.
      * exact H1.
    + rewrite Hmult. exact H2.
    + apply warnings_notes. rewrite Hmult. exact H4.
    + unfold respond. cbn [summary_pe]. unfold score. cbn [pe0]. rewrite Hm. cbn. exact Hpe.
Qed.

End Claims.

(** *** The claims on concrete inputs *)

(** [no_data] has coverage 0, below 0.6. *)
Lemma low_confidence_override_witness :
  ltb (coverage (score sqrt_pow no_data)) (ratio 6 10) = true /\
  signal (score sqrt_pow no_data) = WATCH /\
  lowConf (score sqrt_pow no_data) = true /\
  baseSignal (score sqrt_pow no_data) = signal_of (scoreFinal (score sqrt_pow no_data)) /\
  r_signal (respond no_data (score sqrt_pow no_data)) = WATCH /\
  diagnostics_low_conf (respond no_data (score sqrt_pow no_data)) = true /\
  diagnostics_base_signal (respond no_data (score sqrt_pow no_data)) =
    signal_of (r_score (respond no_data (score sqrt_pow no_data))).
Proof.
  split; [vm_compute; reflexivity|].
  apply (low_confidence_override sqrt_pow no_data). vm_compute. reflexivity.
Defined.

Lemma empty_series_neutral_witness :
  Forall absent_fields (rows no_data) /\
  scoreNorm (score sqrt_pow no_data) = ofZ 50 /\
  coverage (score sqrt_pow no_data) = ofZ 0 /\
  penaltyFactor (score sqrt_pow no_data) = ratio 7 10 /\
  scoreFinal (score sqrt_pow no_data) = ofZ 35 /\
  baseSignal (score sqrt_pow no_data) = AVOID /\
  signal (score sqrt_pow no_data) = WATCH /\
  lowConf (score sqrt_pow no_data) = true /\
  warnings (score sqrt_pow no_data) =
    ["No usable financial/value signals; neutral score used."%string] /\
  diagnostics_coverage (respond no_data (score sqrt_pow no_data)) = ofZ 0 /\
  diagnostics_penalty_factor (respond no_data (score sqrt_pow no_data)) = ratio 7 10.
Proof.
  assert (H : Forall absent_fields (rows no_data)).
  { repeat constructor. }
  split; [exact H|].
  apply (empty_series_neutral sqrt_pow no_data H); reflexivity.
Defined.

(** C5, as stated, fails: with a price/earnings multiple and nothing else
    the used total weight is 30, none of 0, 35, 65, 70, 100. *)
Lemma value_only_weight_30 :
  usedTotalWeight (score sqrt_pow value_only) = ofZ 30 /\
  neqb (ofZ 30) (ofZ 0) = true /\ neqb (ofZ 30) (ofZ 35) = true /\
  neqb (ofZ 30) (ofZ 65) = true /\ neqb (ofZ 30) (ofZ 70) = true /\
  neqb (ofZ 30) (ofZ 100) = true.
Proof. vm_compute. repeat split; reflexivity. Qed.

(** C6, as stated, fails: with two rows and revenue -100 then 50 the earlier
    endpoint is [<= 0], and revenueCagr is the number -1.5, not null. *)
Lemma yoy_negative_endpoint :
  sort_by year (rows yoy_negative) =
    [row 2022 (Some (ofZ (-100))) None None; row 2023 (Some (ofZ 50)) None None] /\
  leb (ofZ (-100)) (ofZ 0) = true /\
  revCagr (score sqrt_pow yoy_negative) = Some (ratio (-3) 2).
Proof. vm_compute. repeat split; reflexivity. Qed.

(** The year-over-year branch of [revenue_cagr_rule] on [yoy_negative]. *)
Lemma revenue_cagr_rule_witness :
  sort_by year (rows yoy_negative) !! 0%nat = Some (row 2022 (Some (ofZ (-100))) None None) /\
  last (sort_by year (rows yoy_negative)) = Some (row 2023 (Some (ofZ 50)) None None) /\
  revCagr (score sqrt_pow yoy_negative) =
    (if eqb (ofZ (-100)) (ofZ 0) then None
     else Some (sub (div (ofZ 50) (ofZ (-100))) (ofZ 1))).
Proof.
  split; [reflexivity|]. split; [reflexivity|].
  apply (proj1 (proj2 (revenue_cagr_rule sqrt_pow yoy_negative))
           (row 2022 (Some (ofZ (-100))) None None)
           (row 2023 (Some (ofZ 50)) None None)).
  - reflexivity.
  - reflexivity.
  - reflexivity.
  - reflexivity.
  - vm_compute. lia.
  - left. vm_compute. lia.
Defined.

(** The specification's example: P/S = 45. *)
Lemma high_multiple_excluded_witness :
  gtb (ofZ 45) (ofZ 40) = true /\
  scoring_core (score sqrt_pow high_ps) =
    scoring_core (score sqrt_pow
      (with_multiples high_ps {| pe := Some (ofZ 18); ps := None |})) /\
  s_ps (mult (score sqrt_pow high_ps)) = None /\
  "P/S is extremely high; skipped from scoring (not comparable)."%string
    ∈ warnings (score sqrt_pow high_ps) /\
  summary_ps (respond high_ps (score sqrt_pow high_ps)) = Some (ofZ 45).
Proof.
  split; [reflexivity|].
  apply (proj1 (high_multiple_excluded sqrt_pow high_ps
                  {| pe := Some (ofZ 18); ps := Some (ofZ 45) |} (ofZ 45)
                  eq_refl eq_refl)); reflexivity.
Defined.

(** The end-to-end example of the specification: all three components are
    used, the coverage is 1 and the penalty factor 1. *)
Example end_to_end_example :
  used (score sqrt_pow end_to_end) = {| growth := true; margin := true; value := true |} /\
  usedTotalWeight (score sqrt_pow end_to_end) = ofZ 100 /\
  coverage (score sqrt_pow end_to_end) = ofZ 1 /\
  penaltyFactor (score sqrt_pow end_to_end) = ofZ 1 /\
  fcfMargin (score sqrt_pow end_to_end) = Some (ratio 8 100) /\
  fcfTrend (score sqrt_pow end_to_end) = UP /\
  confidence (score sqrt_pow end_to_end) = HIGH.
Proof. vm_compute. repeat split; reflexivity. Qed.

End ScoringProofs.

(** ** The reconciler *)

Module ReconcilerProofs.
Import Financials Range Reference Samples SortFacts.

Lemma row_of_cons r l y :
  row_of (r :: l) y =
    match row_of l y with
    | Some x => Some x
    | None => if decide (year r = y) then Some r else None
    end.
Proof.
  unfold row_of. rewrite filter_cons.
  destruct (decide (year r = y)); [|destruct (last _); reflexivity].
  apply last_cons.
Qed.

Lemma row_of_is_Some l y : is_Some (row_of l y) <-> y ∈ year <$> l.
Proof.
  induction l as [|r l IH].
  { split; [intros [x Hx]; discriminate Hx|intros H; inversion H]. }
  rewrite row_of_cons, fmap_cons, elem_of_cons, <- IH.
  destruct (row_of l y) as [x|]; [split; eauto|].
  destruct (decide (year r = y)) as [<-|Hne]; split; eauto.
  intros [H|[x Hx]]; [congruence|discriminate Hx].
Qed.

Lemma row_of_year l y r : row_of l y = Some r -> r ∈ l /\ year r = y.
Proof.
  unfold row_of. intros H. apply last_Some_elem_of in H.
  apply list_elem_of_filter in H. tauto.
Qed.

(** In a series without a repeated year, [row_of] is the row of that year. *)
Lemma row_of_unique l r : NoDup (year <$> l) -> r ∈ l -> row_of l (year r) = Some r.
Proof.
  induction l as [|x l IH]; [intros _ H; inversion H|].
  rewrite fmap_cons, NoDup_cons, elem_of_cons. intros [Hx Hnd] Hin.
  rewrite row_of_cons. destruct Hin as [->|Hin].
  - destruct (row_of l (year x)) as [z|] eqn:Hz.
    + exfalso. apply Hx. apply row_of_is_Some. rewrite Hz. eauto.
    + rewrite decide_True by reflexivity. reflexivity.
  - rewrite (IH Hnd Hin). reflexivity.
Qed.

(** The two loops that fill [byYear]. *)
Lemma foldl_set_fh_lookup fh : forall (m : gmap Z Pair) y,
  foldl set_fh m fh !! y =
    match row_of fh y with
    | Some r => Some {| p_fh := Some r; p_sec := p_sec (default no_pair (m !! y)) |}
    | None => m !! y
    end.
Proof.
  induction fh as [|r fh IH]; intros m y; [reflexivity|].
  cbn [foldl]. rewrite IH, row_of_cons. unfold set_fh at 1 2.
  destruct (decide (year r = y)) as [<-|Hne].
  - rewrite lookup_insert_eq. cbn. destruct (row_of fh (year r)); reflexivity.
  - rewrite lookup_insert_ne by exact Hne. destruct (row_of fh y); reflexivity.
Qed.

Lemma foldl_set_sec_lookup sec : forall (m : gmap Z Pair) y,
  foldl set_sec m sec !! y =
    match row_of sec y with
    | Some r => Some {| p_fh := p_fh (default no_pair (m !! y)); p_sec := Some r |}
    | None => m !! y
    end.
Proof.
  induction sec as [|r sec IH]; intros m y; [reflexivity|].
  cbn [foldl]. rewrite IH, row_of_cons. unfold set_sec at 1 2.
  destruct (decide (year r = y)) as [<-|Hne].
  - rewrite lookup_insert_eq. cbn. destruct (row_of sec (year r)); reflexivity.
  - rewrite lookup_insert_ne by exact Hne. destruct (row_of sec y); reflexivity.
Qed.

Lemma collect_pair fh sec y :
  default no_pair (collect fh sec !! y) = {| p_fh := row_of fh y; p_sec := row_of sec y |}.
Proof.
  unfold collect. rewrite foldl_set_sec_lookup, foldl_set_fh_lookup, lookup_empty.
  destruct (row_of sec y), (row_of fh y); reflexivity.
Qed.

Lemma collect_dom fh sec y :
  is_Some (collect fh sec !! y) <-> y ∈ (year <$> fh) ++ (year <$> sec).
Proof.
  rewrite elem_of_app, <- !row_of_is_Some.
  unfold collect. rewrite foldl_set_sec_lookup, foldl_set_fh_lookup, lookup_empty.
  destruct (row_of sec y), (row_of fh y); split; eauto;
    first [intros [[x Hx]|[x Hx]]; discriminate Hx | intros [x Hx]; discriminate Hx].
Qed.

Lemma prefer_resolve f a b :
  (prefer f a b, source_of f a b) = resolve (opt_field f a) (opt_field f b).
Proof.
  unfold prefer, source_of, resolve, isNum, asNum.
  destruct (opt_field f a) as [v|]; [destruct (isFinite v)|];
    (destruct (opt_field f b) as [w|]; [destruct (isFinite w)|]); reflexivity.
Qed.

(** C3: each of the three fields of each merged year is resolved on its
    own: the preferred provider's value when it is present and finite
    (provenance finnhub), otherwise the fallback provider's value when that
    is present and finite (provenance sec), otherwise null (provenance none);
    [resolve] is this rule, [row_of] the provider's row for the year. *)
Theorem reconciled_fields (fh sec : list Row) (r : Row) :
  r ∈ mergeRowsPreferFinnhub fh sec ->
  let a := row_of fh (year r) in
  let b := row_of sec (year r) in
  exists mt, meta r = Some mt /\
    (revenue r, revenue_source mt) = resolve (a ≫= revenue) (b ≫= revenue) /\
    (opIncome r, opIncome_source mt) = resolve (a ≫= opIncome) (b ≫= opIncome) /\
    (fcf r, fcf_source mt) = resolve (a ≫= fcf) (b ≫= fcf).
Proof.
  unfold mergeRowsPreferFinnhub. intros Hr.
  apply list_elem_of_fmap in Hr as (y & -> & Hy).
  unfold merge_year. cbn [year meta revenue opIncome fcf]. rewrite collect_pair.
  cbn [p_fh p_sec]. eexists. split; [reflexivity|].
  cbn [revenue_source opIncome_source fcf_source].
  repeat split; apply prefer_resolve.
Qed.

Lemma merged_row_years fh sec :
  year <$> mergeRowsPreferFinnhub fh sec = merged_years (collect fh sec).
Proof.
  unfold mergeRowsPreferFinnhub. rewrite <- list_fmap_compose.
  rewrite <- (list_fmap_id (merged_years _)) at 2. apply list_fmap_ext.
  intros i y _. reflexivity.
Qed.

Lemma sorted_keys_lt (l : list Z) :
  NoDup l -> StronglySorted Z.lt (sort_by id l).
Proof.
  intros Hnd. pose proof (sort_by_sorted id l) as Hs.
  assert (Hnd' : NoDup (sort_by id l)) by (rewrite sort_by_perm; exact Hnd).
  induction Hs as [|x k Hs IH Hall]; [constructor|].
  apply NoDup_cons in Hnd' as [Hx Hk]. constructor; [apply IH; exact Hk|].
  rewrite Forall_forall in *. intros z Hz. specialize (Hall z Hz). unfold key_le, id in Hall.
  assert (x <> z) by (intros ->; contradiction). lia.
Qed.

(** C8: the years of the merged series are strictly increasing, there are at
    most three of them (three, or as many as the two providers have between
    them), each is a year of one of the providers, and every provider year
    that is left out is older than every year that is kept. *)
Theorem merged_years_recent (fh sec : list Row) :
  let out := year <$> mergeRowsPreferFinnhub fh sec in
  let all := (year <$> fh) ++ (year <$> sec) in
  StronglySorted Z.lt out /\
  (length out <= 3)%nat /\
  length out = Nat.min 3 (length (remove_dups all)) /\
  (forall y, y ∈ out -> y ∈ all) /\
  (forall y z, y ∈ all -> y ∉ out -> z ∈ out -> y < z).
Proof.
  intros out all. subst out. rewrite merged_row_years. unfold merged_years, slice_last3.
  set (keys := (map_to_list (collect fh sec)).*1).
  assert (Hkeys : forall y, y ∈ keys <-> y ∈ all).
  { intros y. unfold all. rewrite <- collect_dom. unfold keys.
    rewrite list_elem_of_fmap. split.
    - intros ([k v] & -> & H). apply elem_of_map_to_list in H. cbn. eauto.
    - intros [v Hv]. exists (y, v). split; [reflexivity|]. apply elem_of_map_to_list. exact Hv. }
  assert (Hnd : NoDup keys) by apply NoDup_fst_map_to_list.
  pose proof (sorted_keys_lt keys Hnd) as Hsorted.
  set (sorted := sort_by id keys) in *.
  assert (Hlen : length sorted = length (remove_dups all)).
  { unfold sorted. rewrite sort_by_length. apply Permutation_length.
    apply NoDup_Permutation; [exact Hnd|apply NoDup_remove_dups|].
    intros y. rewrite elem_of_remove_dups. apply Hkeys. }
  rewrite <- (take_drop (length sorted - 3) sorted) in Hsorted.
  apply StronglySorted_app in Hsorted as (Hlt & _ & Hdrop).
  split; [exact Hdrop|].
  split; [rewrite length_drop; lia|].
  split; [rewrite length_drop; lia|].
  split.
  - intros y Hy. apply Hkeys. apply subseteq_drop in Hy.
    unfold sorted in Hy. rewrite sort_by_perm in Hy. exact Hy.
  - intros y z Hy Hny Hz. apply Hlt; [|exact Hz].
    apply Hkeys in Hy. rewrite <- (sort_by_perm id keys) in Hy. fold sorted in Hy.
    rewrite <- (take_drop (length sorted - 3) sorted) in Hy.
    apply elem_of_app in Hy as [Hy|Hy]; [exact Hy|contradiction].
Qed.

Section Degradation.
Context {SecCompanyFacts FinnhubFinancialsResponse : Type}.
Variable toUpperTicker : string -> string.
Variable buildRowsFromSEC : SecCompanyFacts -> list Row.
Variable parseFinnhubAnnualFY : FinnhubFinancialsResponse -> list Row.
Variable SEC_USER_AGENT FINNHUB_API_KEY : string.
Variable fetchSecTickerMap : string -> Outcome (gmap string string).
Variable fetchSecCompanyFacts : string -> string -> Outcome SecCompanyFacts.
Variable fetchFinnhubFinancials : string -> string -> Outcome FinnhubFinancialsResponse.
Variable fetchFinnhubMultiples : string -> string -> Outcome Multiples.
Variable pow : number -> number -> number.

Lemma score_empty_series (t : string) :
  Recommendation.respond (empty_series t) (Recommendation.score pow (empty_series t)) =
    neutral_response no_mapping_note.
Proof. vm_compute. reflexivity. Qed.

(** C9: when the directory has no mapping for the ticker, the financials
    route answers with status 200 and an empty series (no rows, null
    multiples, a note that says so) instead of an error, and the
    recommendation route scores it with every input absent. *)
Theorem unknown_ticker_degrades (raw : string) (tickerMap : gmap string string) :
  nonempty raw = true ->
  nonempty (toUpperTicker raw) = true ->
  nonempty SEC_USER_AGENT = true ->
  fetchSecTickerMap SEC_USER_AGENT = Resolved tickerMap ->
  tickerMap !! toUpperTicker (toUpperTicker raw) = None ->
  GET toUpperTicker buildRowsFromSEC parseFinnhubAnnualFY SEC_USER_AGENT FINNHUB_API_KEY
      fetchSecTickerMap fetchSecCompanyFacts fetchFinnhubFinancials fetchFinnhubMultiples
      (Some (toUpperTicker raw)) =
    Json 200 (empty_series (toUpperTicker (toUpperTicker raw))) /\
  Pipeline.recommend pow
      (GET toUpperTicker buildRowsFromSEC parseFinnhubAnnualFY SEC_USER_AGENT
           FINNHUB_API_KEY fetchSecTickerMap fetchSecCompanyFacts fetchFinnhubFinancials
           fetchFinnhubMultiples)
      toUpperTicker (Some raw) =
    Json 200 (neutral_response no_mapping_note).
Proof.
  intros Hraw Hticker Hua Hmap Hlook.
  set (financials_GET := GET toUpperTicker buildRowsFromSEC parseFinnhubAnnualFY
         SEC_USER_AGENT FINNHUB_API_KEY fetchSecTickerMap fetchSecCompanyFacts
         fetchFinnhubFinancials fetchFinnhubMultiples).
  assert (Hfin : financials_GET (Some (toUpperTicker raw)) =
                 Json 200 (empty_series (toUpperTicker (toUpperTicker raw)))).
  { unfold financials_GET, GET. destruct (toUpperTicker raw) as [|c t] eqn:E;
      [discriminate Hticker|].
    rewrite Hua. cbn [negb]. rewrite Hmap, Hlook. reflexivity. }
  split; [exact Hfin|].
  unfold Pipeline.recommend.
  change (default EmptyString (Some raw)) with raw.
  rewrite Hfin.
  unfold Recommendation.GET. destruct raw as [|c t]; [discriminate Hraw|].
  change (Recommendation.ok (Json 200 (empty_series (toUpperTicker (toUpperTicker (String c t))))))
    with true.
  cbn [negb Recommendation.payload_of].
  rewrite score_empty_series. reflexivity.
Qed.

End Degradation.

(** *** The claims on concrete inputs *)

(** The specification's example: the preferred series has no revenue for
    2023, the fallback has 100; the operating income comes from the
    preferred series. *)
Lemma reconciled_fields_witness :
  merged_2023 ∈ mergeRowsPreferFinnhub preferred_rows fallback_rows /\
  exists mt, meta merged_2023 = Some mt /\
    (revenue merged_2023, revenue_source mt) =
      resolve (row_of preferred_rows 2023 ≫= revenue) (row_of fallback_rows 2023 ≫= revenue) /\
    (opIncome merged_2023, opIncome_source mt) =
      resolve (row_of preferred_rows 2023 ≫= opIncome)
              (row_of fallback_rows 2023 ≫= opIncome) /\
    (fcf merged_2023, fcf_source mt) =
      resolve (row_of preferred_rows 2023 ≫= fcf) (row_of fallback_rows 2023 ≫= fcf).
Proof.
  assert (H : merged_2023 ∈ mergeRowsPreferFinnhub preferred_rows fallback_rows).
  { vm_compute. right. left. }
  split; [exact H|].
  exact (reconciled_fields preferred_rows fallback_rows merged_2023 H).
Defined.

(** A ticker the directory does not know, with no aggregated-provider key. *)
Lemma unknown_ticker_degrades_witness :
  ticker_map !! "ZZZZ"%string = None /\
  GET (fun t : string => t) (fun _ : unit => []) (fun _ : unit => [])
      sample_agent EmptyString
      (fun _ => Resolved ticker_map) (fun _ _ => Threw "not fetched")
      (fun _ _ => Threw "no key") (fun _ _ => Threw "no key")
      (Some "ZZZZ"%string) =
    Json 200 (empty_series "ZZZZ") /\
  Pipeline.recommend sqrt_pow
      (GET (fun t : string => t) (fun _ : unit => []) (fun _ : unit => [])
           sample_agent EmptyString
           (fun _ => Resolved ticker_map) (fun _ _ => Threw "not fetched")
           (fun _ _ => Threw "no key") (fun _ _ => Threw "no key"))
      (fun t : string => t) (Some "ZZZZ"%string) =
    Json 200 (neutral_response no_mapping_note).
Proof.
  assert (H : ticker_map !! "ZZZZ"%string = None) by (vm_compute; reflexivity).
  split; [exact H|].
  apply (unknown_ticker_degrades (fun t : string => t) (fun _ : unit => [])
           (fun _ : unit => []) sample_agent EmptyString
           (fun _ => Resolved ticker_map) (fun _ _ => Threw "not fetched")
           (fun _ _ => Threw "no key") (fun _ _ => Threw "no key")
           sqrt_pow "ZZZZ" ticker_map); first [reflexivity | exact H].
Defined.

End ReconcilerProofs.
(** ** [padCik10] *)

Module CikProofs.
Import Stdlib.Strings.Ascii Sec Decimal.

Lemma length_append (a b : string) :
  String.length (a +:+ b) = (String.length a + String.length b)%nat.
Proof. induction a as [|c a IH]; simpl; [reflexivity|]. f_equal. exact IH. Qed.

Lemma chars_append (a b : string) : chars (a +:+ b) = chars a ++ chars b.
Proof. induction a as [|c a IH]; simpl; [reflexivity|]. f_equal. exact IH. Qed.

Lemma length_zeros (n : nat) :
  String.length (string_of_list_ascii (replicate n "0"%char)) = n.
Proof. induction n as [|n IH]; cbn; [reflexivity|]. f_equal. exact IH. Qed.

Lemma chars_zeros (n : nat) :
  chars (string_of_list_ascii (replicate n "0"%char)) = replicate n "0"%char.
Proof. unfold chars. apply list_ascii_of_string_of_list_ascii. Qed.

Lemma digits_only_digits (s : string) :
  Forall (fun c => is_digit c = true) (chars (digits_only s)).
Proof.
  induction s as [|c s IH]; cbn; [constructor|].
  destruct (is_digit c) eqn:E; [|exact IH].
  cbn. constructor; [exact E|exact IH].
Qed.

Lemma digits_only_id (s : string) :
  Forall (fun c => is_digit c = true) (chars s) -> digits_only s = s.
Proof.
  induction s as [|c s IH]; cbn; [reflexivity|].
  intros H. inversion H as [|? ? Hc Hs]; subst.
  rewrite Hc. f_equal. apply IH. exact Hs.
Qed.

Lemma digits_only_append (a b : string) :
  digits_only (a +:+ b) = digits_only a +:+ digits_only b.
Proof.
  induction a as [|c a IH]; simpl; [reflexivity|].
  destruct (is_digit c); simpl; rewrite IH; reflexivity.
Qed.

Lemma padStart0_length (n : nat) (s : string) :
  String.length (padStart0 n s) = Nat.max n (String.length s).
Proof. unfold padStart0. rewrite length_append, length_zeros. lia. Qed.

Lemma padStart0_digits (n : nat) (s : string) :
  Forall (fun c => is_digit c = true) (chars s) ->
  Forall (fun c => is_digit c = true) (chars (padStart0 n s)).
Proof.
  intros H. unfold padStart0. rewrite chars_append, chars_zeros.
  apply Forall_app. split; [|exact H].
  apply Forall_replicate. reflexivity.
Qed.

Lemma padStart0_long (n : nat) (s : string) :
  (n <= String.length s)%nat -> padStart0 n s = s.
Proof.
  intros H. unfold padStart0.
  replace (n - String.length s)%nat with 0%nat by lia. reflexivity.
Qed.

Lemma padCik10_digits (cik : Cik) :
  Forall (fun c => is_digit c = true) (chars (padCik10 cik)).
Proof. unfold padCik10. apply padStart0_digits, digits_only_digits. Qed.


(** X2: [padCik10] is idempotent, and leaves a string of ten or more digits as
    it is. *)
Theorem padCik10_idempotent (cik : Cik) :
  padCik10 (CikString (padCik10 cik)) = padCik10 cik /\
  forall s, Forall (fun c => is_digit c = true) (chars s) ->
            (10 <= String.length s)%nat -> padCik10 (CikString s) = s.
Proof.
  assert (forall s, Forall (fun c => is_digit c = true) (chars s) ->
            (10 <= String.length s)%nat -> padCik10 (CikString s) = s) as H.
  { intros s Hd Hl. unfold padCik10. cbn [String_of_cik].
    rewrite (digits_only_id s Hd). apply padStart0_long. exact Hl. }
  split; [|exact H].
  apply H; [apply padCik10_digits|].
  unfold padCik10. rewrite padStart0_length. lia.
Qed.

Lemma read_digits_append (a b : string) (acc : Z) :
  read_digits acc (a +:+ b) = read_digits (read_digits acc a) b.
Proof. revert acc. induction a as [|c a IH]; intros acc; simpl; [reflexivity|]. apply IH. Qed.

Lemma read_digits_zeros (n : nat) :
  read_digits 0 (string_of_list_ascii (replicate n "0"%char)) = 0.
Proof. induction n as [|n IH]; cbn; [reflexivity|]. exact IH. Qed.

Lemma is_nat_pretty_N_char (d : N) :
  (d < 10)%N -> Ascii.is_nat (pretty_N_char d) = Some (N.to_nat d).
Proof.
  intros H.
  assert (d = 0 \/ d = 1 \/ d = 2 \/ d = 3 \/ d = 4 \/ d = 5 \/ d = 6 \/ d = 7 \/
          d = 8 \/ d = 9)%N as Hd by lia.
  repeat (destruct Hd as [->|Hd]; [reflexivity|]). subst. reflexivity.
Qed.

(** The printer of decimals: the digits of [x] are put in front of [s]. *)
Lemma pretty_N_go_spec (x : N) :
  forall s,
    read_digits 0 (pretty_N_go x s) = read_digits (Z.of_N x) s /\
    (Forall (fun c => is_digit c = true) (chars s) ->
     Forall (fun c => is_digit c = true) (chars (pretty_N_go x s))) /\
    forall k : nat, (x < 10 ^ N.of_nat k)%N ->
      (String.length (pretty_N_go x s) <= k + String.length s)%nat.
Proof.
  induction (N.lt_wf_0 x) as [x _ IH]. intros s.
  assert (x = 0 \/ 0 < x)%N as [->|Hpos] by lia.
  - rewrite pretty_N_go_0. split; [reflexivity|]. split; [tauto|]. intros k _. lia.
  - rewrite pretty_N_go_step by exact Hpos.
    assert (x `mod` 10 < 10)%N as Hmod by (apply N.mod_lt; lia).
    assert (x `div` 10 < x)%N as Hdiv by (apply N.div_lt; lia).
    destruct (IH _ Hdiv (String (pretty_N_char (x `mod` 10)) s)) as (Hr & Hd & Hl).
    split; [|split].
    + rewrite Hr. cbn [read_digits]. rewrite is_nat_pretty_N_char by exact Hmod.
      cbn [default]. unfold id. f_equal. rewrite N_nat_Z.
      pose proof (N.div_mod x 10 ltac:(lia)) as E.
      apply (f_equal Z.of_N) in E. rewrite N2Z.inj_add, N2Z.inj_mul in E.
      change (Z.of_N 10) with 10 in E. lia.
    + intros Hs. apply Hd. cbn. constructor; [|exact Hs].
      unfold is_digit. rewrite is_nat_pretty_N_char by exact Hmod. reflexivity.
    + intros k Hk. destruct k as [|k].
      { cbn in Hk. lia. }
      specialize (Hl k). cbn [String.length] in Hl.
      assert (x `div` 10 < 10 ^ N.of_nat k)%N.
      { apply N.Div0.div_lt_upper_bound.
        replace (N.of_nat (S k)) with (N.succ (N.of_nat k)) in Hk by lia.
        rewrite N.pow_succ_r' in Hk. exact Hk. }
      specialize (Hl H). lia.
Qed.

Lemma pretty_positive_spec (p : positive) :
  read_decimal (pretty p) = Z.pos p /\
  Forall (fun c => is_digit c = true) (chars (pretty p)) /\
  forall k : nat, (Z.pos p < 10 ^ Z.of_nat k) ->
    (String.length (pretty p) <= k)%nat.
Proof.
  unfold pretty, pretty_positive, pretty, pretty_N.
  destruct (decide (N.pos p = 0%N)) as [E|_]; [discriminate E|].
  destruct (pretty_N_go_spec (N.pos p) EmptyString) as (Hr & Hd & Hl).
  split; [exact Hr|]. split; [apply Hd; constructor|].
  intros k Hk. specialize (Hl k). cbn [String.length] in Hl.
  rewrite Nat.add_0_r in Hl. apply Hl.
  assert (Z.of_N (N.pos p) < Z.of_N (10 ^ N.of_nat k)) as H; [|lia].
  rewrite N2Z.inj_pow, nat_N_Z. exact Hk.
Qed.

(** The digits that [padCik10] keeps of an integer: those of its absolute
    value. *)
Lemma digits_only_pretty (n : Z) :
  digits_only (pretty n) = pretty (Z.abs n).
Proof.
  destruct n as [|p|p]; [reflexivity| |].
  - apply digits_only_id. apply pretty_positive_spec.
  - change (pretty (Z.neg p)) with ("-" +:+ pretty p)%string.
    cbn [Z.abs]. change (pretty (Z.pos p)) with (pretty p).
    rewrite digits_only_append. cbn.
    apply digits_only_id. apply pretty_positive_spec.
Qed.

Lemma pretty_abs_spec (n : Z) :
  read_decimal (pretty (Z.abs n)) = Z.abs n /\
  forall k : nat, (0 < k)%nat -> Z.abs n < 10 ^ Z.of_nat k ->
    (String.length (pretty (Z.abs n)) <= k)%nat.
Proof.
  destruct n as [|p|p]; cbn [Z.abs].
  - split; [reflexivity|]. intros k Hk _.
    change (String.length (pretty (Z.abs 0))) with 1%nat. lia.
  - change (pretty (Z.pos p)) with (pretty p).
    destruct (pretty_positive_spec p) as (Hr & _ & Hl). split; [exact Hr|].
    intros k _. apply Hl.
  - change (pretty (Z.pos p)) with (pretty p).
    destruct (pretty_positive_spec p) as (Hr & _ & Hl). split; [exact Hr|].
    intros k _. apply Hl.
Qed.

(** X3: A CIK number of at most ten digits comes out as exactly ten characters
    that read back as the number (its absolute value, the sign being
    dropped with the other non-digits). *)
Theorem padCik10_number (n : Z) :
  Z.abs n < 10 ^ 10 ->
  String.length (padCik10 (CikNumber n)) = 10%nat /\
  read_decimal (padCik10 (CikNumber n)) = Z.abs n.
Proof.
  intros Hn. unfold padCik10. cbn [String_of_cik].
  rewrite digits_only_pretty.
  destruct (pretty_abs_spec n) as (Hr & Hl).
  specialize (Hl 10%nat ltac:(lia) Hn).
  split.
  - rewrite padStart0_length. lia.
  - unfold padStart0, read_decimal. rewrite read_digits_append, read_digits_zeros.
    exact Hr.
Qed.

Lemma padCik10_number_witness :
  String.length (padCik10 (CikNumber 320193)) = 10%nat /\
  read_decimal (padCik10 (CikNumber 320193)) = Z.abs 320193.
Proof. apply (padCik10_number 320193). reflexivity. Defined.

Example padCik10_example : padCik10 (CikNumber 320193) = "0000320193"%string.
Proof. reflexivity. Qed.

End CikProofs.
(** ** Sorting with a comparator *)

Module SortWithFacts.

Section Facts.
Context {A : Type} (compareFn : A -> A -> Z).

Lemma insert_with_perm (x : A) (l : list A) : insert_with compareFn x l ≡ₚ x :: l.
Proof.
  induction l as [|y l IH]; cbn; [reflexivity|].
  destruct (compareFn x y <=? 0); [reflexivity|].
  rewrite IH. apply Permutation_swap.
Qed.

Lemma sort_with_perm (l : list A) : sort_with compareFn l ≡ₚ l.
Proof.
  induction l as [|x l IH]; cbn; [reflexivity|].
  rewrite insert_with_perm, IH. reflexivity.
Qed.

Lemma sort_with_elem (l : list A) (x : A) : x ∈ sort_with compareFn l <-> x ∈ l.
Proof. rewrite sort_with_perm. reflexivity. Qed.

Lemma consistent_total (a b : A) :
  consistent compareFn -> compareFn a b <= 0 \/ compareFn b a <= 0.
Proof.
  intros [Hs _]. destruct (Z_le_gt_dec (compareFn a b) 0) as [H|H]; [left; exact H|].
  right. destruct (Hs b a) as [_ H']. specialize (H' ltac:(lia)). lia.
Qed.

Lemma insert_with_sorted (x : A) (l : list A) :
  consistent compareFn ->
  StronglySorted (ordered_by compareFn) l ->
  StronglySorted (ordered_by compareFn) (insert_with compareFn x l).
Proof.
  intros Hc. induction 1 as [|y l Hl IH Hy]; cbn.
  - constructor; constructor.
  - destruct (Z.leb_spec (compareFn x y) 0) as [Hxy|Hxy].
    + constructor; [constructor; assumption|].
      constructor; [exact Hxy|].
      eapply Forall_impl; [exact Hy|]. intros z Hz.
      destruct Hc as [_ Ht]. exact (Ht x y z Hxy Hz).
    + constructor; [exact IH|].
      rewrite insert_with_perm. constructor; [|exact Hy].
      destruct (consistent_total y x Hc) as [H|H]; [exact H|].
      unfold ordered_by. lia.
Qed.

Lemma sort_with_sorted (l : list A) :
  consistent compareFn -> StronglySorted (ordered_by compareFn) (sort_with compareFn l).
Proof.
  intros Hc. induction l as [|x l IH]; cbn; [constructor|].
  apply insert_with_sorted; assumption.
Qed.
End Facts.

End SortWithFacts.

(** ** The SEC extractor *)

Module SecProofs.
Import Financials Sec SecReference SortWithFacts.

Lemma last_for_snoc (l : list FactPoint) (p : FactPoint) (y : Z) :
  last_for (l ++ [p]) y = if decide (fy p = Some y) then Some p else last_for l y.
Proof.
  unfold last_for. rewrite filter_app, filter_cons, filter_nil.
  destruct (decide (fy p = Some y)).
  - apply last_snoc.
  - rewrite app_nil_r. reflexivity.
Qed.

Lemma annual_point_spec (p : FactPoint) :
  annual_point p = true <->
  exists y, fp p = Some "FY"%string /\ isNum (val p) = true /\ fy p = Some y /\ y <> 0.
Proof.
  unfold annual_point. rewrite !andb_true_iff, bool_decide_eq_true.
  destruct (fy p) as [y|].
  - rewrite negb_true_iff, Z.eqb_neq. split.
    + intros [[H1 H2] H3]. exists y. tauto.
    + intros (y' & H1 & H2 & H3 & H4). injection H3 as <-. tauto.
  - split; [intros [_ H]; discriminate H|intros (y & _ & _ & H & _); discriminate H].
Qed.

Lemma isNum_asNum (x : option number) : isNum x = true -> asNum x = x.
Proof.
  destruct x as [v|]; cbn; [|discriminate]. intros ->. reflexivity.
Qed.

Lemma foldl_set_point_lookup (l : list FactPoint) (m : gmap Z number) (y : Z) :
  Forall (fun p => annual_point p = true) l ->
  foldl set_point m l !! y =
    match last_for l y with
    | Some p => val p
    | None => m !! y
    end.
Proof.
  induction l as [|p l IH] using rev_ind; intros Hl; [reflexivity|].
  apply Forall_app in Hl as [Hl Hp]. inversion Hp as [|? ? Hp' _]; subst.
  rewrite foldl_app, last_for_snoc. cbn [foldl].
  apply annual_point_spec in Hp' as (y' & _ & Hv & Hy & _).
  unfold set_point. rewrite Hy, (isNum_asNum _ Hv).
  destruct (val p) as [v|] eqn:Ev; [|discriminate Hv].
  destruct (decide (Some y' = Some y)) as [E|E].
  - injection E as ->. rewrite Ev. apply lookup_insert_eq.
  - rewrite lookup_insert_ne by congruence. apply IH. exact Hl.
Qed.

Section Extract.
Variable localeCompare : string -> string -> Z.

Lemma annual_elem facts concept p :
  p ∈ annual localeCompare facts concept <-> p ∈ series facts concept /\ annual_point p = true.
Proof. unfold SecReference.annual. rewrite sort_with_elem, list_elem_of_filter. tauto. Qed.

Lemma extract_lookup facts concept y :
  extractAnnualByFY localeCompare facts concept !! y =
    match last_for (annual localeCompare facts concept) y with
    | Some p => val p
    | None => None
    end.
Proof.
  unfold extractAnnualByFY. fold (series facts concept). fold (annual localeCompare facts concept).
  rewrite foldl_set_point_lookup.
  - destruct (last_for _ _); [reflexivity|apply lookup_empty].
  - apply Forall_forall. intros p Hp. apply annual_elem in Hp. tauto.
Qed.

Lemma last_for_elem (l : list FactPoint) (y : Z) (p : FactPoint) :
  last_for l y = Some p -> p ∈ l /\ fy p = Some y.
Proof.
  unfold last_for. intros H. apply last_Some_elem_of in H.
  apply list_elem_of_filter in H. tauto.
Qed.

Lemma last_for_is_Some (l : list FactPoint) (y : Z) :
  is_Some (last_for l y) <-> exists p, p ∈ l /\ fy p = Some y.
Proof.
  split.
  - intros [p Hp]. exists p. apply last_for_elem. exact Hp.
  - intros (p & Hp & Hy). unfold last_for.
    destruct (last (filter _ l)) eqn:E; [eauto|].
    apply last_None in E.
    assert (p ∈ filter (fun p => fy p = Some y) l) as H
      by (apply list_elem_of_filter; tauto).
    rewrite E in H. inversion H.
Qed.

Lemma extract_is_Some facts concept y :
  is_Some (extractAnnualByFY localeCompare facts concept !! y) <->
  exists p, p ∈ series facts concept /\ annual_for y p.
Proof.
  rewrite extract_lookup. split.
  - intros [v Hv]. destruct (last_for _ _) as [p|] eqn:E; [|discriminate Hv].
    apply last_for_elem in E as [Hp Hy]. apply annual_elem in Hp as [Hp Ha].
    exists p. split; [exact Hp|].
    apply annual_point_spec in Ha as (y' & H1 & H2 & H3 & H4).
    unfold annual_for. rewrite H3 in Hy. injection Hy as ->. tauto.
  - intros (p & Hp & H1 & H2 & H3 & H4).
    assert (is_Some (last_for (annual localeCompare facts concept) y)) as [q Hq].
    { apply last_for_is_Some. exists p. split; [|exact H3].
      apply annual_elem. split; [exact Hp|].
      apply annual_point_spec. exists y. tauto. }
    rewrite Hq. apply last_for_elem in Hq as [Hq _].
    apply annual_elem in Hq as [_ Hq].
    apply annual_point_spec in Hq as (? & _ & Hq & _).
    destruct (val q); [eauto|discriminate Hq].
Qed.

Lemma extract_Some facts concept y v :
  extractAnnualByFY localeCompare facts concept !! y = Some v ->
  isFinite v = true /\
  exists p, p ∈ series facts concept /\ annual_for y p /\ val p = Some v.
Proof.
  rewrite extract_lookup.
  destruct (last_for _ _) as [p|] eqn:E; [|discriminate].
  intros Hv. apply last_for_elem in E as [Hp Hy]. apply annual_elem in Hp as [Hp Ha].
  apply annual_point_spec in Ha as (y' & H1 & H2 & H3 & H4).
  rewrite H3 in Hy. injection Hy as ->.
  split; [rewrite Hv in H2; exact H2|].
  exists p. unfold annual_for. tauto.
Qed.

(** X4: The years [extractAnnualByFY] returns are those of the annual figures
    of the concept: points with [fp] equal to ["FY"], a finite value and a
    fiscal year other than 0.  Each value is a finite number that such a
    point reports for the year; a missing concept gives the empty map. *)
Theorem annual_figures_only facts concept :
  (forall y, is_Some (extractAnnualByFY localeCompare facts concept !! y) <->
             exists p, p ∈ series facts concept /\ annual_for y p) /\
  (forall y v, extractAnnualByFY localeCompare facts concept !! y = Some v ->
               isFinite v = true /\
               exists p, p ∈ series facts concept /\ annual_for y p /\ val p = Some v) /\
  (facts !! concept = None -> extractAnnualByFY localeCompare facts concept = ∅).
Proof.
  split; [exact (extract_is_Some facts concept)|].
  split; [exact (extract_Some facts concept)|].
  intros Hn. unfold extractAnnualByFY. rewrite Hn. reflexivity.
Qed.

Lemma last_for_latest (l : list FactPoint) (y : Z) (p : FactPoint) :
  consistent (by_filed localeCompare) ->
  StronglySorted (ordered_by (by_filed localeCompare)) l ->
  last_for l y = Some p ->
  forall q, q ∈ l -> fy q = Some y -> by_filed localeCompare q p <= 0.
Proof.
  intros Hc Hs. induction l as [|x l IH] using rev_ind; [discriminate|].
  rewrite last_for_snoc. intros Hp q Hq Hy.
  apply StronglySorted_app in Hs as (Hlt & Hs & _).
  apply elem_of_app in Hq as [Hq|Hq].
  - destruct (decide (fy x = Some y)) as [Hx|Hx].
    + injection Hp as <-. apply (Hlt q x Hq). left.
    + exact (IH Hs Hp q Hq Hy).
  - apply list_elem_of_singleton in Hq as ->.
    destruct (decide (fy x = Some y)) as [Hx|Hx]; [|contradiction].
    injection Hp as <-.
    destruct (consistent_total _ x x Hc); assumption.
Qed.

(** X5: When a fiscal year is reported more than once, the figure that was filed
    last is the one kept: no annual figure of the year compares later by its
    filing date than the one [extractAnnualByFY] returns. *)
Theorem latest_filing_wins facts concept y v :
  consistent localeCompare ->
  extractAnnualByFY localeCompare facts concept !! y = Some v ->
  exists p, p ∈ series facts concept /\ annual_for y p /\ val p = Some v /\
            forall q, q ∈ series facts concept -> annual_for y q ->
                      by_filed localeCompare q p <= 0.
Proof.
  intros Hc. rewrite extract_lookup.
  destruct (last_for _ _) as [p|] eqn:E; [|discriminate].
  intros Hv. exists p.
  assert (consistent (by_filed localeCompare)) as Hc'.
  { destruct Hc as [H1 H2]. split; unfold by_filed.
    - intros a b. apply H1.
    - intros a b c. apply H2. }
  pose proof (last_for_elem _ _ _ E) as [Hp Hy].
  apply annual_elem in Hp as [Hp Ha].
  apply annual_point_spec in Ha as (y' & H1 & H2 & H3 & H4).
  rewrite H3 in Hy. injection Hy as ->.
  split; [exact Hp|]. split; [unfold annual_for; tauto|]. split; [exact Hv|].
  intros q Hq (Q1 & Q2 & Q3 & Q4).
  eapply last_for_latest; [exact Hc'| |exact E| |exact Q3].
  - apply sort_with_sorted. exact Hc'.
  - apply annual_elem. split; [exact Hq|].
    apply annual_point_spec. exists y. tauto.
Qed.
End Extract.

End SecProofs.
(** ** The three most recent years *)

Module RecentYears.
Import SortFacts.

Lemma last3_recent (keys : list Z) :
  NoDup keys ->
  StronglySorted Z.lt (slice_last3 (sort_by id keys)) /\
  length (slice_last3 (sort_by id keys)) = Nat.min 3 (length keys) /\
  (forall y, y ∈ slice_last3 (sort_by id keys) -> y ∈ keys) /\
  (forall y z, y ∈ keys -> y ∉ slice_last3 (sort_by id keys) ->
               z ∈ slice_last3 (sort_by id keys) -> y < z).
Proof.
  intros Hnd. unfold slice_last3.
  pose proof (ReconcilerProofs.sorted_keys_lt keys Hnd) as Hsorted.
  pose proof (sort_by_length id keys) as Hlen.
  pose proof (sort_by_perm id keys) as Hperm.
  set (sorted := sort_by id keys) in *.
  rewrite <- (take_drop (length sorted - 3) sorted) in Hsorted.
  apply StronglySorted_app in Hsorted as (Hlt & _ & Hdrop).
  split; [exact Hdrop|].
  split; [rewrite length_drop; lia|].
  split.
  - intros y Hy. apply subseteq_drop in Hy. rewrite Hperm in Hy. exact Hy.
  - intros y z Hy Hny Hz. apply Hlt; [|exact Hz].
    rewrite <- Hperm in Hy.
    rewrite <- (take_drop (length sorted - 3) sorted) in Hy.
    apply elem_of_app in Hy as [Hy|Hy]; [exact Hy|contradiction].
Qed.

(** Sorting and keeping the last three leaves a short increasing list as it
    is. *)
Lemma last3_sorted_id (l : list Z) :
  StronglySorted Z.lt l -> (length l <= 3)%nat -> slice_last3 (sort_by id l) = l.
Proof.
  intros Hs Hl. unfold slice_last3. rewrite sort_by_length.
  replace (length l - 3)%nat with 0%nat by lia. rewrite drop_0.
  clear Hl. induction Hs as [|x l Hs IH Hall]; [reflexivity|].
  cbn [sort_by foldr]. fold (sort_by id l). rewrite IH.
  destruct l as [|y l]; [reflexivity|].
  cbn [insert_sorted]. inversion Hall as [|? ? Hxy _]; subst.
  unfold id at 1 2. destruct (Z.leb_spec x y); [reflexivity|lia].
Qed.

End RecentYears.

(** ** The rows built from the SEC document *)

Module SecRowsProofs.
Import Financials Sec SecReference SortFacts SecProofs RecentYears.

Section Rows.
Variable localeCompare : string -> string -> Z.

Lemma sec_years_eq facts :
  year <$> parsed_rows (buildRowsFromSEC localeCompare facts) =
  slice_last3 (sort_by id (elements
    (dom (extractAnnualByFY localeCompare facts "Revenues") ∪ dom (extractAnnualByFY localeCompare facts "OperatingIncomeLoss") ∪
     dom (extractAnnualByFY localeCompare facts "NetCashProvidedByUsedInOperatingActivities") ∪
     dom (extractAnnualByFY localeCompare facts "PaymentsToAcquirePropertyPlantAndEquipment")))).
Proof.
  unfold buildRowsFromSEC. cbn [parsed_rows]. rewrite <- list_fmap_compose.
  rewrite <- (list_fmap_id (slice_last3 _)) at 2. apply list_fmap_ext.
  intros i y _. reflexivity.
Qed.

Lemma reported_keys facts y :
  y ∈ elements
    (dom (extractAnnualByFY localeCompare facts "Revenues") ∪ dom (extractAnnualByFY localeCompare facts "OperatingIncomeLoss") ∪
     dom (extractAnnualByFY localeCompare facts "NetCashProvidedByUsedInOperatingActivities") ∪
     dom (extractAnnualByFY localeCompare facts "PaymentsToAcquirePropertyPlantAndEquipment")) <->
  reported facts y.
Proof.
  rewrite elem_of_elements, !elem_of_union, !elem_of_dom, !extract_is_Some.
  unfold reported, sec_concepts. split.
  - intros [[[(p & H)|(p & H)]|(p & H)]|(p & H)];
      [exists "Revenues"%string, p
      |exists "OperatingIncomeLoss"%string, p
      |exists "NetCashProvidedByUsedInOperatingActivities"%string, p
      |exists "PaymentsToAcquirePropertyPlantAndEquipment"%string, p];
      (split; [rewrite !elem_of_cons; tauto|exact H]).
  - intros (c & p & Hc & H).
    repeat (apply elem_of_cons in Hc as [->|Hc]; [eauto 6|]).
    inversion Hc.
Qed.

Lemma sec_years_sorted facts :
  StronglySorted Z.lt (year <$> parsed_rows (buildRowsFromSEC localeCompare facts)) /\
  (length (parsed_rows (buildRowsFromSEC localeCompare facts)) <= 3)%nat.
Proof.
  pose proof (sec_years_eq facts) as E.
  destruct (last3_recent _ (NoDup_elements
    (dom (extractAnnualByFY localeCompare facts "Revenues") ∪
     dom (extractAnnualByFY localeCompare facts "OperatingIncomeLoss") ∪
     dom (extractAnnualByFY localeCompare facts "NetCashProvidedByUsedInOperatingActivities") ∪
     dom (extractAnnualByFY localeCompare facts "PaymentsToAcquirePropertyPlantAndEquipment"))))
    as (H1 & H2 & _).
  rewrite <- E in H1, H2. split; [exact H1|].
  rewrite length_fmap in H2. lia.
Qed.

(** X6: [buildRowsFromSEC] returns at most three rows, in strictly increasing
    order of year; each year has an annual figure of one of the four
    concepts, and every such year that is left out is older than the years
    kept. *)
Theorem sec_rows_recent facts :
  let years := year <$> parsed_rows (buildRowsFromSEC localeCompare facts) in
  StronglySorted Z.lt years /\
  (length years <= 3)%nat /\
  (forall y, y ∈ years -> reported facts y) /\
  (forall y z, reported facts y -> y ∉ years -> z ∈ years -> y < z).
Proof.
  intros years. subst years. rewrite sec_years_eq.
  destruct (last3_recent _ (NoDup_elements
    (dom (extractAnnualByFY localeCompare facts "Revenues") ∪ dom (extractAnnualByFY localeCompare facts "OperatingIncomeLoss") ∪
     dom (extractAnnualByFY localeCompare facts "NetCashProvidedByUsedInOperatingActivities") ∪
     dom (extractAnnualByFY localeCompare facts "PaymentsToAcquirePropertyPlantAndEquipment"))))
    as (H1 & H2 & H3 & H4).
  split; [exact H1|]. split; [lia|]. split.
  - intros y Hy. apply reported_keys, H3, Hy.
  - intros y z Hy. apply H4. apply reported_keys. exact Hy.
Qed.

Lemma extract_finite facts concept y :
  asNum (extractAnnualByFY localeCompare facts concept !! y) = extractAnnualByFY localeCompare facts concept !! y.
Proof.
  destruct (extractAnnualByFY localeCompare facts concept !! y) as [v|] eqn:E; [|reflexivity].
  apply extract_Some in E as [Hv _]. cbn. rewrite Hv. reflexivity.
Qed.

Lemma asNum_finite_or_null (x : option number) : finite_or_null (asNum x).
Proof.
  destruct x as [v|]; cbn; [|exact I].
  destruct (isFinite v) eqn:E; cbn; [exact E|exact I].
Qed.

Lemma isNum_asNum_idem (x : option number) : isNum (asNum x) = isNum x.
Proof.
  destruct x as [v|]; cbn; [|reflexivity].
  destruct (isFinite v) eqn:E; cbn; [exact E|reflexivity].
Qed.

(** X7: Each row of [buildRowsFromSEC] holds, for its year, the revenue and the
    operating income of the document, and as free cash flow the operating
    cash flow less the absolute value of the capital expenditure when both
    are reported and the difference is finite.  Every field is a finite
    number or null, and its provenance is ["sec"] when it is a number and
    ["none"] when it is null. *)
Theorem sec_row_fields facts :
  Forall (fun r =>
    revenue r = extractAnnualByFY localeCompare facts "Revenues" !! year r /\
    opIncome r = extractAnnualByFY localeCompare facts "OperatingIncomeLoss" !! year r /\
    fcf r =
      (a ← extractAnnualByFY localeCompare facts "NetCashProvidedByUsedInOperatingActivities" !! year r;
       b ← extractAnnualByFY localeCompare facts "PaymentsToAcquirePropertyPlantAndEquipment" !! year r;
       asNum (Some (sub a (Math_abs b)))) /\
    finite_or_null (revenue r) /\ finite_or_null (opIncome r) /\
    finite_or_null (fcf r) /\
    meta r = Some {| revenue_source := sec_tag (revenue r);
                     opIncome_source := sec_tag (opIncome r);
                     fcf_source := sec_tag (fcf r) |})
    (parsed_rows (buildRowsFromSEC localeCompare facts)).
Proof.
  unfold buildRowsFromSEC. cbv zeta. cbn [parsed_rows]. apply Forall_fmap, Forall_forall.
  intros y _. unfold compose, sec_row, sec_tag. cbv zeta. cbn [year revenue opIncome fcf meta].
  rewrite !extract_finite, !isNum_asNum_idem.
  split; [reflexivity|]. split; [reflexivity|]. split.
  { destruct (extractAnnualByFY localeCompare facts "NetCashProvidedByUsedInOperatingActivities" !! y);
      [|reflexivity].
    destruct (extractAnnualByFY localeCompare facts "PaymentsToAcquirePropertyPlantAndEquipment" !! y);
      reflexivity. }
  split; [rewrite <- extract_finite; apply asNum_finite_or_null|].
  split; [rewrite <- extract_finite; apply asNum_finite_or_null|].
  split; [apply asNum_finite_or_null|].
  reflexivity.
Qed.
Lemma sec_rows_normal facts :
  Forall RouteReference.sec_normal (parsed_rows (buildRowsFromSEC localeCompare facts)).
Proof.
  unfold buildRowsFromSEC. cbv zeta. cbn [parsed_rows]. apply Forall_fmap, Forall_forall.
  intros y _. unfold compose, sec_row, RouteReference.sec_normal, RouteReference.finite_row,
    sec_tag. cbv zeta. cbn [year revenue opIncome fcf meta].
  rewrite !isNum_asNum_idem.
  split; [|reflexivity].
  repeat split; apply asNum_finite_or_null.
Qed.

Lemma sec_rows_shape facts :
  StronglySorted Z.lt (year <$> parsed_rows (buildRowsFromSEC localeCompare facts)) /\
  (length (parsed_rows (buildRowsFromSEC localeCompare facts)) <= 3)%nat /\
  Forall RouteReference.sec_normal (parsed_rows (buildRowsFromSEC localeCompare facts)).
Proof.
  destruct (sec_years_sorted facts) as [H1 H2].
  split; [exact H1|]. split; [exact H2|apply sec_rows_normal].
Qed.
End Rows.

End SecRowsProofs.
(** ** The rows parsed from the Finnhub document *)

Module FinnhubProofs.
Import Financials Finnhub FinnhubReference SecReference SortFacts RecentYears.

Lemma annual_reports_cons (data : list Report) (r : Report) (y : Z) :
  annual_reports (r :: data) y =
    if decide (r_year r = Some y /\ period r = "FY"%string)
    then r :: annual_reports data y else annual_reports data y.
Proof. unfold annual_reports. rewrite filter_cons. reflexivity. Qed.

Lemma group_lookup (byYear : gmap Z (list Report)) (r : Report) (y : Z) :
  group byYear r !! y =
    if decide (r_year r = Some y /\ period r = "FY"%string)
    then Some (default [] (byYear !! y) ++ [r]) else byYear !! y.
Proof.
  unfold group. destruct (r_year r) as [year|].
  - destruct (String.eqb_spec (period r) "FY") as [E|E]; cbn [negb].
    + destruct (decide (year = y)) as [->|Hne].
      * rewrite lookup_insert_eq, decide_True by (split; [reflexivity|exact E]).
        reflexivity.
      * rewrite lookup_insert_ne by exact Hne.
        rewrite decide_False; [reflexivity|]. intros [H _]. congruence.
    + rewrite decide_False; [reflexivity|]. tauto.
  - rewrite decide_False; [reflexivity|]. intros [H _]. discriminate H.
Qed.

Lemma foldl_group_lookup (data : list Report) :
  forall (byYear : gmap Z (list Report)) (y : Z),
    foldl group byYear data !! y =
      match annual_reports data y with
      | [] => byYear !! y
      | l => Some (default [] (byYear !! y) ++ l)
      end.
Proof.
  induction data as [|r data IH]; intros byYear y; [reflexivity|].
  cbn [foldl]. rewrite IH, annual_reports_cons, group_lookup.
  destruct (decide (r_year r = Some y /\ period r = "FY"%string)) as [H|H].
  - destruct (annual_reports data y) as [|x l].
    + reflexivity.
    + cbn. rewrite <- app_assoc. reflexivity.
  - reflexivity.
Qed.

Lemma byYear_lookup (data : list Report) (y : Z) :
  foldl group ∅ data !! y =
    match annual_reports data y with
    | [] => None
    | l => Some l
    end.
Proof.
  rewrite foldl_group_lookup, lookup_empty.
  destruct (annual_reports data y); reflexivity.
Qed.

Lemma finnhub_years_eq data :
  year <$> parsed_rows (parseFinnhubAnnualFY data) =
  slice_last3 (sort_by id (fst <$> map_to_list (foldl group ∅ data))).
Proof.
  unfold parseFinnhubAnnualFY. cbn [parsed_rows]. rewrite <- list_fmap_compose.
  rewrite <- (list_fmap_id (slice_last3 _)) at 2. apply list_fmap_ext.
  intros i y _. reflexivity.
Qed.

Lemma byYear_keys data y :
  y ∈ (fst <$> map_to_list (foldl group ∅ data)) <-> annual_reports data y <> [].
Proof.
  rewrite list_elem_of_fmap. split.
  - intros ([k v] & -> & H). apply elem_of_map_to_list in H. cbn [fst].
    rewrite byYear_lookup in H. destruct (annual_reports data k); congruence.
  - intros H. exists (y, annual_reports data y). split; [reflexivity|].
    apply elem_of_map_to_list. rewrite byYear_lookup.
    destruct (annual_reports data y); congruence.
Qed.

(** X8: [parseFinnhubAnnualFY] returns at most three rows, in strictly
    increasing order of year; each year is that of a report whose period is
    ["FY"], and every such year that is left out is older than the years
    kept.  Reports of another period, or without a finite year, give no
    row. *)
Theorem finnhub_rows_recent data :
  let years := year <$> parsed_rows (parseFinnhubAnnualFY data) in
  StronglySorted Z.lt years /\
  (length years <= 3)%nat /\
  (forall y, y ∈ years ->
     exists r, r ∈ data /\ r_year r = Some y /\ period r = "FY"%string) /\
  (forall y z r, r ∈ data -> r_year r = Some y -> period r = "FY"%string ->
                 y ∉ years -> z ∈ years -> y < z).
Proof.
  intros years. subst years. rewrite finnhub_years_eq.
  destruct (last3_recent _ (NoDup_fst_map_to_list (foldl group ∅ data)))
    as (H1 & H2 & H3 & H4).
  split; [exact H1|]. split; [lia|]. split.
  - intros y Hy. apply H3, byYear_keys in Hy.
    destruct (annual_reports data y) as [|r l] eqn:E; [congruence|].
    assert (r ∈ annual_reports data y) as Hr by (rewrite E; left).
    apply list_elem_of_filter in Hr as [[Ha Hb] Hr]. eauto.
  - intros y z r Hr Hy Hp. apply H4. apply byYear_keys.
    assert (r ∈ annual_reports data y) as H
      by (apply list_elem_of_filter; tauto).
    intros E. rewrite E in H. inversion H.
Qed.

Lemma pickValue_finite arr conceptName : finite_or_null (pickValue arr conceptName).
Proof.
  unfold pickValue. cbv zeta.
  destruct (List.find _ arr ≫= value) as [v|]; cbn; [|exact I].
  destruct (isFinite v) eqn:E; cbn; [exact E|exact I].
Qed.

Lemma asNum_idem (x : option number) : asNum (asNum x) = asNum x.
Proof.
  destruct x as [v|]; cbn; [|reflexivity].
  destruct (isFinite v) eqn:E; cbn; [rewrite E|]; reflexivity.
Qed.

(** X9: Each row of [parseFinnhubAnnualFY] is read from the first annual report
    of its year in the document, later reports of the same year being
    ignored: revenue and operating income are the values of the income
    statement, finite or null, and the free cash flow is the operating cash
    flow less the absolute value of the capital expenditure when the cash
    flow statement has both.  The provenance of a field is ["finnhub"] when
    it is a finite number and ["none"] otherwise. *)
Theorem first_annual_report_wins data :
  Forall (fun row =>
    exists rep,
      head (annual_reports data (year row)) = Some rep /\
      revenue row = pickValue (ic rep) "us-gaap_Revenues" /\
      opIncome row = pickValue (ic rep) "us-gaap_OperatingIncomeLoss" /\
      fcf row =
        (a ← pickValue (cf rep) "us-gaap_NetCashProvidedByUsedInOperatingActivities";
         b ← pickValue (cf rep) "us-gaap_PaymentsToAcquirePropertyPlantAndEquipment";
         Some (sub a (Math_abs b))) /\
      finite_or_null (revenue row) /\ finite_or_null (opIncome row) /\
      meta row = Some {| revenue_source := finnhub_tag (revenue row);
                         opIncome_source := finnhub_tag (opIncome row);
                         fcf_source := finnhub_tag (fcf row) |})
    (parsed_rows (parseFinnhubAnnualFY data)).
Proof.
  unfold parseFinnhubAnnualFY. cbv zeta. cbn [parsed_rows].
  apply Forall_fmap, Forall_forall. intros y Hy. unfold compose.
  apply subseteq_drop in Hy. rewrite sort_by_perm in Hy. apply byYear_keys in Hy.
  destruct (annual_reports data y) as [|rep l] eqn:E; [congruence|].
  exists rep. unfold finnhub_row. cbv zeta. cbn [year revenue opIncome fcf meta].
  rewrite E, byYear_lookup, E.
  cbn [head mbind option_bind fmap option_fmap option_map default from_option]. unfold id.
  split; [reflexivity|]. split; [reflexivity|]. split; [reflexivity|].
  split.
  { unfold pickValue at 1 2. cbv zeta. rewrite !asNum_idem.
    fold (pickValue (cf rep) "us-gaap_NetCashProvidedByUsedInOperatingActivities").
    fold (pickValue (cf rep) "us-gaap_PaymentsToAcquirePropertyPlantAndEquipment").
    destruct (pickValue (cf rep) "us-gaap_NetCashProvidedByUsedInOperatingActivities");
      [|reflexivity].
    destruct (pickValue (cf rep) "us-gaap_PaymentsToAcquirePropertyPlantAndEquipment");
      reflexivity. }
  split; [apply pickValue_finite|]. split; [apply pickValue_finite|].
  reflexivity.
Qed.

End FinnhubProofs.
(** ** The process-wide SEC caches *)

Module CacheProofs.
Import Stdlib.Strings.Ascii Financials Sec Decimal CacheReference CikProofs.

Section TickerMap.
Variable toUpperCase : string -> string.

Lemma listing_snoc (j : list SecTickerRow) (row : SecTickerRow) (k : string) :
  listing toUpperCase (j ++ [row]) k =
    if sets_key toUpperCase k row then Some row else listing toUpperCase j k.
Proof.
  unfold listing. rewrite filter_app, filter_cons, filter_nil.
  destruct (sets_key toUpperCase k row).
  - rewrite decide_True by reflexivity. apply last_snoc.
  - rewrite decide_False by discriminate. rewrite app_nil_r. reflexivity.
Qed.

Lemma directory_lookup (j : list SecTickerRow) (k : string) :
  foldl (set_ticker toUpperCase) ∅ j !! k =
    (row ← listing toUpperCase j k; padCik10 <$> cik_str row).
Proof.
  induction j as [|row j IH] using rev_ind; [reflexivity|].
  rewrite foldl_app, listing_snoc. cbn [foldl].
  unfold set_ticker at 1, sets_key.
  destruct (ticker row) as [t|]; [|exact IH].
  destruct (cik_str row) as [cik|] eqn:Ec; [|exact IH].
  destruct (nonempty t); [|exact IH]. cbn [andb].
  destruct (decide (toUpperCase t = k)) as [E|E].
  - rewrite bool_decide_eq_true_2 by exact E. rewrite E, lookup_insert_eq.
    cbn. rewrite Ec. reflexivity.
  - rewrite bool_decide_eq_false_2 by exact E.
    rewrite lookup_insert_ne by exact E. exact IH.
Qed.

(** X10: The ticker directory built from the SEC document: the entry of a key is
    the ten-digit CIK of the last row whose ticker upper-cases to that key,
    rows without a ticker or without a CIK being skipped; every value is a
    string of at least ten decimal digits. *)
Theorem ticker_directory_entries (j : list SecTickerRow) :
  (forall k, foldl (set_ticker toUpperCase) ∅ j !! k =
             (row ← listing toUpperCase j k; padCik10 <$> cik_str row)) /\
  (forall k v, foldl (set_ticker toUpperCase) ∅ j !! k = Some v ->
               (10 <= String.length v)%nat /\
               Forall (fun c => is_digit c = true) (chars v)).
Proof.
  split; [apply directory_lookup|].
  intros k v. rewrite directory_lookup.
  destruct (listing toUpperCase j k) as [row|]; [|discriminate]. cbn.
  destruct (cik_str row) as [cik|]; [|discriminate]. cbn.
  intros [= <-]. split; [|apply padCik10_digits].
  unfold padCik10. rewrite padStart0_length. lia.
Qed.

Variable fetch : string -> Outcome (Http.Reply (list SecTickerRow)).

Lemma ticker_map_effect now userAgent mem :
  match fetchSecTickerMap toUpperCase fetch now userAgent mem with
  | (Resolved map, mem') =>
      tickerMap mem' = Some map /\ companyFacts mem' = companyFacts mem /\
      (mem' = mem \/ tickerMapFetchedAt mem' = now)
  | (Threw _, mem') => mem' = mem
  end.
Proof.
  unfold fetchSecTickerMap.
  assert (match
            match fetch userAgent with
            | Threw message => (Threw message, mem)
            | Resolved res =>
                if negb (Http.ok res)
                then (Threw ("SEC ticker map HTTP " +:+ pretty (Http.status res)), mem)
                else
                  match Http.json res with
                  | Threw message => (Threw message, mem)
                  | Resolved j =>
                      (Resolved (foldl (set_ticker toUpperCase) ∅ j),
                       {| tickerMap := Some (foldl (set_ticker toUpperCase) ∅ j);
                          tickerMapFetchedAt := now;
                          companyFacts := companyFacts mem |})
                  end
            end
          with
          | (Resolved map, mem') =>
              tickerMap mem' = Some map /\ companyFacts mem' = companyFacts mem /\
              (mem' = mem \/ tickerMapFetchedAt mem' = now)
          | (Threw _, mem') => mem' = mem
          end) as Hre.
  { destruct (fetch userAgent) as [res|msg]; [|reflexivity].
    destruct (negb (Http.ok res)); [reflexivity|].
    destruct (Http.json res) as [j|msg]; [|reflexivity].
    cbn. auto. }
  cbv zeta.
  destruct (tickerMap mem) as [cached|] eqn:Ec; [|exact Hre].
  destruct (now - tickerMapFetchedAt mem <? 7 * 24 * 3600 * 1000); [|exact Hre].
  auto.
Qed.

(** X11: A call of [fetchSecTickerMap] that throws leaves the cache as it was; one
    that returns a map leaves that map in the cache and does not touch the
    cached company facts.  A cached map that is seven days old or more is
    never served: the call then behaves as in a process without a cached
    map, and throws when the download fails. *)
Theorem ticker_map_never_stale now userAgent mem :
  match fetchSecTickerMap toUpperCase fetch now userAgent mem with
  | (Resolved map, mem') =>
      tickerMap mem' = Some map /\ companyFacts mem' = companyFacts mem
  | (Threw _, mem') => mem' = mem
  end /\
  (7 * 24 * 3600 * 1000 <= now - tickerMapFetchedAt mem ->
   (fetchSecTickerMap toUpperCase fetch now userAgent mem).1 =
   (fetchSecTickerMap toUpperCase fetch now userAgent
      {| tickerMap := None; tickerMapFetchedAt := tickerMapFetchedAt mem;
         companyFacts := companyFacts mem |}).1) /\
  (forall message,
     7 * 24 * 3600 * 1000 <= now - tickerMapFetchedAt mem ->
     fetch userAgent = Threw message ->
     fetchSecTickerMap toUpperCase fetch now userAgent mem = (Threw message, mem)).
Proof.
  split; [|split].
  - pose proof (ticker_map_effect now userAgent mem) as H.
    destruct (fetchSecTickerMap toUpperCase fetch now userAgent mem) as [[map|msg] mem'].
    + tauto.
    + exact H.
  - intros Hold. unfold fetchSecTickerMap. cbv zeta. cbn [tickerMap tickerMapFetchedAt companyFacts].
    destruct (tickerMap mem) as [cached|].
    + destruct (Z.ltb_spec (now - tickerMapFetchedAt mem) (7 * 24 * 3600 * 1000)) as [H|_];
        [lia|].
      destruct (fetch userAgent) as [res|msg]; [|reflexivity].
      destruct (negb (Http.ok res)); [reflexivity|].
      destruct (Http.json res) as [j|msg]; reflexivity.
    + destruct (fetch userAgent) as [res|msg]; [|reflexivity].
      destruct (negb (Http.ok res)); [reflexivity|].
      destruct (Http.json res) as [j|msg]; reflexivity.
  - intros message Hold Hdown. unfold fetchSecTickerMap. cbv zeta. rewrite Hdown.
    destruct (tickerMap mem) as [cached|]; [|reflexivity].
    destruct (Z.ltb_spec (now - tickerMapFetchedAt mem) (7 * 24 * 3600 * 1000)) as [H|_];
      [lia|reflexivity].
Qed.
End TickerMap.

(** X12: The map a call of [fetchSecTickerMap] returned is what every later call
    returns, whatever the network does and without a change of the cache,
    as long as less than seven days have passed since the download. *)
Theorem ticker_map_reused toUpperCase fetch1 fetch2 now1 now2 ua1 ua2 mem map mem1 :
  fetchSecTickerMap toUpperCase fetch1 now1 ua1 mem = (Resolved map, mem1) ->
  now2 - tickerMapFetchedAt mem1 < 7 * 24 * 3600 * 1000 ->
  fetchSecTickerMap toUpperCase fetch2 now2 ua2 mem1 = (Resolved map, mem1) /\
  (mem1 = mem \/ tickerMapFetchedAt mem1 = now1).
Proof.
  intros Hcall Hfresh.
  pose proof (ticker_map_effect toUpperCase fetch1 now1 ua1 mem) as H.
  rewrite Hcall in H. destruct H as (Hmap & _ & Hstamp).
  split; [|exact Hstamp].
  unfold fetchSecTickerMap. cbv zeta. rewrite Hmap.
  destruct (Z.ltb_spec (now2 - tickerMapFetchedAt mem1) (7 * 24 * 3600 * 1000)); [reflexivity|lia].
Qed.

Section CompanyFacts.
Variable fetch : string -> string -> Outcome (Http.Reply SecCompanyFacts).

Lemma company_facts_effect now cik10 userAgent mem :
  match fetchSecCompanyFacts fetch now cik10 userAgent mem with
  | (Resolved data, mem') =>
      (exists t, companyFacts mem' !! cik10 = Some (t, data) /\
                 (mem' = mem \/ t = now)) /\
      (forall other, other <> cik10 ->
                     companyFacts mem' !! other = companyFacts mem !! other) /\
      tickerMap mem' = tickerMap mem /\
      tickerMapFetchedAt mem' = tickerMapFetchedAt mem
  | (Threw _, mem') => mem' = mem
  end.
Proof.
  unfold fetchSecCompanyFacts.
  assert (match
            match fetch cik10 userAgent with
            | Threw message => (Threw message, mem)
            | Resolved res =>
                if negb (Http.ok res)
                then (Threw ("SEC companyfacts HTTP " +:+ pretty (Http.status res)), mem)
                else
                  match Http.json res with
                  | Threw message => (Threw message, mem)
                  | Resolved data =>
                      (Resolved data,
                       {| tickerMap := tickerMap mem;
                          tickerMapFetchedAt := tickerMapFetchedAt mem;
                          companyFacts := <[cik10 := (now, data)]> (companyFacts mem) |})
                  end
            end
          with
          | (Resolved data, mem') =>
              (exists t, companyFacts mem' !! cik10 = Some (t, data) /\
                         (mem' = mem \/ t = now)) /\
              (forall other, other <> cik10 ->
                             companyFacts mem' !! other = companyFacts mem !! other) /\
              tickerMap mem' = tickerMap mem /\
              tickerMapFetchedAt mem' = tickerMapFetchedAt mem
          | (Threw _, mem') => mem' = mem
          end) as Hre.
  { destruct (fetch cik10 userAgent) as [res|msg]; [|reflexivity].
    destruct (negb (Http.ok res)); [reflexivity|].
    destruct (Http.json res) as [data|msg]; [|reflexivity].
    cbn [companyFacts tickerMap tickerMapFetchedAt].
    split; [exists now; rewrite lookup_insert_eq; auto|].
    split; [|auto].
    intros other Hne. apply lookup_insert_ne. congruence. }
  cbv zeta.
  destruct (companyFacts mem !! cik10) as [[t data]|] eqn:Ec; [|exact Hre].
  cbn [fst snd]. destruct (now - t <? 6 * 3600 * 1000); [|exact Hre].
  split; [eauto|]. auto.
Qed.

(** X13: [fetchSecCompanyFacts] caches per CIK: a call that throws leaves the
    cache as it was, and one that returns the facts of a CIK leaves them in
    the cache under that CIK without touching the entry of any other CIK or
    the cached ticker map.  Facts that are six hours old or more are never
    served: when they cannot be downloaded again, the call throws. *)
Theorem company_facts_cached_per_cik now cik10 userAgent mem :
  match fetchSecCompanyFacts fetch now cik10 userAgent mem with
  | (Resolved data, mem') =>
      snd <$> companyFacts mem' !! cik10 = Some data /\
      (forall other, other <> cik10 ->
                     companyFacts mem' !! other = companyFacts mem !! other) /\
      tickerMap mem' = tickerMap mem /\
      tickerMapFetchedAt mem' = tickerMapFetchedAt mem
  | (Threw _, mem') => mem' = mem
  end /\
  (forall t message,
     facts_stamp mem cik10 = Some t -> 6 * 3600 * 1000 <= now - t ->
     fetch cik10 userAgent = Threw message ->
     fetchSecCompanyFacts fetch now cik10 userAgent mem = (Threw message, mem)).
Proof.
  split.
  - pose proof (company_facts_effect now cik10 userAgent mem) as H.
    destruct (fetchSecCompanyFacts fetch now cik10 userAgent mem) as [[data|msg] mem'];
      [|exact H].
    destruct H as ((t & Ht & _) & H). split; [rewrite Ht; reflexivity|exact H].
  - intros t message Hstamp Hold Hdown. unfold fetchSecCompanyFacts. cbv zeta.
    rewrite Hdown. unfold facts_stamp in Hstamp.
    destruct (companyFacts mem !! cik10) as [[t' data]|]; [|discriminate].
    injection Hstamp as ->. cbn [fst snd].
    destruct (Z.ltb_spec (now - t) (6 * 3600 * 1000)) as [H|_]; [lia|reflexivity].
Qed.
End CompanyFacts.

(** X14: The facts a call of [fetchSecCompanyFacts] returned for a CIK are what
    every later call for that CIK returns, whatever the network does and
    without a change of the cache, as long as less than six hours have
    passed since they were downloaded. *)
Theorem company_facts_reused fetch1 fetch2 now1 now2 cik10 ua1 ua2 mem data mem1 t :
  fetchSecCompanyFacts fetch1 now1 cik10 ua1 mem = (Resolved data, mem1) ->
  facts_stamp mem1 cik10 = Some t ->
  now2 - t < 6 * 3600 * 1000 ->
  fetchSecCompanyFacts fetch2 now2 cik10 ua2 mem1 = (Resolved data, mem1) /\
  (mem1 = mem \/ t = now1).
Proof.
  intros Hcall Hstamp Hfresh.
  pose proof (company_facts_effect fetch1 now1 cik10 ua1 mem) as H.
  rewrite Hcall in H. destruct H as ((t' & Ht & Hor) & _).
  unfold facts_stamp in Hstamp. rewrite Ht in Hstamp. injection Hstamp as ->.
  split; [|exact Hor].
  unfold fetchSecCompanyFacts. cbv zeta. rewrite Ht. cbn [fst snd].
  destruct (Z.ltb_spec (now2 - t) (6 * 3600 * 1000)); [reflexivity|lia].
Qed.

End CacheProofs.
(** ** The financials route as a whole *)

Module RouteProofs.
Import Financials Reference SecReference RouteReference SortFacts RecentYears.

Lemma asNum_fixed (x : option number) : finite_or_null x -> asNum x = x.
Proof. destruct x as [v|]; cbn; [intros ->|]; reflexivity. Qed.

Lemma asNum_is_finite (x : option number) : finite_or_null (asNum x).
Proof.
  destruct x as [v|]; cbn; [|exact I].
  destruct (isFinite v) eqn:E; cbn; [exact E|exact I].
Qed.

Lemma prefer_finite f a b : finite_or_null (prefer f a b).
Proof.
  unfold prefer. destruct (asNum (opt_field f a)) as [v|] eqn:E.
  - pose proof (asNum_is_finite (opt_field f a)) as H. rewrite E in H. exact H.
  - apply asNum_is_finite.
Qed.

Lemma source_none f a b : source_of f a b = "none"%string <-> prefer f a b = None.
Proof.
  unfold source_of, prefer, isNum, asNum.
  destruct (opt_field f a) as [v|]; [destruct (isFinite v)|];
    (destruct (opt_field f b) as [w|]; [destruct (isFinite w)|]);
    split; intros H; first [reflexivity|discriminate H].
Qed.

(** The rows of the reconciler hold finite numbers or null, whatever the
    providers' rows hold. *)
Lemma merged_rows_finite fh sec :
  Forall (fun r => finite_row r /\ sourced_row r) (mergeRowsPreferFinnhub fh sec).
Proof.
  unfold mergeRowsPreferFinnhub. cbv zeta. apply Forall_fmap, Forall_forall.
  intros y _. unfold compose, merge_year, finite_row, sourced_row. cbv zeta.
  cbn [revenue opIncome fcf meta].
  split; [repeat split; apply prefer_finite|].
  eexists. split; [reflexivity|].
  cbn [revenue_source opIncome_source fcf_source].
  repeat split; apply source_none.
Qed.

#[local] Instance Zlt_antisym : AntiSymm eq Z.lt.
Proof. intros x y ? ?. lia. Qed.

(** With no row of the preferred provider, a series of the fallback
    provider that is in increasing order of year, at most three rows long
    and tagged as [buildRowsFromSEC] does goes through the reconciler
    unchanged. *)
Lemma merge_fallback_only (sec : list Row) :
  StronglySorted Z.lt (year <$> sec) -> (length sec <= 3)%nat ->
  Forall sec_normal sec ->
  mergeRowsPreferFinnhub [] sec = sec.
Proof.
  intros Hs Hl Hn. unfold mergeRowsPreferFinnhub. cbv zeta.
  assert (NoDup (year <$> sec)) as Hnd.
  { clear Hl Hn. induction Hs as [|y l Hs IH Hall]; constructor; [|exact IH].
    intros Hy. rewrite Forall_forall in Hall. specialize (Hall y Hy). lia. }
  assert (merged_years (collect [] sec) = year <$> sec) as Hy.
  { unfold merged_years.
    set (keys := (map_to_list (collect [] sec)).*1).
    assert (NoDup keys) as Hk by apply NoDup_fst_map_to_list.
    assert (sort_by id keys = year <$> sec) as ->.
    { apply (StronglySorted_unique Z.lt); [apply ReconcilerProofs.sorted_keys_lt, Hk|exact Hs|].
      rewrite sort_by_perm. apply NoDup_Permutation; [exact Hk|exact Hnd|].
      intros y. unfold keys. rewrite list_elem_of_fmap. split.
      - intros ([k v] & -> & H). apply elem_of_map_to_list in H. cbn [fst].
        assert (is_Some (collect [] sec !! k)) as H' by eauto.
        apply ReconcilerProofs.collect_dom in H'. cbn in H'. exact H'.
      - intros H.
        assert (is_Some (collect [] sec !! y)) as [v Hv]
          by (apply ReconcilerProofs.collect_dom; cbn; exact H).
        exists (y, v). split; [reflexivity|]. apply elem_of_map_to_list. exact Hv. }
    unfold slice_last3. rewrite length_fmap.
    replace (length sec - 3)%nat with 0%nat by lia. apply drop_0. }
  rewrite Hy, <- list_fmap_compose.
  rewrite <- (list_fmap_id sec) at 3. apply list_fmap_ext.
  intros i r Hi. unfold compose, merge_year. cbv zeta.
  rewrite ReconcilerProofs.collect_pair. cbn [p_fh p_sec].
  assert (r ∈ sec) as Hr by (eapply list_elem_of_lookup_2; exact Hi).
  rewrite (ReconcilerProofs.row_of_unique sec r Hnd Hr).
  rewrite Forall_forall in Hn. destruct (Hn r Hr) as ((H1 & H2 & H3) & Hm).
  unfold prefer, source_of, opt_field, row_of. cbn [filter list_filter last mbind option_bind].
  rewrite (asNum_fixed _ H1), (asNum_fixed _ H2), (asNum_fixed _ H3).
  destruct r as [y rv op fc mt]. cbn in *. rewrite Hm. unfold sec_tag. reflexivity.
Qed.

Section Generic.
Context {SecCompanyFacts FinnhubFinancialsResponse : Type}.
Variable toUpperTicker : string -> string.
Variable buildRowsFromSEC : SecCompanyFacts -> list Row.
Variable SEC_USER_AGENT : string.
Variable fetchSecTickerMap : string -> Outcome (gmap string string).
Variable fetchSecCompanyFacts : string -> string -> Outcome SecCompanyFacts.



End Generic.

Section Assembled.
Variable toUpperTicker : string -> string.
Variable toUpperCase : string -> string.
Variable localeCompare : string -> string -> Z.
Variable SEC_USER_AGENT FINNHUB_API_KEY : string.
Variable fetch_ticker_map : string -> Outcome (Http.Reply (list Sec.SecTickerRow)).
Variable fetch_company_facts :
  string -> string -> Outcome (Http.Reply Sec.SecCompanyFacts).
Variable fetch_financials :
  string -> string -> Outcome (Http.Reply Finnhub.FinnhubFinancialsResponse).
Variable fetch_metric : string -> string -> Outcome (Http.Reply Finnhub.Metric).

Lemma fetched_multiples_finite ticker apiKey m :
  Finnhub.fetchFinnhubMultiples fetch_metric ticker apiKey = Resolved m ->
  finite_multiples m.
Proof.
  unfold Finnhub.fetchFinnhubMultiples.
  destruct (fetch_metric ticker apiKey) as [res|msg]; [|discriminate]. cbn.
  destruct (negb (Http.ok res)); [discriminate|].
  destruct (Http.json res) as [j|msg]; [|discriminate]. cbn.
  intros [= <-]. split; apply asNum_is_finite.
Qed.

(** X16: Every number in a payload of the financials route is finite: the
    figures of the rows and the two multiples are finite numbers or null,
    whatever the providers sent (a free cash flow that overflows is dropped
    by the reconciler), and each row names a provenance for each field,
    ["none"] exactly for the fields that are null. *)
Theorem financials_numbers_finite now now' mem tickerRaw :
  match
    Route.financials toUpperTicker toUpperCase localeCompare SEC_USER_AGENT
      FINNHUB_API_KEY fetch_ticker_map fetch_company_facts fetch_financials
      fetch_metric now now' mem tickerRaw
  with
  | Json _ p =>
      Forall (fun r => finite_row r /\ sourced_row r) (rows p) /\
      exists m, multiples p = Some m /\ finite_multiples m
  | JsonError _ _ _ => True
  end.
Proof.
  assert (finite_multiples no_multiples) as Hnone by (split; exact I).
  unfold Route.financials, GET. cbv zeta.
  destruct tickerRaw as [[|c raw]|]; [exact I| |exact I].
  destruct (negb (nonempty SEC_USER_AGENT)); [exact I|].
  destruct (Sec.fetchSecTickerMap _ _ _ _ _).1 as [map|msg]; [|exact I].
  destruct (map !! toUpperTicker (String c raw)) as [[|c' cik]|].
  1,3: cbn [rows multiples]; split; [constructor|eauto].
  destruct (Sec.fetchSecCompanyFacts _ _ _ _ _).1 as [facts|msg]; [|exact I].
  match goal with
  | |- context [let '(_, _) := ?x in _] => destruct x as [fhRows finnhubOk]
  end.
  cbn [rows multiples]. split; [apply merged_rows_finite|].
  eexists. split; [reflexivity|].
  destruct (nonempty FINNHUB_API_KEY); [|exact Hnone].
  destruct (Finnhub.fetchFinnhubMultiples _ _ _) as [m|msg] eqn:E; [|exact Hnone].
  eapply fetched_multiples_finite. exact E.
Qed.

(** X17: A Finnhub outage does not fail the route.  When the SEC side answers
    and Finnhub is not configured, or its financials request throws or is
    answered with an error status, the answer is a 200 whose rows are
    exactly the rows built from the SEC document, with the note that names
    the SEC as the only source. *)
Theorem finnhub_outage_is_soft now now' mem raw map cik10 facts :
  raw <> EmptyString -> SEC_USER_AGENT <> EmptyString ->
  (Sec.fetchSecTickerMap toUpperCase fetch_ticker_map now SEC_USER_AGENT mem).1 =
    Resolved map ->
  map !! toUpperTicker raw = Some cik10 -> cik10 <> EmptyString ->
  (Sec.fetchSecCompanyFacts fetch_company_facts now' cik10 SEC_USER_AGENT
     (Sec.fetchSecTickerMap toUpperCase fetch_ticker_map now SEC_USER_AGENT mem).2).1 =
    Resolved facts ->
  (FINNHUB_API_KEY = EmptyString \/
   exists message,
     Finnhub.fetchFinnhubFinancials fetch_financials (toUpperTicker raw)
       FINNHUB_API_KEY = Threw message) ->
  exists m,
    Route.financials toUpperTicker toUpperCase localeCompare SEC_USER_AGENT
      FINNHUB_API_KEY fetch_ticker_map fetch_company_facts fetch_financials
      fetch_metric now now' mem (Some raw) =
    Json 200
      {| ticker := toUpperTicker raw;
         source_note := Some sec_only_note;
         rows := parsed_rows (Sec.buildRowsFromSEC localeCompare facts);
         multiples := Some m |}.
Proof.
  intros Hraw Hua Hmap Hcik Hne Hfacts Hfh.
  unfold Route.financials, GET. cbv zeta.
  destruct raw as [|c raw]; [contradiction|].
  destruct SEC_USER_AGENT as [|u ua] eqn:Eua; [contradiction|]. cbn [nonempty negb].
  rewrite Hmap, Hcik. destruct cik10 as [|c' cik]; [contradiction|].
  rewrite Hfacts.
  assert (mergeRowsPreferFinnhub []
            (parsed_rows (Sec.buildRowsFromSEC localeCompare facts)) =
          parsed_rows (Sec.buildRowsFromSEC localeCompare facts)) as Hmerge.
  { destruct (SecRowsProofs.sec_rows_shape localeCompare facts) as (H1 & H2 & H3).
    apply merge_fallback_only; assumption. }
  destruct Hfh as [->|[msg Hmsg]].
  - cbn [nonempty]. rewrite Hmerge. eexists. reflexivity.
  - rewrite Hmsg. destruct (nonempty FINNHUB_API_KEY).
    + rewrite Hmerge. eexists. reflexivity.
    + rewrite Hmerge. eexists. reflexivity.
Qed.
End Assembled.

End RouteProofs.
(** ** Integers as doubles *)

Module IntegerFacts.
Import Range Binary64.

(** An integer below 2^53 is held exactly. *)
Lemma ofZ_exact n :
  0 < n < 2 ^ 53 ->
  exists m e, ofZ n = S754_finite false m e /\ bounded prec emax m e = true /\
              e <= 0 /\ Z.pos m = n * 2 ^ (- e).
Proof.
  intros Hn. destruct n as [|p|p]; try lia.
  unfold ofZ. cbn [binary_normalize].
  destruct (binary_round_aligned false p 0) as (mz & ez & -> & Hle & Hmz & Hpre).
  destruct (binary_round_aux_spec false (Z.pos mz) ez loc_Exact ltac:(lia) Hpre)
    as (m2 & m3 & e1 & e3 & -> & He1 & Hm2 & Hex & He3 & Hle3 & Hm3 & Hcanon).
  assert (Hdz : Zdigits2 (Z.pos mz) + ez = Zdigits2 (Z.pos p)).
  { rewrite Hmz, Zdigits2_mul_pow2 by lia. lia. }
  assert (Hd1 : 1 <= Zdigits2 (Z.pos p)) by (cbn; lia).
  assert (Hd53 : Zdigits2 (Z.pos p) <= 53) by (apply Zdigits2_lt_pow; lia).
  rewrite Hdz, fexp_eq in He1.
  assert (He1' : e1 = Zdigits2 (Z.pos p) - 53) by lia.
  rewrite Hdz, fexp_eq in Hpre.
  assert (Hq : Z.pos mz = Z.pos p * 2 ^ (- e1) * 2 ^ (e1 - ez)).
  { rewrite Hmz, <- Z.mul_assoc, <- Z.pow_add_r by lia. do 2 f_equal. lia. }
  assert (Hpow : 0 < 2 ^ (e1 - ez)) by (apply Z.pow_pos_nonneg; lia).
  assert (Hdiv : Z.pos mz / 2 ^ (e1 - ez) = Z.pos p * 2 ^ (- e1)).
  { rewrite Hq. apply Z.div_mul. lia. }
  assert (Hmod : Z.pos mz mod 2 ^ (e1 - ez) = 0).
  { rewrite Hq. apply Z.mod_mul. lia. }
  assert (Hm2' : m2 = Z.pos p * 2 ^ (- e1)).
  { destruct (Z.eq_dec m2 (Z.pos mz / 2 ^ (e1 - ez))) as [E|E]; [rewrite E; exact Hdiv|].
    exfalso. exact (Hex eq_refl E Hmod). }
  assert (Hd2 : Zdigits2 m2 = 53).
  { rewrite Hm2', Zdigits2_mul_pow2 by lia. lia. }
  rewrite Hd2, fexp_eq in He3.
  assert (He3' : e3 = e1) by lia.
  rewrite He3', Z.sub_diag, Z.pow_0_r, Z.div_1_r in Hm3. subst m3.
  assert (0 < 2 ^ (- e1)) by (apply Z.pow_pos_nonneg; lia).
  destruct m2 as [|q|q]; try lia.
  destruct (Z.leb_spec e3 971) as [Hle971|]; [|lia].
  exists q, e3. split; [reflexivity|]. split.
  - apply bounded_intro; [apply Hcanon; lia|exact Hle971].
  - split; [lia|]. rewrite He3'. exact Hm2'.
Qed.

Lemma ofZ_in_range N n : 0 <= n <= N -> 0 < N < 2 ^ 53 -> in_range N (ofZ n).
Proof.
  intros Hn HN. destruct n as [|p|p]; try lia.
  - left. reflexivity.
  - unfold ofZ. cbn [binary_normalize]. apply binary_round_bound; [exact HN|lia|].
    cbn. lia.
Qed.

(** The integer that [Math.round] gives for a valid non-negative double,
    once clamped to [[0, 100]]. *)
Lemma clamp_round_integer x :
  signed_valid false x ->
  exists k, 0 <= k <= 100 /\
            Recommendation.clamp (Math_round x) (ofZ 0) (ofZ 100) = ofZ k.
Proof.
  intros Hx.
  pose proof (Math_round_valid x Hx) as Hr.
  pose proof holds_100 as H100.
  pose proof H100 as (mh & eh & Eh & _).
  pose proof (clamp0_cases (Math_round x) mh eh (signed_valid_not_nan _ _ Hr)) as Hc.
  cbv zeta in Hc. rewrite <- Eh in Hc. change (S754_zero false) with (ofZ 0) in Hc.
  destruct Hc as [Hc|[Hc|(Hc & Hpos & Hle)]].
  - exists 0. split; [lia|exact Hc].
  - exists 100. split; [lia|exact Hc].
  - rewrite Hc.
    destruct Hx as [->|[->|(m & e & -> & Hb)]].
    + discriminate Hpos.
    + discriminate Hle.
    + unfold Math_round in *.
      destruct (Z.leb_spec 0 e) as [He|He].
      * exfalso.
        pose proof (leb_in_range 100 _ m e Hb H100 Hle) as [H|(m' & e' & [= <- <-] & _ & He' & Hm')];
          [discriminate H|].
        pose proof (bounded_digits m e Hb) as (_ & _ & Hd).
        assert (e = 0) by lia. subst e.
        pose proof (Zdigits2_bounds (Z.pos m) ltac:(lia)) as Hbm.
        rewrite (Hd ltac:(lia)) in Hbm. change (2 ^ (53 - 1)) with 4503599627370496 in Hbm.
        change (2 ^ (- 0)) with 1 in Hm'. lia.
      * cbn [cond_Zopp] in *.
        set (n := (2 * Z.pos m + 2 ^ (- e)) / 2 ^ (- e + 1)) in *.
        destruct (Z.eqb_spec n 0) as [Hn0|Hn0]; [discriminate Hpos|].
        assert (Hp : 0 < 2 ^ (- e)) by (apply Z.pow_pos_nonneg; lia).
        assert (Hp2 : 2 ^ (- e + 1) = 2 * 2 ^ (- e)).
        { rewrite Z.pow_add_r by lia. change (2 ^ 1) with 2. lia. }
        assert (H2 : 2 <= 2 ^ (- e)).
        { change 2 with (2 ^ 1) at 1. apply Z.pow_le_mono_r; lia. }
        assert (Hn : 0 <= n) by (apply Z.div_pos; lia).
        pose proof (bounded_digits m e Hb) as (Hd & _ & _).
        pose proof (Zdigits2_bounds (Z.pos m) ltac:(lia)) as Hbm.
        assert (Hm53 : Z.pos m < 2 ^ 53).
        { eapply Z.lt_le_trans; [apply Hbm|]. apply Z.pow_le_mono_r; lia. }
        assert (Hnm : n < Z.pos m + 1).
        { apply Z.div_lt_upper_bound; [lia|]. rewrite Hp2. nia. }
        destruct (ofZ_exact n ltac:(lia)) as (m' & e' & En & Hb' & He' & Hv').
        exists n. split; [|reflexivity].
        rewrite En in Hle.
        pose proof (leb_in_range 100 _ m' e' Hb' H100 Hle)
          as [H|(m'' & e'' & [= <- <-] & _ & _ & Hm'')]; [discriminate H|].
        assert (0 < 2 ^ (- e')) by (apply Z.pow_pos_nonneg; lia).
        split; [lia|nia].
Qed.

End IntegerFacts.
(** ** The score as an integer *)

Module EngineProofs.
Import Recommendation Range Reference Binary64 IntegerFacts EngineReference.

Lemma final_table :
  Forall (fun w => Forall (fun n =>
    clamp (Math_round (mul (ofZ n) (penalty_of w))) (ofZ 0) (ofZ 100) =
    ofZ (final_of n w)) (seqZ 0 101)) weights.
Proof. apply (bool_decide_unpack _). vm_compute. exact I. Qed.

Lemma band_table :
  Forall (fun k => signal_of (ofZ k) = band k) (seqZ 0 101).
Proof. apply (bool_decide_unpack _). vm_compute. exact I. Qed.

Lemma final_of_bounds :
  Forall (fun w => Forall (fun n => 0 <= final_of n w <= 100) (seqZ 0 101)) weights.
Proof. apply (bool_decide_unpack _). vm_compute. exact I. Qed.

Lemma coverage_table :
  Forall (fun w =>
    div (ofZ w) (ofZ 100) = ratio w 100 /\
    toFixed2 (div (ofZ w) (ofZ 100)) = div (ofZ w) (ofZ 100) /\
    pickConfidence (div (ofZ w) (ofZ 100)) =
      (if 70 <=? w then HIGH else if 35 <=? w then MED else LOW) /\
    ltb (div (ofZ w) (ofZ 100)) (ratio 6 10) = (w <? 60)) weights.
Proof. apply (bool_decide_unpack _). vm_compute. exact I. Qed.

Lemma warning_table :
  Forall (fun w =>
    (if eqb (div (ofZ w) (ofZ 100)) (ofZ 0)
     then ["No usable financial/value signals; neutral score used."%string]
     else if ltb (div (ofZ w) (ofZ 100)) (ratio 35 100)
     then ["Very low coverage; treat as WATCH (not a strong call)."%string]
     else if ltb (div (ofZ w) (ofZ 100)) (ratio 6 10)
     then ["Low coverage; treat as WATCH (not a strong call)."%string]
     else []) = coverage_warning w) weights.
Proof. apply (bool_decide_unpack _). vm_compute. exact I. Qed.

Section Scores.
Variable pow : number -> number -> number.
Variable fin : FinancialsPayload.

Lemma normalized_valid :
  usedWeight (score pow fin) <> 0 ->
  signed_valid false
    (mul (div (add (add (growthScore (score pow fin)) (marginScore (score pow fin)))
                   (valueScore (score pow fin)))
              (usedTotalWeight (score pow fin))) (ofZ 100)).
Proof.
  intros Hne. rewrite ScoringProofs.usedTotalWeight_ofZ.
  pose proof (ScoringProofs.holds_usedWeight pow fin Hne) as (mw & ew & Hw & _).
  pose proof holds_100 as (mc & ec & Hc & Hd & _). rewrite Hc.
  apply mul_valid; [|exact Hd].
  rewrite Hw.
  pose proof (ScoringProofs.raw_in_range pow fin) as Hraw.
  set (raw := add (add (growthScore (score pow fin)) (marginScore (score pow fin)))
                  (valueScore (score pow fin))) in *.
  pose proof (div_valid raw false mw ew
    (signed_valid_not_nan _ _ (in_range_signed_valid _ _ Hraw))) as Hdiv.
  replace (sign_bit raw) with false in Hdiv; [exact Hdiv|].
  destruct Hraw as [->|(m & e & -> & _)]; reflexivity.
Qed.

Lemma scoreNorm_integer :
  exists n, 0 <= n <= 100 /\ scoreNorm (score pow fin) = ofZ n.
Proof.
  rewrite ScoringProofs.scoreNorm_eq.
  destruct (eqb (usedTotalWeight (score pow fin)) (ofZ 0)) eqn:E.
  - exists 50. split; [lia|reflexivity].
  - apply clamp_round_integer. apply normalized_valid.
    intros H0. rewrite ScoringProofs.usedTotalWeight_ofZ, H0 in E. discriminate E.
Qed.

Lemma penaltyFactor_of_weight :
  penaltyFactor (score pow fin) = penalty_of (usedWeight (score pow fin)).
Proof.
  rewrite ScoringProofs.penaltyFactor_eq, ScoringProofs.coverage_eq,
    ScoringProofs.usedTotalWeight_ofZ. reflexivity.
Qed.

Lemma in_seqZ n : 0 <= n <= 100 -> n ∈ seqZ 0 101.
Proof. intros H. apply elem_of_seqZ. lia. Qed.

(** X18: The normalized score and the final score are integers between 0 and
    100.  For a normalized score [n] and a used weight [w] the final score
    is [n * (0.7 + 0.3 * w / 100)] rounded to the nearest integer with halves
    up, except for the four pairs [half_cases], where the product of the
    doubles falls just below one half and the score is one less; and the
    base signal is BUY from 70, WATCH from 55, HOLD from 40 and AVOID
    below. *)
Theorem final_score_integer :
  exists n k : Z,
    0 <= n <= 100 /\ 0 <= k <= 100 /\
    scoreNorm (score pow fin) = ofZ n /\
    scoreFinal (score pow fin) = ofZ k /\
    k = final_of n (usedWeight (score pow fin)) /\
    baseSignal (score pow fin) = band k.
Proof.
  destruct scoreNorm_integer as (n & Hn & En).
  pose proof (ScoringProofs.usedWeight_cases pow fin) as Hw. fold weights in Hw.
  pose proof (proj1 (Forall_forall _ _) final_table _ Hw) as Ht.
  pose proof (proj1 (Forall_forall _ _) Ht _ (in_seqZ n Hn)) as Hf.
  pose proof (proj1 (Forall_forall _ _) final_of_bounds _ Hw) as Hb.
  pose proof (proj1 (Forall_forall _ _) Hb _ (in_seqZ n Hn)) as Hk.
  cbv beta in Hf, Hk.
  exists n, (final_of n (usedWeight (score pow fin))).
  assert (scoreFinal (score pow fin) = ofZ (final_of n (usedWeight (score pow fin)))) as Ef.
  { rewrite ScoringProofs.scoreFinal_eq, En, penaltyFactor_of_weight. exact Hf. }
  split; [exact Hn|]. split; [exact Hk|]. split; [exact En|]. split; [exact Ef|].
  split; [reflexivity|].
  change (baseSignal (score pow fin)) with (signal_of (scoreFinal (score pow fin))).
  rewrite Ef.
  exact (proj1 (Forall_forall _ _) band_table _ (in_seqZ _ Hk)).
Qed.

(** X19: Coverage, confidence and the low-confidence flag are decided by the
    used weight [w] alone: the coverage is the double nearest to [w / 100],
    and is reported exactly (two decimals lose nothing); the confidence is
    HIGH from a weight of 70, MED from 35 and LOW below; and the
    low-confidence flag is set exactly below a weight of 60, that is for
    every combination other than all three components or growth with
    margin, or value with one of the two. *)
Theorem confidence_by_weight :
  coverage (score pow fin) = ratio (usedWeight (score pow fin)) 100 /\
  diagnostics_coverage (respond fin (score pow fin)) = coverage (score pow fin) /\
  confidence (score pow fin) =
    (if 70 <=? usedWeight (score pow fin) then HIGH
     else if 35 <=? usedWeight (score pow fin) then MED else LOW) /\
  lowConf (score pow fin) = (usedWeight (score pow fin) <? 60).
Proof.
  pose proof (ScoringProofs.usedWeight_cases pow fin) as Hw. fold weights in Hw.
  pose proof (proj1 (Forall_forall _ _) coverage_table _ Hw) as (H1 & H2 & H3 & H4).
  assert (coverage (score pow fin) = div (ofZ (usedWeight (score pow fin))) (ofZ 100)) as Ec.
  { rewrite ScoringProofs.coverage_eq, ScoringProofs.usedTotalWeight_ofZ. reflexivity. }
  split; [rewrite Ec; exact H1|].
  split; [cbn [respond diagnostics_coverage]; rewrite Ec; exact H2|].
  split.
  - change (confidence (score pow fin)) with (pickConfidence (coverage (score pow fin))).
    rewrite Ec. exact H3.
  - change (lowConf (score pow fin)) with (ltb (coverage (score pow fin)) (ratio 6 10)).
    rewrite Ec. exact H4.
Qed.

(** X20: The warnings are the notes of the sanitized multiples followed by at
    most one warning about the coverage, chosen by the used weight: the
    neutral-score warning for 0, the very-low-coverage warning for 30 (value
    alone), the low-coverage warning for 35 (growth or margin alone), and
    none from 65 on.  There are never more than three warnings. *)
Theorem warnings_by_weight :
  warnings (score pow fin) =
    notes (mult (score pow fin)) ++ coverage_warning (usedWeight (score pow fin)) /\
  (length (warnings (score pow fin)) <= 3)%nat.
Proof.
  pose proof (ScoringProofs.usedWeight_cases pow fin) as Hw. fold weights in Hw.
  pose proof (proj1 (Forall_forall _ _) warning_table _ Hw) as Ht. cbv beta in Ht.
  assert (coverage (score pow fin) = div (ofZ (usedWeight (score pow fin))) (ofZ 100)) as Ec.
  { rewrite ScoringProofs.coverage_eq, ScoringProofs.usedTotalWeight_ofZ. reflexivity. }
  assert (warnings (score pow fin) =
          notes (mult (score pow fin)) ++ coverage_warning (usedWeight (score pow fin))) as E.
  { rewrite <- Ht, <- Ec.
    change (warnings (score pow fin)) with
      (if eqb (coverage (score pow fin)) (ofZ 0)
       then notes (mult (score pow fin)) ++
            ["No usable financial/value signals; neutral score used."%string]
       else if ltb (coverage (score pow fin)) (ratio 35 100)
       then notes (mult (score pow fin)) ++
            ["Very low coverage; treat as WATCH (not a strong call)."%string]
       else if ltb (coverage (score pow fin)) (ratio 6 10)
       then notes (mult (score pow fin)) ++
            ["Low coverage; treat as WATCH (not a strong call)."%string]
       else notes (mult (score pow fin))).
    destruct (eqb (coverage (score pow fin)) (ofZ 0)); [reflexivity|].
    destruct (ltb (coverage (score pow fin)) (ratio 35 100)); [reflexivity|].
    destruct (ltb (coverage (score pow fin)) (ratio 6 10)); [reflexivity|].
    rewrite app_nil_r. reflexivity. }
  split; [exact E|]. rewrite E, length_app.
  assert (length (notes (mult (score pow fin))) <= 2)%nat as Hn.
  { change (mult (score pow fin)) with
      (sanitizeMultiples (m ← multiples fin; pe m) (m ← multiples fin; ps m)).
    unfold sanitizeMultiples. cbv zeta. cbn [s_ps s_pe notes].
    destruct (asNum (m ← multiples fin; ps m)) as [v|];
      [destruct (gtb v (ofZ 40))|]; cbn [s_ps s_pe notes];
      (destruct (asNum (m ← multiples fin; pe m)) as [u|];
        [destruct (gtb u (ofZ 80))|]); cbn; lia. }
  assert (length (coverage_warning (usedWeight (score pow fin))) <= 1)%nat as Hc.
  { unfold coverage_warning. repeat case_match; cbn; lia. }
  lia.
Qed.
End Scores.

End EngineProofs.
(** ** More on the scoring engine *)

Module EngineOrderProofs.
Import Recommendation Range Reference Binary64 SortFacts PipelineReference.

#[local] Instance year_lt_antisym : AntiSymm eq year_lt.
Proof. intros a b Hab Hba. unfold year_lt in *. lia. Qed.

Lemma sort_by_year_strict (l : list Row) :
  NoDup (year <$> l) -> StronglySorted year_lt (sort_by year l).
Proof.
  intros Hnd. pose proof (sort_by_sorted year l) as Hs.
  assert (Hnd' : NoDup (year <$> sort_by year l)) by (rewrite sort_by_perm; exact Hnd).
  induction Hs as [|x k Hs IH Hall]; [constructor|].
  rewrite fmap_cons in Hnd'. apply NoDup_cons in Hnd' as [Hx Hk].
  constructor; [apply IH; exact Hk|].
  rewrite Forall_forall in *. intros z Hz. specialize (Hall z Hz).
  unfold key_le in Hall. unfold year_lt.
  assert (year x <> year z); [|lia].
  intros E. apply Hx. rewrite E. apply list_elem_of_fmap. eauto.
Qed.

Lemma sort_by_year_unique (l l' : list Row) :
  NoDup (year <$> l) -> l' ≡ₚ l -> sort_by year l' = sort_by year l.
Proof.
  intros Hnd Hp.
  apply (StronglySorted_unique year_lt).
  - apply sort_by_year_strict. rewrite Hp. exact Hnd.
  - apply sort_by_year_strict. exact Hnd.
  - rewrite !sort_by_perm. exact Hp.
Qed.

(** X21: The engine does not depend on the order in which the payload lists its
    rows, as long as no year is repeated: the answer to a payload and to
    the same payload with its rows permuted is the same. *)
Theorem row_order_irrelevant (pow : number -> number -> number)
    (tickerRaw : option string) (status : Z) (fin : FinancialsPayload)
    (rows' : list Row) :
  NoDup (year <$> rows fin) -> rows' ≡ₚ rows fin ->
  GET pow tickerRaw (Answered (Json status (with_rows fin rows'))) =
  GET pow tickerRaw (Answered (Json status fin)).
Proof.
  intros Hnd Hp.
  assert (score pow (with_rows fin rows') = score pow fin) as Hs.
  { unfold score, with_rows. cbn [rows multiples].
    rewrite (sort_by_year_unique _ _ Hnd Hp). reflexivity. }
  unfold GET. destruct tickerRaw as [[|c t]|]; try reflexivity.
  unfold ok, status_of, payload_of.
  destruct (negb _); [reflexivity|].
  rewrite Hs. reflexivity.
Qed.

Lemma scaleLinear_nonpositive v mc ec :
  isFinite v = true -> leb v (ofZ 0) = true ->
  scaleLinear v (ofZ 0) (S754_finite false mc ec) = ofZ 0.
Proof.
  intros Hv Hle. unfold scaleLinear.
  change (ofZ 0) with (S754_zero false) in *.
  change (ofZ 1) with (S754_finite false 4503599627370496 (-52)).
  change (sub (S754_finite false mc ec) (S754_zero false)) with (S754_finite false mc ec).
  destruct v as [s| | |s m e]; try discriminate Hv.
  - destruct s; reflexivity.
  - destruct s; [|discriminate Hle].
    change (sub (S754_finite true m e) (S754_zero false)) with (S754_finite true m e).
    pose proof (div_valid (S754_finite true m e) false mc ec ltac:(discriminate)) as Hd.
    cbn [sign_bit xorb] in Hd.
    destruct Hd as [->|[->|(m' & e' & -> & _)]]; reflexivity.
Qed.

Section Margins.
Variable pow : number -> number -> number.
Variable fin : FinancialsPayload.

(** X22: Margins that are not positive earn no points, but they still count: if
    neither the operating margin nor the FCF margin is above 0, the margin
    sub-score is 0, and the margin component is used (its weight of 35
    enters the normalization) as soon as one of the two is a finite
    number. *)
Theorem losses_earn_no_margin_points :
  at_most_zero (opMargin (score pow fin)) ->
  at_most_zero (fcfMargin (score pow fin)) ->
  marginScore (score pow fin) = ofZ 0 /\
  margin (used (score pow fin)) =
    isNum (opMargin (score pow fin)) || isNum (fcfMargin (score pow fin)).
Proof.
  intros Hop Hfc.
  change (opMargin (score pow fin))
    with (compute_margin opIncome (sort_by year (rows fin))) in *.
  change (fcfMargin (score pow fin))
    with (compute_margin fcf (sort_by year (rows fin))) in *.
  unfold score. cbn [marginScore used margin].
  assert (ratio 25 100 = S754_finite false 4503599627370496 (-54)) as E25
    by (vm_compute; reflexivity).
  assert (ratio 2 10 = S754_finite false 7205759403792794 (-55)) as E20
    by (vm_compute; reflexivity).
  destruct (compute_margin opIncome (sort_by year (rows fin))) as [v|];
    destruct (compute_margin fcf (sort_by year (rows fin))) as [w|];
    cbn [asNum isNum].
  - cbn in Hop, Hfc.
    destruct (isFinite v) eqn:Ev; destruct (isFinite w) eqn:Ew; cbn [fst snd orb];
      rewrite ?E25, ?E20, ?scaleLinear_nonpositive by assumption;
      split; reflexivity.
  - cbn in Hop.
    destruct (isFinite v) eqn:Ev; cbn [fst snd orb];
      rewrite ?E25, ?scaleLinear_nonpositive by assumption; split; reflexivity.
  - cbn in Hfc.
    destruct (isFinite w) eqn:Ew; cbn [fst snd orb];
      rewrite ?E20, ?scaleLinear_nonpositive by assumption; split; reflexivity.
  - split; reflexivity.
Qed.
End Margins.

End EngineOrderProofs.

(** ** The two routes together *)

Module PipelineProofs.
Import Financials RouteProofs.

Section Routes.
Context {SecCompanyFacts FinnhubFinancialsResponse : Type}.
Variable toUpperTicker : string -> string.
Variable buildRowsFromSEC : SecCompanyFacts -> list Row.
Variable parseFinnhubAnnualFY : FinnhubFinancialsResponse -> list Row.
Variable SEC_USER_AGENT FINNHUB_API_KEY : string.
Variable fetchSecTickerMap : string -> Outcome (gmap string string).
Variable fetchSecCompanyFacts : string -> string -> Outcome SecCompanyFacts.
Variable fetchFinnhubFinancials : string -> string -> Outcome FinnhubFinancialsResponse.
Variable fetchFinnhubMultiples : string -> string -> Outcome Multiples.
Variable pow : number -> number -> number.

End Routes.

End PipelineProofs.
(** ** The banner route *)

Module BannerProofs.
Import Stdlib.Strings.Ascii Financials BannerRecos Decimal.

Lemma uniq_from (seen arr : list string) :
  foldl (fun seen x => if bool_decide (x ∈ seen) then seen else seen ++ [x]) seen arr =
  seen ++ filter (fun y => y ∉ seen) (uniq arr).
Proof.
  unfold uniq. induction arr as [|x arr IH] using rev_ind.
  - cbn. rewrite app_nil_r. reflexivity.
  - rewrite !foldl_app. cbn [foldl]. rewrite IH.
    set (U := foldl (fun seen x => if bool_decide (x ∈ seen) then seen else seen ++ [x]) [] arr).
    destruct (decide (x ∈ seen)) as [Hs|Hs].
    + rewrite bool_decide_eq_true_2 by (apply elem_of_app; left; exact Hs).
      destruct (bool_decide (x ∈ U)); [reflexivity|].
      rewrite filter_app, filter_cons, filter_nil.
      rewrite decide_False by (intros H; exact (H Hs)).
      rewrite app_nil_r. reflexivity.
    + destruct (decide (x ∈ U)) as [Hu|Hu].
      * rewrite bool_decide_eq_true_2.
        -- rewrite bool_decide_eq_true_2 by exact Hu. reflexivity.
        -- apply elem_of_app. right. apply list_elem_of_filter. tauto.
      * rewrite bool_decide_eq_false_2.
        -- rewrite bool_decide_eq_false_2 by exact Hu.
           rewrite filter_app, filter_cons, filter_nil.
           rewrite decide_True by exact Hs. rewrite app_assoc. reflexivity.
        -- rewrite elem_of_app, list_elem_of_filter. tauto.
Qed.

Lemma uniq_cons (x : string) (arr : list string) :
  uniq (x :: arr) = x :: filter (fun y => y <> x) (uniq arr).
Proof.
  unfold uniq at 1. cbn [foldl]. rewrite bool_decide_eq_false_2 by apply not_elem_of_nil.
  cbn [app]. rewrite uniq_from. cbn [app]. f_equal.
  apply list_filter_iff. intros y. rewrite list_elem_of_singleton. tauto.
Qed.

Lemma uniq_elem (arr : list string) (x : string) : x ∈ uniq arr <-> x ∈ arr.
Proof.
  induction arr as [|y arr IH]; [reflexivity|].
  rewrite uniq_cons, !elem_of_cons, list_elem_of_filter, IH.
  destruct (decide (x = y)); tauto.
Qed.

Lemma uniq_NoDup (arr : list string) : NoDup (uniq arr).
Proof.
  induction arr as [|y arr IH]; [constructor|].
  rewrite uniq_cons. constructor.
  - rewrite list_elem_of_filter. tauto.
  - apply NoDup_filter. exact IH.
Qed.

Lemma filter_other (x : string) (l : list string) :
  x ∉ l -> filter (fun y => y <> x) l = l.
Proof.
  induction l as [|y l IH]; [reflexivity|].
  intros Hx. apply not_elem_of_cons in Hx as [Hxy Hx].
  rewrite filter_cons, decide_True by congruence. f_equal. apply IH. exact Hx.
Qed.

Lemma uniq_fixed (arr : list string) : NoDup arr -> uniq arr = arr.
Proof.
  induction 1 as [|x arr Hx Hnd IH]; [reflexivity|].
  rewrite uniq_cons, IH. f_equal. apply filter_other. exact Hx.
Qed.

(** X24: [uniq] keeps one copy of each element, the first, and nothing else: the
    result has no repetition and the same members, the head of the input
    stays in front, and a list without repetition comes back as it is (so
    [uniq] is idempotent). *)
Theorem uniq_keeps_first (arr : list string) :
  NoDup (uniq arr) /\
  (forall x, x ∈ uniq arr <-> x ∈ arr) /\
  (forall x rest, arr = x :: rest ->
     uniq arr = x :: filter (fun y => y <> x) (uniq rest)) /\
  uniq (uniq arr) = uniq arr.
Proof.
  split; [apply uniq_NoDup|]. split; [apply uniq_elem|]. split.
  - intros x rest ->. apply uniq_cons.
  - apply uniq_fixed, uniq_NoDup.
Qed.

Lemma split_comma_nonempty (s : string) : split_comma s <> [].
Proof.
  destruct s as [|c s]; cbn; [discriminate|].
  destruct (Ascii.eqb c ","); [discriminate|].
  destruct (split_comma s); discriminate.
Qed.

Lemma concat_cons (sep piece : string) (pieces : list string) :
  pieces <> [] ->
  String.concat sep (piece :: pieces) = (piece +:+ sep +:+ String.concat sep pieces)%string.
Proof. destruct pieces; [contradiction|reflexivity]. Qed.

(** X25: Splitting at the commas loses nothing: joining the pieces with commas
    gives the string back, no piece holds a comma, and there is one piece
    more than there are commas (so the empty string gives one empty
    piece). *)
Theorem split_comma_join (s : string) :
  String.concat "," (split_comma s) = s /\
  Forall (fun piece => ","%char ∉ chars piece) (split_comma s) /\
  length (split_comma s) = S (length (filter (fun c => c = ","%char) (chars s))).
Proof.
  induction s as [|c s (IH1 & IH2 & IH3)].
  - cbn. split; [reflexivity|]. split; [|reflexivity].
    constructor; [apply not_elem_of_nil|constructor].
  - cbn [split_comma]. pose proof (split_comma_nonempty s) as Hne.
    destruct (Ascii.eqb_spec c ","%char) as [->|Hc].
    + split; [|split].
      * rewrite concat_cons by exact Hne. rewrite IH1. reflexivity.
      * constructor; [apply not_elem_of_nil|exact IH2].
      * cbn [chars list_ascii_of_string]. rewrite filter_cons, decide_True by reflexivity.
        cbn [length]. f_equal. exact IH3.
    + destruct (split_comma s) as [|piece pieces] eqn:E; [contradiction|].
      split; [|split].
      * rewrite <- IH1. destruct pieces; reflexivity.
      * inversion IH2 as [|? ? Hp Hps]; subst. constructor; [|exact Hps].
        cbn [chars list_ascii_of_string]. apply not_elem_of_cons. split; [congruence|exact Hp].
      * cbn [chars list_ascii_of_string]. rewrite filter_cons, decide_False by exact Hc.
        exact IH3.
Qed.


Section Handler.
Variable normalize : string -> string.
Variable fetch_recommendation : string -> Outcome (HttpResponse Recommendation.Response).


End Handler.

End BannerProofs.
(** ** The breakdown, the multiples and the trend *)

Module BreakdownProofs.
Import Recommendation Range Reference Binary64 IntegerFacts EngineReference.

(** [Math.round] of a valid double between 0 and [N] is an integer between
    0 and [N]. *)
Lemma round_in_range N x :
  0 <= N < 2 ^ 52 -> in_range N x ->
  exists k, 0 <= k <= N /\ Math_round x = ofZ k.
Proof.
  intros HN [->|(m & e & -> & Hb & He & Hm)].
  - exists 0. split; [lia|reflexivity].
  - unfold Math_round.
    pose proof (bounded_digits m e Hb) as (Hd & _ & Hnorm).
    pose proof (Zdigits2_bounds (Z.pos m) ltac:(lia)) as Hbm.
    destruct (Z.leb_spec 0 e) as [He0|He0].
    + exfalso. assert (e = 0) by lia. subst e.
      rewrite (Hnorm ltac:(lia)) in Hbm. change (53 - 1) with 52 in Hbm.
      change (2 ^ (- 0)) with 1 in Hm. lia.
    + cbn [cond_Zopp].
      set (n := (2 * Z.pos m + 2 ^ (- e)) / 2 ^ (- e + 1)).
      assert (Hp : 0 < 2 ^ (- e)) by (apply Z.pow_pos_nonneg; lia).
      assert (Hp2 : 2 ^ (- e + 1) = 2 * 2 ^ (- e)).
      { rewrite Z.pow_add_r by lia. change (2 ^ 1) with 2. lia. }
      assert (Hn : 0 <= n) by (apply Z.div_pos; lia).
      assert (HnN : n < N + 1).
      { apply Z.div_lt_upper_bound; [lia|]. rewrite Hp2. nia. }
      destruct (Z.eqb_spec n 0) as [Hn0|Hn0].
      * exists 0. split; [lia|reflexivity].
      * exists n. split; [lia|reflexivity].
Qed.

Section Scores.
Variable pow : number -> number -> number.
Variable fin : FinancialsPayload.

(** X27: The breakdown of the answer shows integers: the rounded growth score
    is between 0 and 35, the rounded margin score between 0 and 35, the
    rounded value score between 0 and 30, and the rounded raw total between
    0 and the used total weight. *)
Theorem breakdown_integers :
  exists g m v t : Z,
    0 <= g <= 35 /\ 0 <= m <= 35 /\ 0 <= v <= 30 /\
    0 <= t <= usedWeight (score pow fin) /\
    breakdown_growth (respond fin (score pow fin)) = ofZ g /\
    breakdown_margin (respond fin (score pow fin)) = ofZ m /\
    breakdown_value (respond fin (score pow fin)) = ofZ v /\
    breakdown_raw_total (respond fin (score pow fin)) = ofZ t.
Proof.
  assert (forall b w, 0 <= w <= 35 -> 0 <= weight b w <= w) as Hw
    by (intros [] w; cbn; lia).
  assert (2 ^ 52 = 4503599627370496) as H52 by reflexivity.
  pose proof (Hw (growth (used (score pow fin))) 35 ltac:(lia)) as Hg.
  pose proof (Hw (margin (used (score pow fin))) 35 ltac:(lia)) as Hm.
  pose proof (Hw (value (used (score pow fin))) 30 ltac:(lia)) as Hv.
  assert (0 <= weight (growth (used (score pow fin))) 35 < 2 ^ 52) as Bg by lia.
  assert (0 <= weight (margin (used (score pow fin))) 35 < 2 ^ 52) as Bm by lia.
  assert (0 <= weight (value (used (score pow fin))) 30 < 2 ^ 52) as Bv by lia.
  destruct (round_in_range _ _ Bg (ScoringProofs.growthScore_in_range pow fin))
    as (g & Hg' & Eg).
  destruct (round_in_range _ _ Bm (ScoringProofs.marginScore_in_range pow fin))
    as (m & Hm' & Em).
  destruct (round_in_range _ _ Bv (ScoringProofs.valueScore_in_range pow fin))
    as (v & Hv' & Ev).
  assert (0 <= usedWeight (score pow fin) < 2 ^ 52) as Hu by (unfold usedWeight; lia).
  destruct (round_in_range _ _ Hu (ScoringProofs.raw_in_range pow fin)) as (t & Ht & Et).
  exists g, m, v, t. cbn [respond breakdown_growth breakdown_margin breakdown_value
    breakdown_raw_total].
  repeat split; try lia; assumption.
Qed.
End Scores.

End BreakdownProofs.

Module MultiplesProofs.
Import Financials RouteReference SecReference RouteProofs.

Section Assembled.
Variable toUpperTicker : string -> string.
Variable toUpperCase : string -> string.
Variable localeCompare : string -> string -> Z.
Variable SEC_USER_AGENT FINNHUB_API_KEY : string.
Variable fetch_ticker_map : string -> Outcome (Http.Reply (list Sec.SecTickerRow)).
Variable fetch_company_facts :
  string -> string -> Outcome (Http.Reply Sec.SecCompanyFacts).
Variable fetch_financials :
  string -> string -> Outcome (Http.Reply Finnhub.FinnhubFinancialsResponse).
Variable fetch_metric : string -> string -> Outcome (Http.Reply Finnhub.Metric).
Variable pow : number -> number -> number.

Lemma route_multiples_finite now now' mem tickerRaw status p m :
  Route.financials toUpperTicker toUpperCase localeCompare SEC_USER_AGENT
    FINNHUB_API_KEY fetch_ticker_map fetch_company_facts fetch_financials
    fetch_metric now now' mem tickerRaw = Json status p ->
  multiples p = Some m -> finite_multiples m.
Proof.
  assert (finite_multiples no_multiples) as Hnone by (split; exact I).
  unfold Route.financials, GET. cbv zeta.
  destruct tickerRaw as [[|c raw]|]; [discriminate| |discriminate].
  destruct (negb (nonempty SEC_USER_AGENT)); [discriminate|].
  destruct (Sec.fetchSecTickerMap _ _ _ _ _).1 as [map|msg]; [|discriminate].
  destruct (map !! toUpperTicker (String c raw)) as [[|c' cik]|].
  1,3: intros [= _ <-]; cbn [multiples]; intros [= <-]; exact Hnone.
  destruct (Sec.fetchSecCompanyFacts _ _ _ _ _).1 as [facts|msg]; [|discriminate].
  match goal with
  | |- context [let '(_, _) := ?x in _] => destruct x as [fhRows finnhubOk]
  end.
  intros [= _ <-]. cbn [multiples]. intros [= <-].
  destruct (nonempty FINNHUB_API_KEY); [|exact Hnone].
  destruct (Finnhub.fetchFinnhubMultiples _ _ _) as [m|msg] eqn:E; [|exact Hnone].
  eapply fetched_multiples_finite. exact E.
Qed.

(** X28: For a payload that comes from the financials route, a multiple above
    its threshold is always left out of the scoring and always warned
    about: the route never sends a multiple that is not finite, so a P/E
    above 80 (a P/S above 40) cannot slip through the sanitizer
    unnoticed. *)
Theorem high_multiples_always_flagged now now' mem tickerRaw :
  match
    Route.financials toUpperTicker toUpperCase localeCompare SEC_USER_AGENT
      FINNHUB_API_KEY fetch_ticker_map fetch_company_facts fetch_financials
      fetch_metric now now' mem tickerRaw
  with
  | Json _ p =>
      forall m x, multiples p = Some m ->
        (pe m = Some x -> gtb x (ofZ 80) = true ->
         Recommendation.s_pe (Recommendation.mult (Recommendation.score pow p)) = None /\
         "P/E is extremely high; skipped from scoring (not comparable)."%string
           ∈ Recommendation.warnings (Recommendation.score pow p)) /\
        (ps m = Some x -> gtb x (ofZ 40) = true ->
         Recommendation.s_ps (Recommendation.mult (Recommendation.score pow p)) = None /\
         "P/S is extremely high; skipped from scoring (not comparable)."%string
           ∈ Recommendation.warnings (Recommendation.score pow p))
  | JsonError _ _ _ => True
  end.
Proof.
  destruct (Route.financials _ _ _ _ _ _ _ _ _ _ _ _ _) as [st p|] eqn:E; [|exact I].
  intros m x Hm.
  pose proof (route_multiples_finite _ _ _ _ _ _ _ E Hm) as [Hpe Hps].
  split.
  - intros Epe Hgt. rewrite Epe in Hpe. cbn in Hpe.
    destruct (ScoringProofs.sanitize_high_pe pow (ps m) x Hpe Hgt) as (_ & H2 & _ & H4).
    assert (Recommendation.mult (Recommendation.score pow p) =
            Recommendation.sanitizeMultiples (Some x) (ps m)) as Hmult.
    { unfold Recommendation.score. cbn [Recommendation.mult]. rewrite Hm. cbn.
      rewrite Epe. reflexivity. }
    split; [rewrite Hmult; exact H2|].
    apply ScoringProofs.warnings_notes. rewrite Hmult. exact H4.
  - intros Eps Hgt. rewrite Eps in Hps. cbn in Hps.
    destruct (ScoringProofs.sanitize_high_ps pow (pe m) x Hps Hgt) as (_ & H2 & _ & H4).
    assert (Recommendation.mult (Recommendation.score pow p) =
            Recommendation.sanitizeMultiples (pe m) (Some x)) as Hmult.
    { unfold Recommendation.score. cbn [Recommendation.mult]. rewrite Hm. cbn.
      rewrite Eps. reflexivity. }
    split; [rewrite Hmult; exact H2|].
    apply ScoringProofs.warnings_notes. rewrite Hmult. exact H4.
Qed.
End Assembled.

End MultiplesProofs.
(** ** The trend of the free cash flow *)

Module TrendProofs.
Import Recommendation Range Reference Binary64 SortFacts PipelineReference TrendReference.

(** A finite number divided by itself is 1. *)
Lemma div_self s m e : div (S754_finite s m e) (S754_finite s m e) = ofZ 1.
Proof.
  unfold div, SFdiv, SFdiv_core_binary.
  replace (Zdigits2 (Z.pos m) + e - (Zdigits2 (Z.pos m) + e)) with 0 by lia.
  replace (e - e) with 0 by lia.
  change (Z.min (fexp prec emax 0) 0) with (-53).
  change (0 - -53) with 53. cbv iota beta.
  replace (Z.shiftl (Z.pos m) 53) with (Z.pos m * 2 ^ 53)
    by (symmetry; apply Z.shiftl_mul_pow2; discriminate).
  pose proof (Z_div_mod (Z.pos m * 2 ^ 53) (Z.pos m) eq_refl) as H.
  destruct (Z.div_eucl (Z.pos m * 2 ^ 53) (Z.pos m)) as [q r].
  destruct H as [H1 H2].
  assert (q = 2 ^ 53) as ->.
  { assert (Z.pos m * (2 ^ 53 - q) = r) as Hr by lia.
    destruct (Z.lt_trichotomy (2 ^ 53 - q) 0) as [Hlt|[Heq|Hgt]]; [|lia|].
    - assert (Z.pos m * (2 ^ 53 - q) <= Z.pos m * (-1)) by (apply Z.mul_le_mono_nonneg_l; lia).
      lia.
    - assert (Z.pos m * 1 <= Z.pos m * (2 ^ 53 - q)) by (apply Z.mul_le_mono_nonneg_l; lia).
      lia. }
  assert (r = 0) as -> by lia.
  replace (new_location (Z.pos m) 0) with loc_Exact.
  2:{ unfold new_location, new_location_even, new_location_odd.
      destruct (Z.even (Z.pos m)); reflexivity. }
  replace (xorb s s) with false by (destruct s; reflexivity).
  vm_compute. reflexivity.
Qed.

Lemma trend_same m e : trend (S754_finite false m e) (S754_finite false m e) = FLAT.
Proof. unfold trend. rewrite div_self. vm_compute. reflexivity. Qed.

Lemma abs_finite (a : number) : isFinite (Math_abs a) = isFinite a.
Proof. destruct a; reflexivity. Qed.

Lemma abs_nonzero (a : number) : neqb (Math_abs a) (ofZ 0) = neqb a (ofZ 0).
Proof. destruct a as [[]|[]| |[] m e]; reflexivity. Qed.

Lemma magnitudes_abs (x y x' y' : option number) :
  Math_abs <$> x' = Math_abs <$> x -> Math_abs <$> y' = Math_abs <$> y ->
  magnitudes x' y' = magnitudes x y.
Proof.
  assert (forall u u' : option number, Math_abs <$> u' = Math_abs <$> u ->
            asNum u' = None /\ asNum u = None \/
            exists a a', asNum u' = Some a' /\ asNum u = Some a /\
                         Math_abs a' = Math_abs a) as H.
  { intros [a|] [a'|]; cbn; try discriminate; [|left; split; reflexivity].
    intros [= E].
    assert (isFinite a' = isFinite a) as Hf
      by (rewrite <- (abs_finite a'), E, abs_finite; reflexivity).
    rewrite Hf. destruct (isFinite a); [right; eauto|left; split; reflexivity]. }
  intros Hx Hy. unfold magnitudes.
  destruct (H _ _ Hx) as [[-> ->]|(a & a' & -> & -> & Ea)]; [reflexivity|].
  destruct (H _ _ Hy) as [[-> ->]|(b & b' & -> & -> & Eb)]; [reflexivity|].
  cbn. rewrite <- (abs_nonzero a'), <- (abs_nonzero a), Ea, Eb. reflexivity.
Qed.

Section Trend.
Variable pow : number -> number -> number.

Lemma compute_fcfTrend_eq (rows : list Row) :
  compute_fcfTrend rows =
    match (p ← previous rows; l ← last rows; magnitudes (fcf p) (fcf l)) with
    | Some (a, b) => trend a b
    | None => NA
    end.
Proof.
  unfold compute_fcfTrend, previous, magnitudes. cbv zeta.
  destruct (if decide (2 <= length rows)%nat then _ else _) as [p|]; [|reflexivity].
  destruct (last rows) as [l|]; [|reflexivity]. cbn.
  destruct (asNum (fcf p)) as [a|]; [|reflexivity]. cbn.
  destruct (asNum (fcf l)) as [b|]; [|reflexivity]. cbn.
  destruct (neqb a (ofZ 0)); reflexivity.
Qed.

Lemma insert_sorted_related (x x' : Row) (l l' : list Row) :
  same_magnitude x x' -> Forall2 same_magnitude l l' ->
  Forall2 same_magnitude (insert_sorted year x l) (insert_sorted year x' l').
Proof.
  intros Hx Hl. induction Hl as [|y y' l l' Hy Hl IH]; cbn.
  - constructor; [exact Hx|constructor].
  - destruct Hx as [Ex Fx]. destruct Hy as [Ey Fy]. rewrite Ex, Ey.
    destruct (year x <=? year y).
    + constructor; [split; assumption|]. constructor; [split; assumption|exact Hl].
    + constructor; [split; assumption|]. apply IH.
Qed.

Lemma sort_by_related (l l' : list Row) :
  Forall2 same_magnitude l l' ->
  Forall2 same_magnitude (sort_by year l) (sort_by year l').
Proof.
  induction 1 as [|x x' l l' Hx Hl IH]; cbn; [constructor|].
  apply insert_sorted_related; assumption.
Qed.

Lemma related_pair (l l' : list Row) :
  Forall2 same_magnitude l l' ->
  (p ← previous l'; r ← last l'; magnitudes (fcf p) (fcf r)) =
  (p ← previous l; r ← last l; magnitudes (fcf p) (fcf r)).
Proof.
  intros H. pose proof (Forall2_length _ _ _ H) as Hlen. unfold previous.
  rewrite <- Hlen. rewrite !last_lookup, <- Hlen.
  destruct (decide (2 <= length l)%nat) as [H2|H2]; [|reflexivity].
  destruct (l !! (length l - 2)%nat) as [p|] eqn:Ep.
  - destruct (Forall2_lookup_l _ _ _ _ _ H Ep) as (p' & Ep' & [_ Hp]). rewrite Ep'. cbn.
    destruct (l !! Nat.pred (length l)) as [r|] eqn:Er.
    + destruct (Forall2_lookup_l _ _ _ _ _ H Er) as (r' & Er' & [_ Hr]). rewrite Er'. cbn.
      apply magnitudes_abs; assumption.
    + apply lookup_ge_None in Er. lia.
  - apply lookup_ge_None in Ep. lia.
Qed.

(** X29: The trend of the free cash flow looks at magnitudes only: changing the
    sign of the free cash flow of any rows leaves it as it is. *)
Theorem fcf_trend_ignores_signs (fin : FinancialsPayload) (rows' : list Row) :
  Forall2 same_magnitude (rows fin) rows' ->
  fcfTrend (score pow (with_rows fin rows')) = fcfTrend (score pow fin).
Proof.
  intros H.
  change (fcfTrend (score pow (with_rows fin rows')))
    with (compute_fcfTrend (sort_by year rows')).
  change (fcfTrend (score pow fin)) with (compute_fcfTrend (sort_by year (rows fin))).
  rewrite !compute_fcfTrend_eq.
  rewrite (related_pair _ _ (sort_by_related _ _ H)). reflexivity.
Qed.

(** X30: A free cash flow of unchanged magnitude is FLAT: when the latest year
    and the year before report finite free cash flows of the same
    magnitude, other than 0, the trend is FLAT, whatever their signs. *)
Theorem steady_fcf_is_flat (fin : FinancialsPayload) (p l : Row) (x y : number) :
  previous (sort_by year (rows fin)) = Some p ->
  last (sort_by year (rows fin)) = Some l ->
  fcf p = Some x -> fcf l = Some y ->
  isFinite x = true -> neqb x (ofZ 0) = true -> Math_abs y = Math_abs x ->
  fcfTrend (score pow fin) = FLAT.
Proof.
  intros Hp Hl Hx Hy Hfin Hnz Habs.
  change (fcfTrend (score pow fin)) with (compute_fcfTrend (sort_by year (rows fin))).
  rewrite compute_fcfTrend_eq, Hp, Hl. cbn. rewrite Hx, Hy.
  unfold magnitudes. cbn [asNum]. rewrite Hfin. cbn.
  assert (isFinite y = true) as -> by (rewrite <- abs_finite, Habs, abs_finite; exact Hfin).
  cbn. rewrite Hnz, Habs.
  destruct x as [sx|sx| |sx m e]; try discriminate Hfin.
  - destruct sx; discriminate Hnz.
  - cbn [Math_abs SFabs]. apply trend_same.
Qed.
End Trend.

End TrendProofs.
(** ** The properties on concrete inputs *)

Module ProviderExamples.
Import Financials SecReference CacheReference RouteReference
  PipelineReference TrendReference ProviderSamples Samples.

Lemma code_unit_compare_consistent : consistent code_unit_compare.
Proof.
  assert (forall a b, code_unit_compare a b <= 0 <-> String.le a b) as Hle.
  { intros a b. unfold code_unit_compare, String.le, String.leb.
    destruct (String.compare a b); cbn; split; intros H; try lia; try exact I;
      contradiction. }
  split.
  - intros a b. unfold code_unit_compare. rewrite (String.compare_antisym b a).
    destruct (String.compare a b); cbn; lia.
  - intros a b c. rewrite !Hle. apply transitivity.
Qed.

Example sec_rows_example :
  parsed_rows (Sec.buildRowsFromSEC code_unit_compare sample_facts) = sample_sec_rows.
Proof. vm_compute. reflexivity. Qed.

Example finnhub_rows_example :
  parsed_rows (Finnhub.parseFinnhubAnnualFY sample_reports) =
    [ {| year := 2023; revenue := Some (ofZ 131); opIncome := Some (ofZ 30);
         fcf := None;
         meta := Some {| revenue_source := "finnhub"; opIncome_source := "finnhub";
                         fcf_source := "none" |} |} ].
Proof. vm_compute. reflexivity. Qed.

Example banner_example :
  BannerRecos.GET ascii_upper (fun _ => Threw "down") (Some "aapl, msft,,aapl"%string) =
    Json 200 {| BannerRecos.count := 0; BannerRecos.items := [] |} /\
  BannerRecos.uniq ["b"; "a"; "b"; "c"; "a"]%string = ["b"; "a"; "c"]%string /\
  BannerRecos.split_comma "a,,b" = ["a"; EmptyString; "b"]%string.
Proof. vm_compute. repeat split. Qed.

(** The revenue of 2022 is the restated one, filed last. *)
Lemma latest_filing_wins_witness :
  Sec.extractAnnualByFY code_unit_compare sample_facts "Revenues" !! 2022 = Some (ofZ 110) /\
  exists p, p ∈ series sample_facts "Revenues" /\ annual_for 2022 p /\
            Sec.val p = Some (ofZ 110) /\
            forall q, q ∈ series sample_facts "Revenues" -> annual_for 2022 q ->
                      Sec.by_filed code_unit_compare q p <= 0.
Proof.
  assert (Sec.extractAnnualByFY code_unit_compare sample_facts "Revenues" !! 2022 =
          Some (ofZ 110)) as H by (vm_compute; reflexivity).
  split; [exact H|].
  exact (SecProofs.latest_filing_wins code_unit_compare sample_facts "Revenues" 2022
           (ofZ 110) code_unit_compare_consistent H).
Defined.

(** Three days after the download the directory is served from the cache,
    although the network is down. *)
Lemma ticker_map_reused_witness :
  Sec.fetchSecTickerMap ascii_upper (fun _ => online sample_directory) 1000 sample_agent
    Sec.no_cache =
    (Resolved sample_map,
     {| Sec.tickerMap := Some sample_map; Sec.tickerMapFetchedAt := 1000;
        Sec.companyFacts := ∅ |}) /\
  Sec.fetchSecTickerMap ascii_upper (fun _ => offline) (1000 + three_days) sample_agent
    {| Sec.tickerMap := Some sample_map; Sec.tickerMapFetchedAt := 1000; Sec.companyFacts := ∅ |} =
    (Resolved sample_map,
     {| Sec.tickerMap := Some sample_map; Sec.tickerMapFetchedAt := 1000;
        Sec.companyFacts := ∅ |}) /\
  ({| Sec.tickerMap := Some sample_map; Sec.tickerMapFetchedAt := 1000; Sec.companyFacts := ∅ |} =
     Sec.no_cache \/
   Sec.tickerMapFetchedAt
     {| Sec.tickerMap := Some sample_map; Sec.tickerMapFetchedAt := 1000; Sec.companyFacts := ∅ |} =
     1000).
Proof.
  assert (Sec.fetchSecTickerMap ascii_upper (fun _ => online sample_directory) 1000
            sample_agent Sec.no_cache =
          (Resolved sample_map,
           {| Sec.tickerMap := Some sample_map; Sec.tickerMapFetchedAt := 1000;
              Sec.companyFacts := ∅ |})) as H by (vm_compute; reflexivity).
  split; [exact H|].
  apply (CacheProofs.ticker_map_reused ascii_upper (fun _ => online sample_directory)
           (fun _ => offline) 1000 (1000 + three_days) sample_agent sample_agent
           Sec.no_cache sample_map _ H).
  vm_compute. reflexivity.
Defined.

(** Two hours after the download the company facts are served from the
    cache, although the network is down. *)
Lemma company_facts_reused_witness :
  Sec.fetchSecCompanyFacts (fun _ _ => online sample_facts) 1000 "0000320193" sample_agent
    Sec.no_cache =
    (Resolved sample_facts,
     {| Sec.tickerMap := None; Sec.tickerMapFetchedAt := 0;
        Sec.companyFacts := {[ "0000320193"%string := (1000, sample_facts) ]} |}) /\
  Sec.fetchSecCompanyFacts (fun _ _ => offline) (1000 + two_hours) "0000320193" sample_agent
    {| Sec.tickerMap := None; Sec.tickerMapFetchedAt := 0;
       Sec.companyFacts := {[ "0000320193"%string := (1000, sample_facts) ]} |} =
    (Resolved sample_facts,
     {| Sec.tickerMap := None; Sec.tickerMapFetchedAt := 0;
        Sec.companyFacts := {[ "0000320193"%string := (1000, sample_facts) ]} |}) /\
  ({| Sec.tickerMap := None; Sec.tickerMapFetchedAt := 0;
      Sec.companyFacts := {[ "0000320193"%string := (1000, sample_facts) ]} |} = Sec.no_cache \/
   1000 = 1000).
Proof.
  assert (Sec.fetchSecCompanyFacts (fun _ _ => online sample_facts) 1000 "0000320193"
            sample_agent Sec.no_cache =
          (Resolved sample_facts,
           {| Sec.tickerMap := None; Sec.tickerMapFetchedAt := 0;
              Sec.companyFacts := {[ "0000320193"%string := (1000, sample_facts) ]} |})) as H
    by (vm_compute; reflexivity).
  split; [exact H|].
  apply (CacheProofs.company_facts_reused (fun _ _ => online sample_facts)
           (fun _ _ => offline) 1000 (1000 + two_hours) "0000320193" sample_agent
           sample_agent Sec.no_cache sample_facts _ 1000 H).
  - vm_compute. reflexivity.
  - vm_compute. reflexivity.
Defined.

(** No Finnhub key: the answer for "aapl" holds the SEC rows. *)
Lemma finnhub_outage_is_soft_witness :
  exists m,
    Route.financials ascii_upper ascii_upper code_unit_compare sample_agent EmptyString
      (fun _ => online sample_directory) (fun _ _ => online sample_facts)
      (fun _ _ => offline) (fun _ _ => offline) 1000 1001 Sec.no_cache (Some "aapl"%string) =
    Json 200
      {| ticker := ascii_upper "aapl";
         source_note := Some sec_only_note;
         rows := parsed_rows (Sec.buildRowsFromSEC code_unit_compare sample_facts);
         multiples := Some m |}.
Proof.
  apply (RouteProofs.finnhub_outage_is_soft ascii_upper ascii_upper code_unit_compare
           sample_agent EmptyString (fun _ => online sample_directory)
           (fun _ _ => online sample_facts) (fun _ _ => offline) (fun _ _ => offline)
           1000 1001 Sec.no_cache "aapl" sample_map "0000320193" sample_facts).
  - discriminate.
  - discriminate.
  - vm_compute. reflexivity.
  - vm_compute. reflexivity.
  - discriminate.
  - vm_compute. reflexivity.
  - left. reflexivity.
Defined.

(** The three years of the end-to-end example, listed latest first. *)
Lemma row_order_irrelevant_witness :
  Recommendation.GET sqrt_pow (Some "ACME"%string)
    (Recommendation.Answered (Json 200 (with_rows end_to_end (reverse three_years)))) =
  Recommendation.GET sqrt_pow (Some "ACME"%string)
    (Recommendation.Answered (Json 200 end_to_end)).
Proof.
  apply (EngineOrderProofs.row_order_irrelevant sqrt_pow (Some "ACME"%string) 200
           end_to_end (reverse three_years)).
  - apply (bool_decide_unpack _). vm_compute. exact I.
  - apply reverse_Permutation.
Defined.

(** Two years of operating losses and negative free cash flow. *)
Lemma losses_earn_no_margin_points_witness :
  at_most_zero (Recommendation.opMargin (Recommendation.score sqrt_pow losses)) /\
  Recommendation.marginScore (Recommendation.score sqrt_pow losses) = ofZ 0 /\
  Recommendation.margin (Recommendation.used (Recommendation.score sqrt_pow losses)) =
    isNum (Recommendation.opMargin (Recommendation.score sqrt_pow losses)) ||
    isNum (Recommendation.fcfMargin (Recommendation.score sqrt_pow losses)).
Proof.
  assert (at_most_zero (Recommendation.opMargin (Recommendation.score sqrt_pow losses)))
    as H by (vm_compute; reflexivity).
  split; [exact H|].
  apply (EngineOrderProofs.losses_earn_no_margin_points sqrt_pow losses H).
  vm_compute. reflexivity.
Defined.


(** Negating the free cash flow of the latest year of the end-to-end
    example. *)
Lemma fcf_trend_ignores_signs_witness :
  Recommendation.fcfTrend
    (Recommendation.score sqrt_pow
       (with_rows end_to_end
          [ row 2021 (Some (ofZ 100)) (Some (ofZ 10)) (Some (ofZ 5));
            row 2022 (Some (ofZ 120)) (Some (ofZ 15)) (Some (ofZ 8));
            row 2023 (Some (ofZ 150)) (Some (ofZ 22)) (Some (ofZ (-12))) ])) =
  Recommendation.fcfTrend (Recommendation.score sqrt_pow end_to_end).
Proof.
  apply (TrendProofs.fcf_trend_ignores_signs sqrt_pow end_to_end).
  repeat constructor.
Defined.

(** The free cash flow goes from 8 to -8: FLAT. *)
Lemma steady_fcf_is_flat_witness :
  Recommendation.fcfTrend (Recommendation.score sqrt_pow swing) = Recommendation.FLAT.
Proof.
  apply (TrendProofs.steady_fcf_is_flat sqrt_pow swing
           (row 2022 (Some (ofZ 100)) None (Some (ofZ 8)))
           (row 2023 (Some (ofZ 120)) None (Some (ofZ (-8))))
           (ofZ 8) (ofZ (-8))); vm_compute; reflexivity.
Defined.

End ProviderExamples.
